(** * The 8-bit MVE frame decoder of d2x-rebirth (libmve/decoder8.cpp)

    A shallow embedding of [decodeFrame8], [dispatchDecoder] and the
    pattern fillers they call, followed by the properties of the decoder
    that its specification states.

    Modelling conventions.
    - The two frame buffers live in one flat byte-addressed memory
      ([mem], an address is a [Z]); [vBackBuf1] and [vBackBuf2] are the
      addresses of the buffer being written and of the other back buffer.
      Nothing in the decoder checks an address before it is dereferenced,
      and neither does the model: every address can be read and written.
    - The payload is read through a pointer to [const]; it is a separate
      read-only byte store ([data]), and [pData] is an address into it.
    - The opcode map is a [std::span]; it is a [list Z], and taking the
      front of an empty span is the outcome [MapExhausted].
    - [size_t], [int] and pointer arithmetic is arithmetic on [Z]: the
      dimensions of a frame and the counters derived from them stay far
      below the 32-bit range, and a [size_t] offset added to a pointer acts
      as the signed offset it wraps around. The narrow unsigned types whose
      wrap-around the code relies on (the 8- and 16-bit masks that end the
      loops of the pattern fillers) wrap explicitly. *)

From Stdlib Require Import ZArith List Lia Bool.
Import ListNotations.
Local Open Scope Z_scope.

(** ** Integer conversions *)

Definition u8 (x : Z) : Z := x mod 256.
Definition u16 (x : Z) : Z := x mod 65536.
Definition u64 (x : Z) : Z := x mod 18446744073709551616.
(** [static_cast<int8_t>] *)
Definition i8 (x : Z) : Z := (x + 128) mod 256 - 128.
(** the value of an [int] expression that left the 32-bit range *)
Definition i32 (x : Z) : Z := (x + 2147483648) mod 4294967296 - 2147483648.

(** An integer used as a condition. *)
Definition nonzero (x : Z) : bool := negb (x =? 0).

(** ** Memory *)

Definition mem := Z -> Z.

Definition upd (m : mem) (a v : Z) : mem :=
  fun x => if x =? a then v else m x.

(** ** Loops *)

(** [range_for (const int i, xrange(n))]: [n] iterations, [i] counts from 0. *)
Fixpoint xrange_loop {S : Type} (n i : nat) (body : Z -> S -> S) (s : S) : S :=
  match n with
  | O => s
  | Datatypes.S k => xrange_loop k (Datatypes.S i) body (body (Z.of_nat i) s)
  end.

Definition range_for {S : Type} (n : nat) (body : Z -> S -> S) (s : S) : S :=
  xrange_loop n 0 body s.

(** [while (cond) body], cut off after [fuel] iterations. The loops of the
    pattern fillers leave by their own condition well within the fuel they
    are given (lemmas [*_exits] below). *)
Fixpoint while {S : Type} (fuel : nat) (cond : S -> bool) (body : S -> S) (s : S) : S :=
  match fuel with
  | O => s
  | Datatypes.S k => if cond s then while k cond body (body s) else s
  end.

(** ** [std::array<uint8_t, 4>] *)

Record arr4 := Arr4 { a0 : Z; a1 : Z; a2 : Z; a3 : Z }.

Definition at4 (p : arr4) (k : Z) : Z :=
  match k with
  | 0 => a0 p
  | 1 => a1 p
  | 2 => a2 p
  | _ => a3 p
  end.

Definition set4 (p : arr4) (k v : Z) : arr4 :=
  match k with
  | 0 => Arr4 v (a1 p) (a2 p) (a3 p)
  | 1 => Arr4 (a0 p) v (a2 p) (a3 p)
  | 2 => Arr4 (a0 p) (a1 p) v (a3 p)
  | _ => Arr4 (a0 p) (a1 p) (a2 p) v
  end.

(** The locals [p] and [pat] of [dispatchDecoder] start uninitialised; no
    element is read before it has been assigned. *)
Definition arr4_uninit : arr4 := Arr4 0 0 0 0.

(** ** [relClose], [relFar] *)

Definition relClose (i : Z) : Z * Z :=
  let ma := Z.shiftr i 4 in
  let mi := Z.land i 15 in
  (mi - 8, ma - 8).

Definition relFar (i sign : Z) : Z * Z :=
  if i <? 56 then
    (sign * (8 + Z.rem i 7), sign * Z.quot i 7)
  else
    (sign * (-14 + Z.rem (i - 56) 29), sign * (8 + Z.quot (i - 56) 29)).

(** ** Block copy *)

(** [std::copy_n(pSrc, n, pDest)] inside the frame memory: bytes are copied
    one at a time in ascending order. *)
Fixpoint copy_n (n : nat) (pSrc pDest : Z) (m : mem) : mem :=
  match n with
  | O => m
  | Datatypes.S k => copy_n k (pSrc + 1) (pDest + 1) (upd m pDest (m pSrc))
  end.

(** [std::fill_n(pDest, n, v)] *)
Fixpoint fill_n (n : nat) (pDest v : Z) (m : mem) : mem :=
  match n with
  | O => m
  | Datatypes.S k => fill_n k (pDest + 1) v (upd m pDest v)
  end.

Definition copyFrame (width pDest pSrc : Z) (m : mem) : mem :=
  snd (range_for 8
         (fun _ '(pDest, pSrc, m) =>
            (pDest + width, pSrc + width, copy_n 8 pSrc pDest m))
         (pDest, pSrc, m)).

(** ** Pattern fillers *)

Definition patternRow4Pixels (pFrame pat0 pat1 : Z) (p : arr4) (m : mem) : mem :=
  let pattern := u16 (Z.lor (Z.shiftl pat1 8) pat0) in
  snd (while 16
         (fun '(mask, shift, pFrame, m) => negb (mask =? 0))
         (fun '(mask, shift, pFrame, m) =>
            (u16 (Z.shiftl mask 2), u16 (shift + 2), pFrame + 1,
             upd m pFrame (at4 p (Z.shiftr (Z.land mask pattern) shift))))
         (3, 0, pFrame, m)).

Definition patternRow4Pixels2 (width pFrame pat0 : Z) (p : arr4) (m : mem) : mem :=
  snd (while 8
         (fun '(mask, shift, pFrame, m) => negb (mask =? 0))
         (fun '(mask, shift, pFrame, m) =>
            let pel := at4 p (Z.shiftr (Z.land mask pat0) shift) in
            let m := upd m (pFrame + 0) pel in
            let m := upd m (pFrame + 1) pel in
            let m := upd m (pFrame + (width + 0)) pel in
            let m := upd m (pFrame + (width + 1)) pel in
            (u8 (Z.shiftl mask 2), u8 (shift + 2), pFrame + 2, m))
         (3, 0, pFrame, m)).

Definition patternRow4Pixels2x1 (pFrame pat : Z) (p : arr4) (m : mem) : mem :=
  snd (while 8
         (fun '(mask, shift, pFrame, m) => negb (mask =? 0))
         (fun '(mask, shift, pFrame, m) =>
            let pel := at4 p (Z.shiftr (Z.land mask pat) shift) in
            let m := upd m (pFrame + 0) pel in
            let m := upd m (pFrame + 1) pel in
            (u8 (Z.shiftl mask 2), u8 (shift + 2), pFrame + 2, m))
         (3, 0, pFrame, m)).

Definition patternQuadrant4Pixels (width pFrame pat0 pat1 pat2 pat3 : Z)
    (p : arr4) (m : mem) : mem :=
  let pat :=
    u64 (i32 (Z.lor (Z.lor (Z.lor (Z.shiftl pat3 24) (Z.shiftl pat2 16))
                       (Z.shiftl pat1 8)) pat0)) in
  snd (range_for 16
         (fun i '(mask, shift, pFrame, m) =>
            let m := upd m (pFrame + Z.land i 3)
                       (at4 p (Z.shiftr (Z.land pat mask) shift)) in
            let pFrame := if Z.land i 3 =? 3 then pFrame + width else pFrame in
            (u64 (Z.shiftl mask 2), shift + 2, pFrame, m))
         (3, 0, pFrame, m)).

Definition patternRow2Pixels (pFrame pat : Z) (p : arr4) (m : mem) : mem :=
  snd (while 16
         (fun '(mask, pFrame, m) => negb (mask =? 0))
         (fun '(mask, pFrame, m) =>
            (u8 (Z.shiftl mask 1), pFrame + 1,
             upd m pFrame (at4 p (if nonzero (Z.land mask pat) then 1 else 0))))
         (1, pFrame, m)).

Definition patternRow2Pixels2 (width pFrame pat : Z) (p : arr4) (m : mem) : mem :=
  snd (while 8
         (fun '(mask, pFrame, m) => negb (mask =? 16))
         (fun '(mask, pFrame, m) =>
            let pel := at4 p (if nonzero (Z.land mask pat) then 1 else 0) in
            let m := upd m (pFrame + 0) pel in
            let m := upd m (pFrame + 1) pel in
            let m := upd m (pFrame + (width + 0)) pel in
            let m := upd m (pFrame + (width + 1)) pel in
            (u8 (Z.shiftl mask 1), pFrame + 2, m))
         (1, pFrame, m)).

Definition patternQuadrant2Pixels (width pFrame pat0 pat1 : Z) (p : arr4) (m : mem) : mem :=
  let pat := u16 (Z.lor (Z.shiftl pat1 8) pat0) in
  snd (range_for 4
         (fun i s =>
            range_for 4
              (fun j '(mask, m) =>
                 (u16 (Z.shiftl mask 1),
                  upd m (pFrame + (j + i * width))
                    (at4 p (if nonzero (Z.land pat mask) then 1 else 0))))
              s)
         (1, m)).

(** ** The state [dispatchDecoder] updates through its pointer arguments *)

Record dstate := mkD {
  dmem : mem;          (* the frame memory *)
  pFrame : Z;          (* [*pFrame], the write cursor *)
  pData : Z;           (* [*pData], the payload cursor *)
  pDataRemain : Z;     (* [*pDataRemain] *)
  curXb : Z;           (* [*curXb] *)
  curYb : Z            (* [*curYb] *)
}.

Definition set_curXb (st : dstate) (v : Z) : dstate :=
  let 'mkD m pF pD rem _ yb := st in mkD m pF pD rem v yb.
Definition set_curYb (st : dstate) (v : Z) : dstate :=
  let 'mkD m pF pD rem xb _ := st in mkD m pF pD rem xb v.

(** [*pFrame += n] *)
Definition adv_pFrame (n : Z) (st : dstate) : dstate :=
  let 'mkD m pF pD rem xb yb := st in mkD m (pF + n) pD rem xb yb.
(** [*pData += n] *)
Definition adv_pData (n : Z) (st : dstate) : dstate :=
  let 'mkD m pF pD rem xb yb := st in mkD m pF (pD + n) rem xb yb.
(** [*pDataRemain -= n] *)
Definition dec_remain (n : Z) (st : dstate) : dstate :=
  let 'mkD m pF pD rem xb yb := st in mkD m pF pD (rem - n) xb yb.
(** [pFrame[0][off] = v], the store through the cursor *)
Definition poke (off v : Z) (st : dstate) : dstate :=
  let 'mkD m pF pD rem xb yb := st in mkD (upd m (pF + off) v) pF pD rem xb yb.
(** a filler called on [*pFrame] *)
Definition paint (f : Z -> mem -> mem) (st : dstate) : dstate :=
  let 'mkD m pF pD rem xb yb := st in mkD (f pF m) pF pD rem xb yb.

Section Decoder.

(** the payload *)
Variable data : Z -> Z.

(** [pData[0][k]], a payload byte read without moving the cursor *)
Definition peek (st : dstate) (k : Z) : Z :=
  let 'mkD _ _ pD _ _ _ := st in data (pD + k).

(** [*pData[0]++], a payload byte read and the cursor moved past it *)
Definition fetch (st : dstate) : Z * dstate :=
  let 'mkD m pF pD rem xb yb := st in (data pD, mkD m pF (pD + 1) rem xb yb).

(** two payload bytes fetched into [p[0]] and [p[1]] *)
Definition fetch2 (p : arr4) (st : dstate) : arr4 * dstate :=
  let '(v0, st) := fetch st in
  let p := set4 p 0 v0 in
  let '(v1, st) := fetch st in
  let p := set4 p 1 v1 in
  (p, st).

(** the same for [p[0]] to [p[3]] *)
Definition fetch4 (p : arr4) (st : dstate) : arr4 * dstate :=
  let '(p, st) := fetch2 p st in
  let '(v2, st) := fetch st in
  let p := set4 p 2 v2 in
  let '(v3, st) := fetch st in
  let p := set4 p 3 v3 in
  (p, st).

(** [std::copy_n] from the payload into the frame. *)
Fixpoint copy_data_n (n : nat) (pSrc pDest : Z) (m : mem) : mem :=
  match n with
  | O => m
  | Datatypes.S k => copy_data_n k (pSrc + 1) (pDest + 1) (upd m pDest (data pSrc))
  end.

Variables vBackBuf1 vBackBuf2 : Z.
Variables width height : Z.

(** *** The sixteen encodings *)

Definition op1 (st : dstate) : dstate := adv_pFrame 8 st.

Definition op0 (st : dstate) : dstate :=
  let st := paint (fun pF => copyFrame width pF (pF + (vBackBuf2 - vBackBuf1))) st in
  op1 st.

Definition op2 (st : dstate) : dstate :=
  let '(b, st) := fetch st in
  let '(x, y) := relFar b 1 in
  let st := paint (fun pF => copyFrame width pF (pF + x + y * width)) st in
  let st := adv_pFrame 8 st in
  dec_remain 1 st.

Definition op3 (st : dstate) : dstate :=
  let '(b, st) := fetch st in
  let '(x, y) := relFar b (-1) in
  let st := paint (fun pF => copyFrame width pF (pF + x + y * width)) st in
  let st := adv_pFrame 8 st in
  dec_remain 1 st.

Definition op4 (st : dstate) : dstate :=
  let '(b, st) := fetch st in
  let '(x, y) := relClose b in
  let st := paint (fun pF =>
              copyFrame width pF (pF + (vBackBuf2 - vBackBuf1) + x + y * width)) st in
  let st := adv_pFrame 8 st in
  dec_remain 1 st.

Definition op5 (st : dstate) : dstate :=
  let '(b, st) := fetch st in
  let x := i8 b in
  let '(b, st) := fetch st in
  let y := i8 b in
  let st := paint (fun pF =>
              copyFrame width pF (pF + (vBackBuf2 - vBackBuf1) + x + y * width)) st in
  let st := adv_pFrame 8 st in
  dec_remain 2 st.

(** One pass of the loop of encoding 0x6; the flag tells that the pass
    left [dispatchDecoder] by its [return]. *)
Definition op6_pass (st : dstate) : bool * dstate :=
  let st := adv_pFrame 16 st in
  let st := set_curXb st (curXb st + 1) in
  if curXb st =? Z.shiftr width 3 then
    let st := adv_pFrame (7 * width) st in
    let st := set_curXb st 0 in
    let st := set_curYb st (curYb st + 1) in
    if curYb st =? Z.shiftr height 3 then (true, st) else (false, st)
  else (false, st).

Definition op6 (st : dstate) : dstate :=
  let '(returned, st) := op6_pass st in
  if returned then st else snd (op6_pass st).

Definition op7 (st : dstate) : dstate :=
  let '(p, st) := fetch2 arr4_uninit st in
  let st :=
    if at4 p 0 <=? at4 p 1 then
      range_for 8
        (fun _ st =>
           let '(b, st) := fetch st in
           let st := paint (fun pF => patternRow2Pixels pF b p) st in
           adv_pFrame width st)
        st
    else
      let width2 := 2 * width in
      range_for 2
        (fun _ st =>
           let st := paint (fun pF =>
                        patternRow2Pixels2 width pF (u8 (Z.land (peek st 0) 15)) p) st in
           let st := adv_pFrame width2 st in
           let st := paint (fun pF =>
                        patternRow2Pixels2 width pF (u8 (Z.shiftr (peek st 0) 4)) p) st in
           let st := adv_pData 1 st in
           adv_pFrame width2 st)
        st in
  adv_pFrame (- (8 * width - 8)) st.

Definition op8 (st : dstate) : dstate :=
  if peek st 0 <=? peek st 1 then
    (* four quadrant case *)
    snd (range_for 4
           (fun i '(p, st) =>
              let '(p, st) := fetch2 p st in
              let '(pat0, st) := fetch st in
              let '(pat1, st) := fetch st in
              let st := paint (fun pF => patternQuadrant2Pixels width pF pat0 pat1 p) st in
              let st := if nonzero (Z.land i 1) then adv_pFrame (4 - 4 * width) st
                        else adv_pFrame (4 * width) st in
              (p, st))
           (arr4_uninit, st))
  else if peek st 6 <=? peek st 7 then
    (* split horizontal *)
    snd (range_for 4
           (fun i '(p, st) =>
              let '(p, st) := if Z.land i 1 =? 0 then fetch2 p st else (p, st) in
              let '(pat0, st) := fetch st in
              let '(pat1, st) := fetch st in
              let st := paint (fun pF => patternQuadrant2Pixels width pF pat0 pat1 p) st in
              let st := if nonzero (Z.land i 1) then adv_pFrame (- (4 * width - 4)) st
                        else adv_pFrame (4 * width) st in
              (p, st))
           (arr4_uninit, st))
  else
    (* split vertical *)
    let '(p, st) :=
      range_for 8
        (fun i '(p, st) =>
           let '(p, st) := if Z.land i 3 =? 0 then fetch2 p st else (p, st) in
           let '(b, st) := fetch st in
           let st := paint (fun pF => patternRow2Pixels pF b p) st in
           (p, adv_pFrame width st))
        (arr4_uninit, st) in
    adv_pFrame (- (8 * width - 8)) st.

Definition op9 (st : dstate) : dstate :=
  if peek st 0 <=? peek st 1 then
    if peek st 2 <=? peek st 3 then
      let '(p, st) := fetch4 arr4_uninit st in
      let st :=
        range_for 8
          (fun _ st =>
             let '(pat0, st) := fetch st in
             let '(pat1, st) := fetch st in
             let st := paint (fun pF => patternRow4Pixels pF pat0 pat1 p) st in
             adv_pFrame width st)
          st in
      adv_pFrame (- (8 * width - 8)) st
    else
      let '(p, st) := fetch4 arr4_uninit st in
      let '(b, st) := fetch st in
      let st := paint (fun pF => patternRow4Pixels2 width pF b p) st in
      let st := adv_pFrame (2 * width) st in
      let '(b, st) := fetch st in
      let st := paint (fun pF => patternRow4Pixels2 width pF b p) st in
      let st := adv_pFrame (2 * width) st in
      let '(b, st) := fetch st in
      let st := paint (fun pF => patternRow4Pixels2 width pF b p) st in
      let st := adv_pFrame (2 * width) st in
      let '(b, st) := fetch st in
      let st := paint (fun pF => patternRow4Pixels2 width pF b p) st in
      adv_pFrame (- (6 * width - 8)) st
  else
    let st :=
      if peek st 2 <=? peek st 3 then
        (* draw 2x1 strips *)
        let '(p, st) := fetch4 arr4_uninit st in
        range_for 8
          (fun _ st =>
             let '(pat0, st) := fetch st in
             let st := paint (fun pF => patternRow4Pixels2x1 pF pat0 p) st in
             adv_pFrame width st)
          st
      else
        (* draw 1x2 strips *)
        let '(p, st) := fetch4 arr4_uninit st in
        range_for 4
          (fun _ st =>
             let '(pat0, st) := fetch st in
             let '(pat1, st) := fetch st in
             let st := paint (fun pF => patternRow4Pixels pF pat0 pat1 p) st in
             let st := adv_pFrame width st in
             let st := paint (fun pF => patternRow4Pixels pF pat0 pat1 p) st in
             adv_pFrame width st)
          st in
    adv_pFrame (- (8 * width - 8)) st.

Definition opa (st : dstate) : dstate :=
  if peek st 0 <=? peek st 1 then
    snd (range_for 4
           (fun i '(p, st) =>
              let '(p, st) := fetch4 p st in
              let '(pat0, st) := fetch st in
              let '(pat1, st) := fetch st in
              let '(pat2, st) := fetch st in
              let '(pat3, st) := fetch st in
              let st := paint (fun pF =>
                          patternQuadrant4Pixels width pF pat0 pat1 pat2 pat3 p) st in
              let st := if nonzero (Z.land i 1) then adv_pFrame (- (4 * width - 4)) st
                        else adv_pFrame (4 * width) st in
              (p, st))
           (arr4_uninit, st))
  else if peek st 12 <=? peek st 13 then
    (* split vertical *)
    snd (range_for 4
           (fun i '(p, st) =>
              let '(p, st) := if Z.land i 1 =? 0 then fetch4 p st else (p, st) in
              let '(pat0, st) := fetch st in
              let '(pat1, st) := fetch st in
              let '(pat2, st) := fetch st in
              let '(pat3, st) := fetch st in
              let st := paint (fun pF =>
                          patternQuadrant4Pixels width pF pat0 pat1 pat2 pat3 p) st in
              let st := if nonzero (Z.land i 1) then adv_pFrame (- (4 * width - 4)) st
                        else adv_pFrame (4 * width) st in
              (p, st))
           (arr4_uninit, st))
  else
    (* split horizontal *)
    let '(p, st) :=
      range_for 8
        (fun i '(p, st) =>
           let '(p, st) := if Z.land i 3 =? 0 then fetch4 p st else (p, st) in
           let '(pat0, st) := fetch st in
           let '(pat1, st) := fetch st in
           let st := paint (fun pF => patternRow4Pixels pF pat0 pat1 p) st in
           (p, adv_pFrame width st))
        (arr4_uninit, st) in
    adv_pFrame (- (8 * width - 8)) st.

Definition opb (st : dstate) : dstate :=
  let st :=
    range_for 8
      (fun _ st =>
         let st := paint (fun pF => copy_data_n 8 (pData st) pF) st in
         let st := adv_pFrame width st in
         let st := adv_pData 8 st in
         dec_remain 8 st)
      st in
  adv_pFrame (- (8 * width - 8)) st.

Definition opc (st : dstate) : dstate :=
  let st :=
    range_for 4
      (fun _ st =>
         let st :=
           range_for 2
             (fun _ st =>
                let st :=
                  range_for 4
                    (fun k st =>
                       let st := poke (2 * k) (peek st k) st in
                       poke (2 * k + 1) (peek st k) st)
                    st in
                adv_pFrame width st)
             st in
         let st := adv_pData 4 st in
         dec_remain 4 st)
      st in
  adv_pFrame (- (8 * width - 8)) st.

Definition opd (st : dstate) : dstate :=
  let st :=
    range_for 2
      (fun _ st =>
         let st :=
           range_for 4
             (fun j st =>
                range_for 4
                  (fun k st =>
                     let st := poke (k * width + j) (peek st 0) st in
                     poke (k * width + j + 4) (peek st 1) st)
                  st)
             st in
         let st := adv_pFrame (4 * width) st in
         let st := adv_pData 2 st in
         dec_remain 2 st)
      st in
  adv_pFrame (- (8 * width - 8)) st.

Definition ope (st : dstate) : dstate :=
  let pel := peek st 0 in
  let st :=
    range_for 8
      (fun _ st =>
         let st := paint (fun pF => fill_n 8 pF pel) st in
         adv_pFrame width st)
      st in
  let st := adv_pData 1 st in
  let st := dec_remain 1 st in
  adv_pFrame (- (8 * width - 8)) st.

Definition opf (st : dstate) : dstate :=
  let st :=
    range_for 8
      (fun i st =>
         let st := range_for 8 (fun j st => poke j (peek st (Z.land (i + j) 1)) st) st in
         adv_pFrame width st)
      st in
  let st := adv_pData 2 st in
  let st := dec_remain 2 st in
  adv_pFrame (- (8 * width - 8)) st.

(** *** [dispatchDecoder] *)

Definition dispatchDecoder (codeType : Z) (st : dstate) : dstate :=
  match codeType with
  | 0 => op0 st
  | 1 => op1 st
  | 2 => op2 st
  | 3 => op3 st
  | 4 => op4 st
  | 5 => op5 st
  | 6 => op6 st
  | 7 => op7 st
  | 8 => op8 st
  | 9 => op9 st
  | 10 => opa st
  | 11 => opb st
  | 12 => opc st
  | 13 => opd st
  | 14 => ope st
  | 15 => opf st
  | _ => st
  end.

End Decoder.

(** ** [decodeFrame8] *)

(** The two critical console messages. *)
Inductive bound_side := BelowBuf | AboveBuf.

Record diag := mkDiag {
  dg_side : bound_side;
  dg_i : Z;            (* the printed [i] *)
  dg_j : Z;            (* the printed [j] *)
  dg_which : Z;        (* (1) after the low nibble, (2) after the high one *)
  dg_code : Z          (* the printed opcode *)
}.

Inductive outcome :=
| Done (st : dstate) (pMap : list Z) (log : list diag)
| MapExhausted
| OutOfFuel.

Section Walker.

Variable data : Z -> Z.
Variables vBackBuf1 vBackBuf2 : Z.
Variables width height : Z.

(** The test that follows each call of [dispatchDecoder]. [i] and [j]
    are the loop counters, which the dispatcher holds as [curXb] and
    [curYb]. *)
Definition report (which code : Z) (st : dstate) (log : list diag) : list diag :=
  if pFrame st <? vBackBuf1 then
    log ++ [mkDiag BelowBuf (curXb st) (curYb st) which code]
  else if pFrame st >=? vBackBuf1 + width * height then
    log ++ [mkDiag AboveBuf (curXb st) (curYb st) which code]
  else log.

(** The body of the inner loop for the map byte [m]. *)
Definition block_pair (m : Z) (st : dstate) (log : list diag) : dstate * list diag :=
  let st := dispatchDecoder data vBackBuf1 vBackBuf2 width height (u8 (Z.land m 15)) st in
  let log := report 1 (Z.land m 15) st log in
  let st := dispatchDecoder data vBackBuf1 vBackBuf2 width height (u8 (Z.shiftr m 4)) st in
  let log := report 2 (Z.shiftr m 4) st log in
  (st, log).

(** [for (...; i<xb/2; i++)], entered with [i] already set. Each pass
    takes one byte off the map. *)
Fixpoint inner_loop (pMap : list Z) (st : dstate) (log : list diag)
  : option (dstate * list Z * list diag) :=
  if curXb st <? Z.quot (Z.shiftr width 3) 2 then
    match pMap with
    | [] => None
    | m :: rest =>
        let '(st, log) := block_pair m st log in
        inner_loop rest (set_curXb st (curXb st + 1)) log
    end
  else Some (st, pMap, log).

(** [for (...; j<yb; j++)], entered with [j] already set. *)
Fixpoint outer_loop (fuel : nat) (pMap : list Z) (st : dstate) (log : list diag)
  : outcome :=
  if curYb st <? Z.shiftr height 3 then
    match fuel with
    | O => OutOfFuel
    | Datatypes.S fuel =>
        match inner_loop pMap (set_curXb st 0) log with
        | None => MapExhausted
        | Some (st, pMap, log) =>
            let st := adv_pFrame (7 * width) st in
            outer_loop fuel pMap (set_curYb st (curYb st + 1)) log
        end
    end
  else Done st pMap log.

End Walker.

(** [vBackBuf1] is the cursor [pFrame] at entry. Every pass of the outer
    loop raises [j] by one at least, so that [height >> 3] passes are
    enough ([decodeFrame8_fuel]). *)
Definition decodeFrame8 (vBackBuf2 width height pFrame : Z) (pMap : list Z)
    (data : Z -> Z) (pData dataRemain : Z) (m : mem) : outcome :=
  let vBackBuf1 := pFrame in
  outer_loop data vBackBuf1 vBackBuf2 width height
    (Z.to_nat (Z.shiftr height 3)) pMap
    (mkD m pFrame pData dataRemain 0 0) [].

(** ** Test data *)

(** A byte store holding [l] from address [base] on, [dflt] elsewhere. *)
Definition store_of (base : Z) (l : list Z) (dflt : Z) : Z -> Z :=
  fun a => if a <? base then dflt else nth (Z.to_nat (a - base)) l dflt.

(** The [n] bytes of the memory [m] from address [base] on. *)
Definition bytes_at (m : mem) (base : Z) (n : nat) : list Z :=
  map (fun k => m (base + Z.of_nat k)) (seq 0 n).

(** * Proof tools *)

(** ** Footprints *)

(** [nr] rows of [nc] bytes, [w] bytes apart, the first one at [p]. *)
Fixpoint in_rows (w p : Z) (nr : nat) (nc a : Z) : Prop :=
  match nr with
  | O => False
  | Datatypes.S k => p <= a < p + nc \/ in_rows w (p + w) k nc a
  end.

(** The 8x8 block whose top-left byte is at [p]. *)
Definition in_block (w p a : Z) : Prop :=
  exists r c, 0 <= r < 8 /\ 0 <= c < 8 /\ a = p + r * w + c.

(** [m'] differs from [m] at most on [P]. *)
Definition same_outside (P : Z -> Prop) (m m' : mem) : Prop :=
  forall a, ~ P a -> m' a = m a.

(** ** Payload bytes per encoding *)

(** The number of payload bytes encoding [c] reads when the payload cursor
    is at [pD]; the pattern encodings 0x7 to 0xa choose their layout from
    the first colour bytes. *)
Definition consumed (data : Z -> Z) (pD c : Z) : Z :=
  match c with
  | 2 | 3 | 4 | 14 => 1
  | 5 | 15 => 2
  | 7 => if data pD <=? data (pD + 1) then 10 else 4
  | 8 => if data pD <=? data (pD + 1) then 16 else 12
  | 9 => if data pD <=? data (pD + 1)
         then if data (pD + 2) <=? data (pD + 3) then 20 else 8
         else 12
  | 10 => if data pD <=? data (pD + 1) then 32 else 24
  | 11 => 64
  | 12 => 16
  | 13 => 4
  | _ => 0
  end.

(** The encodings that keep the count of remaining payload bytes. *)
Definition keeps_count (c : Z) : bool := negb ((7 <=? c) && (c <=? 10)).

(** What an encoding takes off the count of remaining payload bytes. *)
Definition accounted (c n : Z) : Z := if keeps_count c then n else 0.

(** The column "payload consumed" of the table of encodings in the
    specification (section 4.2): [table_payload c n] when the table allows
    encoding [c] to consume [n] bytes. *)
Definition table_payload (c n : Z) : Prop :=
  match c with
  | 0 | 1 | 6 => n = 0
  | 2 | 3 | 4 | 14 => n = 1
  | 5 | 15 => n = 2
  | 7 => n = 2 + 8 \/ n = 2 + 2
  | 8 => 18 <= n <= 20
  | 9 => n = 20 \/ n = 12
  | 11 => n = 64
  | 12 => n = 16
  | 13 => n = 4
  | _ => True
  end.

(** ** The grid walk as the specification words it *)

(** A map byte whose two nibbles are encodings other than 0x6. *)
Definition no_skip_byte (m : Z) : Prop :=
  0 <= m < 256 /\ m mod 16 <> 6 /\ m / 16 <> 6.

Section SpecWalk.

Variable data : Z -> Z.
Variables vBackBuf1 vBackBuf2 : Z.
Variables width height : Z.

(** "After dispatch, verify the write cursor is still within buffer
    bounds; if not, emit a diagnostic and continue." *)
Definition spec_check (which code : Z) (st : dstate) (log : list diag) : list diag :=
  if (vBackBuf1 <=? pFrame st) && (pFrame st <? vBackBuf1 + width * height) then log
  else log ++ [mkDiag (if pFrame st <? vBackBuf1 then BelowBuf else AboveBuf)
                 (curXb st) (curYb st) which code].

(** "Extract the low nibble as the left block's opcode and dispatch it;
    extract the high nibble as the right block's opcode and dispatch it." *)
Definition spec_pair (m : Z) (st : dstate) (log : list diag) : dstate * list diag :=
  let lo := m mod 16 in
  let hi := m / 16 in
  let st := dispatchDecoder data vBackBuf1 vBackBuf2 width height lo st in
  let log := spec_check 1 lo st log in
  let st := dispatchDecoder data vBackBuf1 vBackBuf2 width height hi st in
  let log := spec_check 2 hi st log in
  (st, log).

(** "For each map byte in that row": [n] map bytes, two blocks each. *)
Fixpoint spec_row (n : nat) (pMap : list Z) (st : dstate) (log : list diag)
  : option (dstate * list Z * list diag) :=
  match n with
  | O => Some (st, pMap, log)
  | Datatypes.S k =>
      match pMap with
      | [] => None
      | m :: rest =>
          let '(st, log) := spec_pair m st log in
          spec_row k rest (set_curXb st (curXb st + 1)) log
      end
  end.

(** "For each block-row": [n] rows of [width/16] map bytes, and after
    each "advance the write cursor by 7 x width bytes". *)
Fixpoint spec_rows (n : nat) (pMap : list Z) (st : dstate) (log : list diag)
  : option (dstate * list Z * list diag) :=
  match n with
  | O => Some (st, pMap, log)
  | Datatypes.S k =>
      match spec_row (Z.to_nat (width / 16)) pMap (set_curXb st 0) log with
      | None => None
      | Some (st, pMap, log) =>
          let st := adv_pFrame (7 * width) st in
          spec_rows k pMap (set_curYb st (curYb st + 1)) log
      end
  end.

End SpecWalk.

(** [decode_frame(width, height, destination_buffer, historical_buffer,
    opcode_map, payload, payload_remaining)] walking [height/8] block-rows. *)
Definition decode_frame (width height dest hist : Z) (opcode_map : list Z)
    (payload : Z -> Z) (pData payload_remaining : Z) (m : mem)
  : option (dstate * list Z * list diag) :=
  spec_rows payload dest hist width height (Z.to_nat (height / 8)) opcode_map
    (mkD m dest pData payload_remaining 0 0) [].

(** The outcome of [decodeFrame8] that corresponds to a result of the walk
    of the specification. *)
Definition outcome_of (r : option (dstate * list Z * list diag)) : outcome :=
  match r with
  | Some (st, pMap, log) => Done st pMap log
  | None => MapExhausted
  end.

(** The bytes of the destination: [width * height] from [base] on. *)
Definition in_frame (base width height a : Z) : Prop :=
  base <= a < base + width * height.

(** ** Statements about states and footprints *)

(** [st'] is [st] with the write cursor one block further, [dD] payload
    bytes consumed and [dR] taken off the remaining count. *)
Definition block_step (st st' : dstate) (dD dR : Z) : Prop :=
  pFrame st' = pFrame st + 8 /\
  pData st' = pData st + dD /\
  pDataRemain st' = pDataRemain st - dR /\
  curXb st' = curXb st /\
  curYb st' = curYb st.


(** From one block-row to the next: seven rows and the blocks of a row. *)
Definition stride (width : Z) : Z := 7 * width + 16 * Z.of_nat (Z.to_nat (width / 16)).

(** The blocks of [n] block-rows that start at [p]. *)
Definition in_bands (width p : Z) (n : nat) (a : Z) : Prop :=
  exists k, 0 <= k < Z.of_nat n /\
            in_rows width (p + k * stride width) 8 (16 * Z.of_nat (Z.to_nat (width / 16))) a.

(** ** Pattern words and offsets as the specification words them *)

(** Two pattern bytes as one 16-bit word, the first byte the low one. *)
Definition word16 (lo hi : Z) : Z := u16 (Z.lor (Z.shiftl hi 8) lo).

(** The [k]-th 2-bit field of [x], counted from the least significant end. *)
Definition pick2 (x k : Z) : Z := Z.land (Z.shiftr x (2 * k)) 3.

(** The "far" mapping of an offset byte, positive direction. *)
Definition far_offset (B : Z) : Z * Z :=
  if B <? 56 then (8 + B mod 7, B / 7)
  else (-14 + (B - 56) mod 29, 8 + (B - 56) / 29).

(** ** Diagnostics *)

(** The diagnostic for a cursor outside the destination, none inside. *)
Definition diag_if_out (base width height which code : Z) (st : dstate) : list diag :=
  if (base <=? pFrame st) && (pFrame st <? base + width * height) then []
  else [mkDiag (if pFrame st <? base then BelowBuf else AboveBuf)
          (curXb st) (curYb st) which code].

(** An outcome with the diagnostics [l] reported before its own. *)
Definition prepend_log (l : list diag) (o : outcome) : outcome :=
  match o with
  | Done st pMap log => Done st pMap (l ++ log)
  | MapExhausted => MapExhausted
  | OutOfFuel => OutOfFuel
  end.

(** ** The count of remaining payload bytes *)

(** [st] with the count of remaining payload bytes set to [v]. *)
Definition set_remain (st : dstate) (v : Z) : dstate :=
  let 'mkD m pF pD _ xb yb := st in mkD m pF pD v xb yb.

(** An outcome without its count of remaining payload bytes. *)
Definition forget_remain (o : outcome) : outcome :=
  match o with
  | Done st pMap log => Done (set_remain st 0) pMap log
  | MapExhausted => MapExhausted
  | OutOfFuel => OutOfFuel
  end.

(** A map byte whose two nibbles are encodings that keep the count. *)
Definition counted_byte (b : Z) : Prop :=
  0 <= b < 256 /\ keeps_count (b mod 16) = true /\ keeps_count (b / 16) = true.

(** The result of a loop of the walk without that count. *)
Definition forget_rows (r : option (dstate * list Z * list diag))
  : option (dstate * list Z * list diag) :=
  match r with
  | Some (st, pMap, log) => Some (set_remain st 0, pMap, log)
  | None => None
  end.

(** ** The walk without its bounds test *)

(** A block that has been dispatched: (1) or (2) for the low or the high
    nibble of its map byte, its encoding, and the state right after the
    call of [dispatchDecoder]. *)
Record dispatched := mkDispatched {
  dp_which : Z;
  dp_code : Z;
  dp_after : dstate
}.

Inductive unchecked_outcome :=
| UDone (st : dstate) (pMap : list Z) (blocks : list dispatched)
| UMapExhausted
| UOutOfFuel.

Section Unchecked.

Variable data : Z -> Z.
Variables vBackBuf1 vBackBuf2 : Z.
Variables width height : Z.

(** The two loops of [decodeFrame8] with the tests of the write cursor
    that follow the calls of [dispatchDecoder] taken out: nothing looks at
    where the cursor is, and every block dispatched is recorded in
    order. *)
Definition unchecked_pair (m : Z) (st : dstate) : dstate * list dispatched :=
  let st1 := dispatchDecoder data vBackBuf1 vBackBuf2 width height (u8 (Z.land m 15)) st in
  let st2 := dispatchDecoder data vBackBuf1 vBackBuf2 width height (u8 (Z.shiftr m 4)) st1 in
  (st2, [mkDispatched 1 (Z.land m 15) st1; mkDispatched 2 (Z.shiftr m 4) st2]).

Fixpoint unchecked_inner (pMap : list Z) (st : dstate) (blocks : list dispatched)
  : option (dstate * list Z * list dispatched) :=
  if curXb st <? Z.quot (Z.shiftr width 3) 2 then
    match pMap with
    | [] => None
    | m :: rest =>
        let '(st, two) := unchecked_pair m st in
        unchecked_inner rest (set_curXb st (curXb st + 1)) (blocks ++ two)
    end
  else Some (st, pMap, blocks).

Fixpoint unchecked_outer (fuel : nat) (pMap : list Z) (st : dstate)
    (blocks : list dispatched) : unchecked_outcome :=
  if curYb st <? Z.shiftr height 3 then
    match fuel with
    | O => UOutOfFuel
    | Datatypes.S fuel =>
        match unchecked_inner pMap (set_curXb st 0) blocks with
        | None => UMapExhausted
        | Some (st, pMap, blocks) =>
            let st := adv_pFrame (7 * width) st in
            unchecked_outer fuel pMap (set_curYb st (curYb st + 1)) blocks
        end
    end
  else UDone st pMap blocks.

End Unchecked.

Definition decode_unchecked (vBackBuf2 width height pFrame : Z) (pMap : list Z)
    (data : Z -> Z) (pData dataRemain : Z) (m : mem) : unchecked_outcome :=
  unchecked_outer data pFrame vBackBuf2 width height
    (Z.to_nat (Z.shiftr height 3)) pMap
    (mkD m pFrame pData dataRemain 0 0) [].

(** The messages for the blocks dispatched: for each block in order, one
    message when the cursor it left is outside the destination. *)
Definition diags_of (base width height : Z) (blocks : list dispatched) : list diag :=
  flat_map (fun d => diag_if_out base width height (dp_which d) (dp_code d) (dp_after d))
    blocks.

Definition with_diags (base width height : Z) (o : unchecked_outcome) : outcome :=
  match o with
  | UDone st pMap blocks => Done st pMap (diags_of base width height blocks)
  | UMapExhausted => MapExhausted
  | UOutOfFuel => OutOfFuel
  end.

(** * Basic facts *)

Lemma upd_same m a v : upd m a v a = v.
Proof. unfold upd. now rewrite Z.eqb_refl. Qed.

Lemma upd_other m a v x : x <> a -> upd m a v x = m x.
Proof. unfold upd. intros H. now apply Z.eqb_neq in H as ->. Qed.

Lemma same_outside_refl P m : same_outside P m m.
Proof. now intros a _. Qed.

Lemma same_outside_trans P m1 m2 m3 :
  same_outside P m1 m2 -> same_outside P m2 m3 -> same_outside P m1 m3.
Proof. intros H12 H23 a Ha. now rewrite H23, H12. Qed.

Lemma same_outside_weaken (P Q : Z -> Prop) m m' :
  same_outside P m m' -> (forall a, P a -> Q a) -> same_outside Q m m'.
Proof. intros H HPQ a Ha. apply H. auto. Qed.

Lemma same_outside_upd (P : Z -> Prop) m a v :
  P a -> same_outside P m (upd m a v).
Proof. intros Ha x Hx. apply upd_other. congruence. Qed.

Lemma in_rows_spec w p nr nc a :
  in_rows w p nr nc a <->
  exists r, 0 <= r < Z.of_nat nr /\ p + r * w <= a < p + r * w + nc.
Proof.
  revert p. induction nr as [|k IH]; intros p; cbn [in_rows].
  - split; [tauto | intros (r & Hr & _); lia].
  - rewrite IH. split.
    + intros [H | (r & Hr & H)].
      * exists 0. lia.
      * exists (r + 1). split; [lia|].
        replace (p + (r + 1) * w) with (p + w + r * w) by ring. exact H.
    + intros (r & Hr & H).
      destruct (Z.eq_dec r 0) as [-> | Hne].
      * left. lia.
      * right. exists (r - 1). split; [lia|].
        replace (p + w + (r - 1) * w) with (p + r * w) by ring. exact H.
Qed.

Lemma in_block_rows w p a : in_block w p a <-> in_rows w p 8 8 a.
Proof.
  rewrite in_rows_spec. unfold in_block. split.
  - intros (r & c & Hr & Hc & ->). exists r. split; lia.
  - intros (r & Hr & H). exists r, (a - (p + r * w)). lia.
Qed.

(** A [size_t] offset added to a pointer moves it as the signed offset
    does: on a 64-bit address space the wrap-around of the offset
    cancels. *)
Lemma pointer_offset_wraps p k : u64 (p + u64 k) = u64 (p + k).
Proof. unfold u64. apply Zplus_mod_idemp_r. Qed.

(** ** Loops *)

Lemma while_done {S : Type} fuel (cond : S -> bool) body s :
  cond s = false -> while fuel cond body s = s.
Proof. destruct fuel; cbn; [reflexivity | now intros ->]. Qed.

Lemma while_add {S : Type} f1 f2 (cond : S -> bool) body s :
  while (f1 + f2) cond body s = while f2 cond body (while f1 cond body s).
Proof.
  revert s. induction f1 as [|f1 IH]; intros s; cbn; [reflexivity|].
  destruct (cond s) eqn:E; [apply IH | now rewrite while_done].
Qed.

(** ** Copies and fills *)

Lemma copy_n_frame n src dst m :
  same_outside (fun a => dst <= a < dst + Z.of_nat n) m (copy_n n src dst m).
Proof.
  revert src dst m. induction n as [|k IH]; intros src dst m; cbn [copy_n].
  - apply same_outside_refl.
  - intros a Ha. rewrite IH by lia. apply upd_other. lia.
Qed.

Lemma fill_n_frame n dst v m :
  same_outside (fun a => dst <= a < dst + Z.of_nat n) m (fill_n n dst v m).
Proof.
  revert dst m. induction n as [|k IH]; intros dst m; cbn [fill_n].
  - apply same_outside_refl.
  - intros a Ha. rewrite IH by lia. apply upd_other. lia.
Qed.

Lemma copy_data_n_frame data n src dst m :
  same_outside (fun a => dst <= a < dst + Z.of_nat n) m (copy_data_n data n src dst m).
Proof.
  revert src dst m. induction n as [|k IH]; intros src dst m; cbn [copy_data_n].
  - apply same_outside_refl.
  - intros a Ha. rewrite IH by lia. apply upd_other. lia.
Qed.

(** A forward copy reads the bytes the source held before the copy when
    the source does not start inside the part of the destination that is
    written first. *)
Lemma copy_n_content n src dst m k :
  0 <= k < Z.of_nat n ->
  dst <= src \/ src + Z.of_nat n <= dst ->
  copy_n n src dst m (dst + k) = m (src + k).
Proof.
  revert src dst m k. induction n as [|n IH]; intros src dst m k Hk Hsep; [lia|].
  cbn [copy_n].
  destruct (Z.eq_dec k 0) as [-> | Hk0].
  - rewrite copy_n_frame by lia. rewrite !Z.add_0_r. apply upd_same.
  - replace (dst + k) with (dst + 1 + (k - 1)) by ring.
    rewrite IH by lia.
    replace (src + 1 + (k - 1)) with (src + k) by ring.
    apply upd_other. lia.
Qed.

(** * The pattern fillers *)

(** Evaluation of the model by [cbn]: arithmetic on closed terms (loop
    counters, masks) is carried out, arithmetic on symbolic operands is
    left as it is written. *)
#[local] Arguments Z.add _ _ : simpl nomatch.
#[local] Arguments Z.mul _ _ : simpl nomatch.
#[local] Arguments Z.sub _ _ : simpl nomatch.
#[local] Arguments Z.opp _ : simpl nomatch.
#[local] Arguments Z.land _ _ : simpl nomatch.
#[local] Arguments Z.lor _ _ : simpl nomatch.
#[local] Arguments Z.modulo _ _ : simpl nomatch.
#[local] Arguments Z.div _ _ : simpl nomatch.
#[local] Arguments Z.eqb _ _ : simpl nomatch.
#[local] Arguments Z.leb _ _ : simpl nomatch.
#[local] Arguments Z.ltb _ _ : simpl nomatch.
#[local] Arguments Z.shiftr _ _ : simpl never.
#[local] Arguments Z.testbit _ _ : simpl never.
#[local] Arguments Z.quot _ _ : simpl never.
#[local] Arguments Z.rem _ _ : simpl never.
#[local] Arguments u8 _ : simpl nomatch.
#[local] Arguments u16 _ : simpl nomatch.
#[local] Arguments u64 _ : simpl nomatch.
#[local] Arguments i8 _ : simpl never.
#[local] Arguments upd _ _ _ _ : simpl never.
#[local] Arguments at4 _ _ : simpl nomatch.
#[local] Arguments nonzero _ : simpl nomatch.

Ltac unroll := cbn.

(** The same, stopping at the fillers and copies. *)
Ltac exec :=
  cbn -[patternRow4Pixels patternRow4Pixels2 patternRow4Pixels2x1
        patternQuadrant4Pixels patternRow2Pixels patternRow2Pixels2
        patternQuadrant2Pixels copyFrame copy_n fill_n copy_data_n
        relFar relClose in_rows same_outside in_block].

(** The 16- and 32-bit pattern words of the fillers are kept folded. *)
Ltac hide_pattern :=
  match goal with
  | |- context [u16 ?x] => let pat := fresh "pat" in set (pat := u16 x); clearbody pat
  | |- context [u64 ?x] => let pat := fresh "pat" in set (pat := u64 x); clearbody pat
  end.

Ltac frame_by_upd :=
  let a := fresh "a" in
  let Ha := fresh "Ha" in
  intros a Ha; cbn [in_rows] in Ha; rewrite !upd_other by lia; reflexivity.

(** ** The loops leave by their own condition *)

Lemma patternRow4Pixels_exits k pF pat0 pat1 p m :
  let pattern := u16 (Z.lor (Z.shiftl pat1 8) pat0) in
  snd (while (16 + k)
         (fun '(mask, shift, pFrame, m) => negb (mask =? 0))
         (fun '(mask, shift, pFrame, m) =>
            (u16 (Z.shiftl mask 2), u16 (shift + 2), pFrame + 1,
             upd m pFrame (at4 p (Z.shiftr (Z.land mask pattern) shift))))
         (3, 0, pF, m))
  = patternRow4Pixels pF pat0 pat1 p m.
Proof.
  intros pattern. unfold patternRow4Pixels. fold pattern.
  rewrite while_add. f_equal. now apply while_done.
Qed.

Lemma patternRow2Pixels_exits k pF pat p m :
  snd (while (16 + k)
         (fun '(mask, pFrame, m) => negb (mask =? 0))
         (fun '(mask, pFrame, m) =>
            (u8 (Z.shiftl mask 1), pFrame + 1,
             upd m pFrame (at4 p (if nonzero (Z.land mask pat) then 1 else 0))))
         (1, pF, m))
  = patternRow2Pixels pF pat p m.
Proof.
  unfold patternRow2Pixels. rewrite while_add. f_equal. now apply while_done.
Qed.

Lemma patternRow2Pixels2_exits k width pF pat p m :
  snd (while (8 + k)
         (fun '(mask, pFrame, m) => negb (mask =? 16))
         (fun '(mask, pFrame, m) =>
            let pel := at4 p (if nonzero (Z.land mask pat) then 1 else 0) in
            let m := upd m (pFrame + 0) pel in
            let m := upd m (pFrame + 1) pel in
            let m := upd m (pFrame + (width + 0)) pel in
            let m := upd m (pFrame + (width + 1)) pel in
            (u8 (Z.shiftl mask 1), pFrame + 2, m))
         (1, pF, m))
  = patternRow2Pixels2 width pF pat p m.
Proof.
  unfold patternRow2Pixels2. rewrite while_add. f_equal. now apply while_done.
Qed.

Lemma patternRow4Pixels2_exits k width pF pat0 p m :
  snd (while (8 + k)
         (fun '(mask, shift, pFrame, m) => negb (mask =? 0))
         (fun '(mask, shift, pFrame, m) =>
            let pel := at4 p (Z.shiftr (Z.land mask pat0) shift) in
            let m := upd m (pFrame + 0) pel in
            let m := upd m (pFrame + 1) pel in
            let m := upd m (pFrame + (width + 0)) pel in
            let m := upd m (pFrame + (width + 1)) pel in
            (u8 (Z.shiftl mask 2), u8 (shift + 2), pFrame + 2, m))
         (3, 0, pF, m))
  = patternRow4Pixels2 width pF pat0 p m.
Proof.
  unfold patternRow4Pixels2. rewrite while_add. f_equal. now apply while_done.
Qed.

Lemma patternRow4Pixels2x1_exits k pF pat p m :
  snd (while (8 + k)
         (fun '(mask, shift, pFrame, m) => negb (mask =? 0))
         (fun '(mask, shift, pFrame, m) =>
            let pel := at4 p (Z.shiftr (Z.land mask pat) shift) in
            let m := upd m (pFrame + 0) pel in
            let m := upd m (pFrame + 1) pel in
            (u8 (Z.shiftl mask 2), u8 (shift + 2), pFrame + 2, m))
         (3, 0, pF, m))
  = patternRow4Pixels2x1 pF pat p m.
Proof.
  unfold patternRow4Pixels2x1. rewrite while_add. f_equal. now apply while_done.
Qed.

(** ** What the fillers leave alone *)

Lemma patternRow4Pixels_frame w pF pat0 pat1 p m :
  same_outside (in_rows w pF 1 8) m (patternRow4Pixels pF pat0 pat1 p m).
Proof.
  cbv beta zeta delta [patternRow4Pixels]. hide_pattern. unroll. frame_by_upd.
Qed.

Lemma patternRow4Pixels2_frame w pF pat0 p m :
  same_outside (in_rows w pF 2 8) m (patternRow4Pixels2 w pF pat0 p m).
Proof. unfold patternRow4Pixels2. unroll. frame_by_upd. Qed.

Lemma patternRow4Pixels2x1_frame w pF pat p m :
  same_outside (in_rows w pF 1 8) m (patternRow4Pixels2x1 pF pat p m).
Proof. unfold patternRow4Pixels2x1. unroll. frame_by_upd. Qed.

Lemma patternQuadrant4Pixels_frame w pF pat0 pat1 pat2 pat3 p m :
  same_outside (in_rows w pF 4 4) m (patternQuadrant4Pixels w pF pat0 pat1 pat2 pat3 p m).
Proof.
  cbv beta zeta delta [patternQuadrant4Pixels]. hide_pattern. unroll. frame_by_upd.
Qed.

Lemma patternRow2Pixels_frame w pF pat p m :
  same_outside (in_rows w pF 1 8) m (patternRow2Pixels pF pat p m).
Proof. unfold patternRow2Pixels. unroll. frame_by_upd. Qed.

Lemma patternRow2Pixels2_frame w pF pat p m :
  same_outside (in_rows w pF 2 8) m (patternRow2Pixels2 w pF pat p m).
Proof. unfold patternRow2Pixels2. unroll. frame_by_upd. Qed.

Lemma patternQuadrant2Pixels_frame w pF pat0 pat1 p m :
  same_outside (in_rows w pF 4 4) m (patternQuadrant2Pixels w pF pat0 pat1 p m).
Proof.
  cbv beta zeta delta [patternQuadrant2Pixels]. hide_pattern. unroll. frame_by_upd.
Qed.

Lemma copy_n_8_frame w src dst m :
  same_outside (in_rows w dst 1 8) m (copy_n 8 src dst m).
Proof.
  eapply same_outside_weaken; [apply copy_n_frame|].
  intros a Ha. cbn in Ha. cbn [in_rows]. lia.
Qed.

Lemma fill_n_8_frame w dst v m :
  same_outside (in_rows w dst 1 8) m (fill_n 8 dst v m).
Proof.
  eapply same_outside_weaken; [apply fill_n_frame|].
  intros a Ha. cbn in Ha. cbn [in_rows]. lia.
Qed.

Lemma copy_data_n_8_frame data w src dst m :
  same_outside (in_rows w dst 1 8) m (copy_data_n data 8 src dst m).
Proof.
  eapply same_outside_weaken; [apply copy_data_n_frame|].
  intros a Ha. cbn in Ha. cbn [in_rows]. lia.
Qed.

Lemma upd_frame w a v m : same_outside (in_rows w a 1 1) m (upd m a v).
Proof. apply same_outside_upd. cbn [in_rows]. lia. Qed.

(** * The cursors after each encoding *)

Ltac scalars := destruct_state; unfold block_step; repeat split; exec; lia
with destruct_state :=
  match goal with
  | st : dstate |- _ => destruct st as [m pF pD rem xb yb]
  end.

Section Scalars.

Variable data : Z -> Z.
Variables vBackBuf1 vBackBuf2 width height : Z.

Lemma op0_step st : block_step st (op0 vBackBuf1 vBackBuf2 width st) 0 0.
Proof. unfold op0. scalars. Qed.

Lemma op1_step st : block_step st (op1 st) 0 0.
Proof. unfold op1. scalars. Qed.

Lemma op2_step st : block_step st (op2 data width st) 1 1.
Proof.
  unfold op2. destruct st as [m pF pD rem xb yb]. exec.
  destruct (relFar _ _) as [x y]. unfold block_step. cbn. repeat split; lia.
Qed.

Lemma op3_step st : block_step st (op3 data width st) 1 1.
Proof.
  unfold op3. destruct st as [m pF pD rem xb yb]. exec.
  destruct (relFar _ _) as [x y]. unfold block_step. cbn. repeat split; lia.
Qed.

Lemma op4_step st : block_step st (op4 data vBackBuf1 vBackBuf2 width st) 1 1.
Proof. unfold op4. scalars. Qed.

Lemma op5_step st : block_step st (op5 data vBackBuf1 vBackBuf2 width st) 2 2.
Proof. unfold op5. scalars. Qed.

Lemma op7_step st :
  block_step st (op7 data width st) (consumed data (pData st) 7) 0.
Proof.
  unfold op7, consumed. destruct st as [m pF pD rem xb yb]. exec.
  destruct (data pD <=? data (pD + 1)); exec; unfold block_step; cbn;
    repeat split; lia.
Qed.

Lemma op8_step st :
  block_step st (op8 data width st) (consumed data (pData st) 8) 0.
Proof.
  unfold op8, peek, consumed. destruct st as [m pF pD rem xb yb]. cbn [pData].
  rewrite !Z.add_0_r.
  destruct (data pD <=? data (pD + 1));
    [|destruct (data (pD + 6) <=? data (pD + 7))];
    exec; unfold block_step; cbn; repeat split; lia.
Qed.

Lemma op9_step st :
  block_step st (op9 data width st) (consumed data (pData st) 9) 0.
Proof.
  unfold op9, peek, consumed. destruct st as [m pF pD rem xb yb]. cbn [pData].
  rewrite !Z.add_0_r.
  destruct (data pD <=? data (pD + 1));
    destruct (data (pD + 2) <=? data (pD + 3));
    exec; unfold block_step; cbn; repeat split; lia.
Qed.

Lemma opa_step st :
  block_step st (opa data width st) (consumed data (pData st) 10) 0.
Proof.
  unfold opa, peek, consumed. destruct st as [m pF pD rem xb yb]. cbn [pData].
  rewrite !Z.add_0_r.
  destruct (data pD <=? data (pD + 1));
    [|destruct (data (pD + 12) <=? data (pD + 13))];
    exec; unfold block_step; cbn; repeat split; lia.
Qed.

Lemma opb_step st : block_step st (opb data width st) 64 64.
Proof. unfold opb. scalars. Qed.

Lemma opc_step st : block_step st (opc data width st) 16 16.
Proof. unfold opc. scalars. Qed.

Lemma opd_step st : block_step st (opd data width st) 4 4.
Proof. unfold opd. scalars. Qed.

Lemma ope_step st : block_step st (ope data width st) 1 1.
Proof. unfold ope. scalars. Qed.

Lemma opf_step st : block_step st (opf data width st) 2 2.
Proof. unfold opf. scalars. Qed.

(** *** Encoding 0x6 *)

Lemma op6_keeps st :
  dmem (op6 width height st) = dmem st /\
  pData (op6 width height st) = pData st /\
  pDataRemain (op6 width height st) = pDataRemain st.
Proof.
  destruct st as [m pF pD rem xb yb]. unfold op6, op6_pass. cbn.
  repeat (destruct (_ =? _); cbn); auto.
Qed.

Lemma op6_curYb st : curYb st <= curYb (op6 width height st).
Proof.
  destruct st as [m pF pD rem xb yb]. unfold op6, op6_pass. cbn.
  repeat (destruct (_ =? _); cbn); lia.
Qed.

(** *** All encodings but 0x6 *)

Lemma dispatch_step c st :
  0 <= c <= 15 -> c <> 6 ->
  let st' := dispatchDecoder data vBackBuf1 vBackBuf2 width height c st in
  block_step st st' (consumed data (pData st) c)
    (accounted c (consumed data (pData st) c)).
Proof.
  intros Hc H6.
  assert (c = 0 \/ c = 1 \/ c = 2 \/ c = 3 \/ c = 4 \/ c = 5 \/ c = 7 \/ c = 8 \/
          c = 9 \/ c = 10 \/ c = 11 \/ c = 12 \/ c = 13 \/ c = 14 \/ c = 15) as Hcases
    by lia.
  repeat (destruct Hcases as [-> | Hcases]); [..| subst c];
    cbv beta zeta delta [dispatchDecoder] iota.
  - apply op0_step.
  - apply op1_step.
  - apply op2_step.
  - apply op3_step.
  - apply op4_step.
  - apply op5_step.
  - apply op7_step.
  - apply op8_step.
  - apply op9_step.
  - apply opa_step.
  - apply opb_step.
  - apply opc_step.
  - apply opd_step.
  - apply ope_step.
  - apply opf_step.
Qed.

Lemma dispatch_other c st :
  ~ 0 <= c <= 15 ->
  dispatchDecoder data vBackBuf1 vBackBuf2 width height c st = st.
Proof.
  intros Hc. unfold dispatchDecoder.
  destruct c as [|p|p]; [lia | | reflexivity].
  do 4 (destruct p as [p|p|]; try reflexivity; try lia).
Qed.

Lemma dispatch_curYb c st :
  curYb st <= curYb (dispatchDecoder data vBackBuf1 vBackBuf2 width height c st).
Proof.
  destruct (Z.eq_dec c 6) as [-> | H6]; [apply op6_curYb|].
  destruct (Z_le_dec 0 c) as [H0|H0]; [destruct (Z_le_dec c 15) as [H15|H15]|].
  - destruct (dispatch_step c st) as (_ & _ & _ & _ & ->); lia.
  - rewrite dispatch_other by lia. lia.
  - rewrite dispatch_other by lia. lia.
Qed.

End Scalars.

(** * What each encoding leaves alone *)

Ltac split_rows H :=
  repeat match type of H with
         | _ \/ _ => destruct H as [H | H]; [|split_rows H]
         | False => destruct H
         end.

Ltac pick_row := first [ left; lia | right; pick_row ].

(** [in_rows w b nr nc] lies inside [in_rows w p 8 8]. *)
Ltac sub_rows :=
  let a := fresh "a" in
  let Ha := fresh "Ha" in
  intros a Ha; cbn [in_rows] in Ha |- *; split_rows Ha; pick_row.

(** A memory built from [m] by fillers, copies and stores differs from [m]
    only where they write. *)
Ltac peel :=
  lazymatch goal with
  | |- same_outside (in_rows ?w ?p0 _ _) ?m ?m' =>
      first
        [ apply same_outside_refl
        | lazymatch m' with
          | upd ?m1 ?a ?v =>
              apply (same_outside_trans _ m m1);
              [ peel | apply (same_outside_weaken _ _ _ _ (upd_frame w a v m1)); sub_rows ]
          | copy_n 8 ?s ?d ?m1 =>
              apply (same_outside_trans _ m m1);
              [ peel | apply (same_outside_weaken _ _ _ _ (copy_n_8_frame w s d m1)); sub_rows ]
          | fill_n 8 ?d ?v ?m1 =>
              apply (same_outside_trans _ m m1);
              [ peel | apply (same_outside_weaken _ _ _ _ (fill_n_8_frame w d v m1)); sub_rows ]
          | copy_data_n ?data 8 ?s ?d ?m1 =>
              apply (same_outside_trans _ m m1);
              [ peel
              | apply (same_outside_weaken _ _ _ _ (copy_data_n_8_frame data w s d m1));
                sub_rows ]
          | patternRow4Pixels ?b ?x0 ?x1 ?p ?m1 =>
              apply (same_outside_trans _ m m1);
              [ peel
              | apply (same_outside_weaken _ _ _ _ (patternRow4Pixels_frame w b x0 x1 p m1));
                sub_rows ]
          | patternRow4Pixels2 _ ?b ?x0 ?p ?m1 =>
              apply (same_outside_trans _ m m1);
              [ peel
              | apply (same_outside_weaken _ _ _ _ (patternRow4Pixels2_frame w b x0 p m1));
                sub_rows ]
          | patternRow4Pixels2x1 ?b ?x0 ?p ?m1 =>
              apply (same_outside_trans _ m m1);
              [ peel
              | apply (same_outside_weaken _ _ _ _ (patternRow4Pixels2x1_frame w b x0 p m1));
                sub_rows ]
          | patternQuadrant4Pixels _ ?b ?x0 ?x1 ?x2 ?x3 ?p ?m1 =>
              apply (same_outside_trans _ m m1);
              [ peel
              | apply (same_outside_weaken _ _ _ _
                         (patternQuadrant4Pixels_frame w b x0 x1 x2 x3 p m1));
                sub_rows ]
          | patternRow2Pixels ?b ?x0 ?p ?m1 =>
              apply (same_outside_trans _ m m1);
              [ peel
              | apply (same_outside_weaken _ _ _ _ (patternRow2Pixels_frame w b x0 p m1));
                sub_rows ]
          | patternRow2Pixels2 _ ?b ?x0 ?p ?m1 =>
              apply (same_outside_trans _ m m1);
              [ peel
              | apply (same_outside_weaken _ _ _ _ (patternRow2Pixels2_frame w b x0 p m1));
                sub_rows ]
          | patternQuadrant2Pixels _ ?b ?x0 ?x1 ?p ?m1 =>
              apply (same_outside_trans _ m m1);
              [ peel
              | apply (same_outside_weaken _ _ _ _
                         (patternQuadrant2Pixels_frame w b x0 x1 p m1));
                sub_rows ]
          end ]
  end.

Lemma copyFrame_frame w dst src m :
  same_outside (in_rows w dst 8 8) m (copyFrame w dst src m).
Proof. unfold copyFrame. exec. peel. Qed.

Section Frames.

Variable data : Z -> Z.
Variables vBackBuf1 vBackBuf2 width height : Z.

#[local] Abbreviation block st := (in_rows width (pFrame st) 8 8).

Lemma op0_frame st : same_outside (block st) (dmem st) (dmem (op0 vBackBuf1 vBackBuf2 width st)).
Proof. destruct st as [m pF pD rem xb yb]. unfold op0. exec. apply copyFrame_frame. Qed.

Lemma op1_frame st : same_outside (block st) (dmem st) (dmem (op1 st)).
Proof. destruct st as [m pF pD rem xb yb]. exec. apply same_outside_refl. Qed.

Lemma op2_frame st : same_outside (block st) (dmem st) (dmem (op2 data width st)).
Proof.
  destruct st as [m pF pD rem xb yb]. unfold op2. exec.
  destruct (relFar _ _) as [x y]. exec. apply copyFrame_frame.
Qed.

Lemma op3_frame st : same_outside (block st) (dmem st) (dmem (op3 data width st)).
Proof.
  destruct st as [m pF pD rem xb yb]. unfold op3. exec.
  destruct (relFar _ _) as [x y]. exec. apply copyFrame_frame.
Qed.

Lemma op4_frame st :
  same_outside (block st) (dmem st) (dmem (op4 data vBackBuf1 vBackBuf2 width st)).
Proof.
  destruct st as [m pF pD rem xb yb]. unfold op4. exec.
  destruct (relClose _) as [x y]. exec. apply copyFrame_frame.
Qed.

Lemma op5_frame st :
  same_outside (block st) (dmem st) (dmem (op5 data vBackBuf1 vBackBuf2 width st)).
Proof. destruct st as [m pF pD rem xb yb]. unfold op5. exec. apply copyFrame_frame. Qed.

Lemma op7_frame st : same_outside (block st) (dmem st) (dmem (op7 data width st)).
Proof.
  destruct st as [m pF pD rem xb yb]. unfold op7. exec.
  destruct (data pD <=? data (pD + 1)); exec; peel.
Qed.

Lemma op8_frame st : same_outside (block st) (dmem st) (dmem (op8 data width st)).
Proof.
  destruct st as [m pF pD rem xb yb]. unfold op8. cbn [peek].
  destruct (data (pD + 0) <=? data (pD + 1));
    [|destruct (data (pD + 6) <=? data (pD + 7))]; exec; peel.
Qed.

Lemma op9_frame st : same_outside (block st) (dmem st) (dmem (op9 data width st)).
Proof.
  destruct st as [m pF pD rem xb yb]. unfold op9. cbn [peek].
  destruct (data (pD + 0) <=? data (pD + 1));
    destruct (data (pD + 2) <=? data (pD + 3)); exec; peel.
Qed.

Lemma opa_frame st : same_outside (block st) (dmem st) (dmem (opa data width st)).
Proof.
  destruct st as [m pF pD rem xb yb]. unfold opa. cbn [peek].
  destruct (data (pD + 0) <=? data (pD + 1));
    [|destruct (data (pD + 12) <=? data (pD + 13))]; exec; peel.
Qed.

Lemma opb_frame st : same_outside (block st) (dmem st) (dmem (opb data width st)).
Proof. destruct st as [m pF pD rem xb yb]. unfold opb. exec. peel. Qed.

Lemma opc_frame st : same_outside (block st) (dmem st) (dmem (opc data width st)).
Proof. destruct st as [m pF pD rem xb yb]. unfold opc. exec. peel. Qed.

Lemma opd_frame st : same_outside (block st) (dmem st) (dmem (opd data width st)).
Proof. destruct st as [m pF pD rem xb yb]. unfold opd. exec. peel. Qed.

Lemma ope_frame st : same_outside (block st) (dmem st) (dmem (ope data width st)).
Proof. destruct st as [m pF pD rem xb yb]. unfold ope. exec. peel. Qed.

Lemma opf_frame st : same_outside (block st) (dmem st) (dmem (opf data width st)).
Proof. destruct st as [m pF pD rem xb yb]. unfold opf. exec. peel. Qed.

Lemma dispatch_frame c st :
  0 <= c <= 15 -> c <> 6 ->
  same_outside (block st) (dmem st)
    (dmem (dispatchDecoder data vBackBuf1 vBackBuf2 width height c st)).
Proof.
  intros Hc H6.
  assert (c = 0 \/ c = 1 \/ c = 2 \/ c = 3 \/ c = 4 \/ c = 5 \/ c = 7 \/ c = 8 \/
          c = 9 \/ c = 10 \/ c = 11 \/ c = 12 \/ c = 13 \/ c = 14 \/ c = 15) as Hcases
    by lia.
  repeat (destruct Hcases as [-> | Hcases]); [..| subst c];
    cbv beta zeta delta [dispatchDecoder] iota.
  - apply op0_frame.
  - apply op1_frame.
  - apply op2_frame.
  - apply op3_frame.
  - apply op4_frame.
  - apply op5_frame.
  - apply op7_frame.
  - apply op8_frame.
  - apply op9_frame.
  - apply opa_frame.
  - apply opb_frame.
  - apply opc_frame.
  - apply opd_frame.
  - apply ope_frame.
  - apply opf_frame.
Qed.

(** Every encoding but 0x6 writes inside the block at the cursor. *)
Lemma dispatch_writes_block c st :
  0 <= c <= 15 -> c <> 6 ->
  same_outside (in_block width (pFrame st)) (dmem st)
    (dmem (dispatchDecoder data vBackBuf1 vBackBuf2 width height c st)).
Proof.
  intros Hc H6. eapply same_outside_weaken; [now apply dispatch_frame|].
  intros a. apply in_block_rows.
Qed.

End Frames.

(** * The grid walk *)

Lemma low_nibble m : 0 <= m < 256 -> u8 (Z.land m 15) = m mod 16 /\ Z.land m 15 = m mod 16.
Proof.
  intros Hm. change 15 with (Z.ones 4). rewrite Z.land_ones by lia.
  change (2 ^ 4) with 16. unfold u8. split; [|reflexivity].
  apply Z.mod_small. pose proof (Z.mod_pos_bound m 16). lia.
Qed.

Lemma high_nibble m : 0 <= m < 256 -> u8 (Z.shiftr m 4) = m / 16 /\ Z.shiftr m 4 = m / 16.
Proof.
  intros Hm. rewrite Z.shiftr_div_pow2 by lia. change (2 ^ 4) with 16.
  unfold u8. split; [|reflexivity].
  apply Z.mod_small. split; [apply Z.div_pos; lia|].
  apply Z.div_lt_upper_bound; lia.
Qed.

Lemma nibble_range m : 0 <= m < 256 -> 0 <= m mod 16 <= 15 /\ 0 <= m / 16 <= 15.
Proof.
  intros Hm. pose proof (Z.mod_pos_bound m 16).
  assert (0 <= m / 16) by (apply Z.div_pos; lia).
  assert (m / 16 < 16) by (apply Z.div_lt_upper_bound; lia). lia.
Qed.

(** Projections of a state given by its fields. *)
Ltac fields :=
  cbn [dmem pFrame pData pDataRemain curXb curYb
       set_curXb set_curYb
       adv_pFrame adv_pData dec_remain fst snd] in *.

(** Two blocks side by side lie in the 8 rows of 16 bytes. *)
Lemma in_rows_wider w p nr nc nc' a :
  nc <= nc' -> in_rows w p nr nc a -> in_rows w p nr nc' a.
Proof.
  rewrite !in_rows_spec. intros Hnc (r & Hr & Ha). exists r. lia.
Qed.

Lemma in_rows_shift w p nr nc d a :
  0 <= d -> in_rows w (p + d) nr nc a -> in_rows w p nr (d + nc) a.
Proof.
  rewrite !in_rows_spec. intros Hd (r & Hr & Ha). exists r. lia.
Qed.

Section WalkerFacts.

Variable data : Z -> Z.
Variables vBackBuf1 vBackBuf2 width height : Z.

#[local] Abbreviation dispatch :=
  (dispatchDecoder data vBackBuf1 vBackBuf2 width height).

Lemma report_spec_check which code st log :
  report vBackBuf1 width height which code st log
  = spec_check vBackBuf1 width height which code st log.
Proof.
  unfold report, spec_check.
  rewrite Z.geb_leb.
  destruct (Z.ltb_spec (pFrame st) vBackBuf1);
    destruct (Z.leb_spec vBackBuf1 (pFrame st));
    destruct (Z.leb_spec (vBackBuf1 + width * height) (pFrame st));
    destruct (Z.ltb_spec (pFrame st) (vBackBuf1 + width * height));
    cbn [andb]; reflexivity || lia.
Qed.

Lemma block_pair_spec_pair m st log :
  0 <= m < 256 ->
  block_pair data vBackBuf1 vBackBuf2 width height m st log
  = spec_pair data vBackBuf1 vBackBuf2 width height m st log.
Proof.
  intros Hm. unfold block_pair, spec_pair.
  destruct (low_nibble m Hm) as [-> ->].
  destruct (high_nibble m Hm) as [-> ->].
  now rewrite !report_spec_check.
Qed.

(** The two blocks of a map byte without encoding 0x6. *)
Lemma spec_pair_effect m st log :
  no_skip_byte m ->
  let st' := fst (spec_pair data vBackBuf1 vBackBuf2 width height m st log) in
  pFrame st' = pFrame st + 16 /\
  curXb st' = curXb st /\
  curYb st' = curYb st /\
  same_outside (in_rows width (pFrame st) 8 16) (dmem st) (dmem st').
Proof.
  intros (Hm & Hlo & Hhi). destruct (nibble_range m Hm) as [Rlo Rhi].
  unfold spec_pair. cbn [fst].
  set (st1 := dispatch (m mod 16) st).
  set (st2 := dispatch (m / 16) st1).
  destruct (dispatch_step data vBackBuf1 vBackBuf2 width height _ st Rlo Hlo)
    as (F1 & _ & _ & X1 & Y1).
  destruct (dispatch_step data vBackBuf1 vBackBuf2 width height _ st1 Rhi Hhi)
    as (F2 & _ & _ & X2 & Y2).
  fold st1 in F1, X1, Y1. fold st2 in F2, X2, Y2.
  repeat split; [lia | congruence | congruence |].
  eapply same_outside_trans.
  - eapply same_outside_weaken;
      [apply (dispatch_frame data vBackBuf1 vBackBuf2 width height _ st Rlo Hlo)|].
    intros a. apply in_rows_wider. lia.
  - eapply same_outside_weaken;
      [apply (dispatch_frame data vBackBuf1 vBackBuf2 width height _ st1 Rhi Hhi)|].
    intros a Ha. fold st1 in Ha. rewrite F1 in Ha.
    apply (in_rows_shift width (pFrame st) 8 8 8 a) in Ha; [exact Ha | lia].
Qed.

(** *** Rows of map bytes without encoding 0x6 *)

Lemma spec_row_effect n : forall pMap st log,
  Forall no_skip_byte pMap ->
  match spec_row data vBackBuf1 vBackBuf2 width height n pMap st log with
  | Some (st', rest, _) =>
      (n <= length pMap)%nat /\
      rest = skipn n pMap /\
      pFrame st' = pFrame st + 16 * Z.of_nat n /\
      curXb st' = curXb st + Z.of_nat n /\
      curYb st' = curYb st /\
      same_outside (in_rows width (pFrame st) 8 (16 * Z.of_nat n)) (dmem st) (dmem st')
  | None => (length pMap < n)%nat
  end.
Proof.
  induction n as [|n IH]; intros pMap st log Hok; cbn [spec_row].
  - repeat split; try lia; try apply same_outside_refl.
  - destruct pMap as [|m rest]; [cbn; lia|].
    inversion Hok as [|? ? Hm Hrest]; subst.
    pose proof (spec_pair_effect m st log Hm) as Hpair.
    destruct (spec_pair data vBackBuf1 vBackBuf2 width height m st log) as [st1 log1].
    cbn [fst] in Hpair. destruct Hpair as (F1 & X1 & Y1 & M1).
    specialize (IH rest (set_curXb st1 (curXb st1 + 1)) log1 Hrest).
    destruct (spec_row data vBackBuf1 vBackBuf2 width height n rest
                (set_curXb st1 (curXb st1 + 1)) log1) as [[[st' rest'] log']|];
      [|cbn [length]; lia].
    destruct st1 as [m1 pF1 pD1 rem1 xb1 yb1]. fields.
    destruct IH as (L & R & F & X & Y & M).
    repeat split; try (cbn [length]; lia); try exact R.
    eapply same_outside_trans.
    + eapply same_outside_weaken; [exact M1|].
      intros a. apply in_rows_wider. lia.
    + eapply same_outside_weaken; [exact M|].
      intros a Ha. rewrite F1 in Ha.
      apply in_rows_shift in Ha; [|lia].
      revert Ha. apply in_rows_wider. lia.
Qed.

Lemma Forall_skipn_keeps (P : Z -> Prop) n (l : list Z) :
  Forall P l -> Forall P (skipn n l).
Proof.
  revert l. induction n as [|n IH]; intros l Hl; [exact Hl|].
  destruct l as [|x l]; [exact Hl|]. cbn [skipn]. apply IH. now inversion Hl.
Qed.

(** The inner loop runs [xb/2 - i] times when no encoding is 0x6. *)
Lemma inner_loop_spec_row pMap : forall st log,
  Forall no_skip_byte pMap ->
  inner_loop data vBackBuf1 vBackBuf2 width height pMap st log
  = spec_row data vBackBuf1 vBackBuf2 width height
      (Z.to_nat (Z.quot (Z.shiftr width 3) 2 - curXb st)) pMap st log.
Proof.
  induction pMap as [|m rest IH]; intros st log Hok; cbn [inner_loop].
  - destruct (Z.ltb_spec (curXb st) (Z.quot (Z.shiftr width 3) 2)) as [Hlt|Hge].
    + destruct (Z.to_nat _) eqn:E; [lia | reflexivity].
    + now replace (Z.to_nat _) with 0%nat by lia.
  - destruct (Z.ltb_spec (curXb st) (Z.quot (Z.shiftr width 3) 2)) as [Hlt|Hge].
    + destruct (Z.to_nat _) as [|k] eqn:E; [lia|].
      cbn [spec_row]. inversion Hok as [|? ? Hm Hrest]; subst.
      rewrite block_pair_spec_pair by apply Hm.
      pose proof (spec_pair_effect m st log Hm) as Hpair.
      destruct (spec_pair data vBackBuf1 vBackBuf2 width height m st log) as [st1 log1].
      cbn [fst] in Hpair. destruct Hpair as (_ & X1 & _).
      rewrite IH by exact Hrest. f_equal.
      destruct st1; fields; lia.
    + now replace (Z.to_nat _) with 0%nat by lia.
Qed.

Lemma quot_shift_width : 0 <= width -> Z.quot (Z.shiftr width 3) 2 = width / 16.
Proof.
  intros Hw. rewrite Z.shiftr_div_pow2 by lia. change (2 ^ 3) with 8.
  rewrite Z.quot_div_nonneg by (try apply Z.div_pos; lia).
  rewrite Z.div_div by lia. reflexivity.
Qed.

(** *** Block-rows *)

Lemma spec_rows_effect n : forall pMap st log,
  Forall no_skip_byte pMap ->
  match spec_rows data vBackBuf1 vBackBuf2 width height n pMap st log with
  | Some (st', rest, _) =>
      (n * Z.to_nat (width / 16) <= length pMap)%nat /\
      rest = skipn (n * Z.to_nat (width / 16)) pMap /\
      pFrame st' = pFrame st + Z.of_nat n * stride width /\
      curYb st' = curYb st + Z.of_nat n /\
      same_outside (in_bands width (pFrame st) n) (dmem st) (dmem st')
  | None => (length pMap < n * Z.to_nat (width / 16))%nat
  end.
Proof.
  induction n as [|n IH]; intros pMap st log Hok; cbn [spec_rows].
  - repeat split; cbn; try lia; try apply same_outside_refl.
  - pose proof (spec_row_effect (Z.to_nat (width / 16)) pMap (set_curXb st 0) log Hok)
      as Hrow.
    destruct (spec_row data vBackBuf1 vBackBuf2 width height (Z.to_nat (width / 16))
                pMap (set_curXb st 0) log) as [[[st1 rest1] log1]|]; [|lia].
    destruct Hrow as (L1 & R1 & F1 & _ & Y1 & M1). cbv zeta.
    assert (Hok1 : Forall no_skip_byte rest1)
      by (subst rest1; now apply Forall_skipn_keeps).
    destruct st as [m0 pF0 pD0 rem0 xb0 yb0].
    destruct st1 as [m1 pF1 pD1 rem1 xb1 yb1]. fields.
    match goal with
    | |- context [spec_rows _ _ _ _ _ n rest1 ?s log1] =>
        specialize (IH rest1 s log1 Hok1);
        destruct (spec_rows data vBackBuf1 vBackBuf2 width height n rest1 s log1)
          as [[[st' rest'] log']|]
    end.
    + fields. destruct IH as (L & R & F & Y & M).
      assert (Hlen : length rest1 = (length pMap - Z.to_nat (width / 16))%nat)
        by (subst rest1; apply length_skipn).
      repeat split.
      * lia.
      * subst rest' rest1. rewrite skipn_skipn. f_equal. lia.
      * unfold stride in *. lia.
      * lia.
      * eapply same_outside_trans.
        -- eapply same_outside_weaken; [exact M1|].
           intros a Ha. exists 0. split; [lia|].
           now replace (pF0 + 0 * stride width) with pF0 by lia.
        -- eapply same_outside_weaken; [exact M|].
           intros a (k & Hk & Ha). exists (k + 1). split; [lia|].
           replace (pF0 + (k + 1) * stride width) with (pF1 + 7 * width + k * stride width);
             [exact Ha | unfold stride; lia].
    + assert (Hlen : length rest1 = (length pMap - Z.to_nat (width / 16))%nat)
        by (subst rest1; apply length_skipn).
      lia.
Qed.

(** The outer loop runs [yb - j] times when no encoding is 0x6. *)
Lemma outer_loop_spec_rows fuel : forall pMap st log,
  Forall no_skip_byte pMap ->
  0 <= width ->
  (Z.to_nat (Z.shiftr height 3 - curYb st) <= fuel)%nat ->
  outer_loop data vBackBuf1 vBackBuf2 width height fuel pMap st log
  = outcome_of (spec_rows data vBackBuf1 vBackBuf2 width height
                  (Z.to_nat (Z.shiftr height 3 - curYb st)) pMap st log).
Proof.
  induction fuel as [|fuel IH]; intros pMap st log Hok Hw Hfuel.
  - cbn [outer_loop].
    destruct (Z.ltb_spec (curYb st) (Z.shiftr height 3)); [lia|].
    now replace (Z.to_nat _) with 0%nat by lia.
  - cbn [outer_loop].
    destruct (Z.ltb_spec (curYb st) (Z.shiftr height 3)) as [Hlt|Hge];
      [|now replace (Z.to_nat _) with 0%nat by lia].
    destruct (Z.to_nat _) as [|n] eqn:E; [lia|]. cbn [spec_rows].
    rewrite inner_loop_spec_row by exact Hok.
    replace (curXb (set_curXb st 0)) with 0 by now destruct st.
    rewrite Z.sub_0_r, quot_shift_width by exact Hw.
    pose proof (spec_row_effect (Z.to_nat (width / 16)) pMap (set_curXb st 0) log Hok)
      as Hrow.
    destruct (spec_row data vBackBuf1 vBackBuf2 width height (Z.to_nat (width / 16))
                pMap (set_curXb st 0) log) as [[[st1 rest1] log1]|]; [|reflexivity].
    destruct Hrow as (_ & R1 & _ & _ & Y1 & _).
    assert (Hj : curYb st1 = curYb st) by (rewrite Y1; now destruct st).
    rewrite IH.
    + do 2 f_equal. destruct st1; fields; lia.
    + subst rest1. now apply Forall_skipn_keeps.
    + exact Hw.
    + destruct st1; fields; lia.
Qed.

(** *** Reports *)

Lemma spec_check_inside which code st log :
  in_frame vBackBuf1 width height (pFrame st) ->
  spec_check vBackBuf1 width height which code st log = log.
Proof.
  unfold in_frame, spec_check. intros [H1 H2].
  apply Z.leb_le in H1. apply Z.ltb_lt in H2. now rewrite H1, H2.
Qed.

Lemma spec_pair_quiet m st log :
  no_skip_byte m ->
  in_frame vBackBuf1 width height (pFrame st + 8) ->
  in_frame vBackBuf1 width height (pFrame st + 16) ->
  snd (spec_pair data vBackBuf1 vBackBuf2 width height m st log) = log.
Proof.
  intros (Hm & Hlo & Hhi) In1 In2. destruct (nibble_range m Hm) as [Rlo Rhi].
  unfold spec_pair. cbn [snd].
  destruct (dispatch_step data vBackBuf1 vBackBuf2 width height _ st Rlo Hlo)
    as (F1 & _).
  destruct (dispatch_step data vBackBuf1 vBackBuf2 width height _
              (dispatch (m mod 16) st) Rhi Hhi) as (F2 & _).
  rewrite spec_check_inside; [rewrite spec_check_inside; [reflexivity|] |].
  - now rewrite F1.
  - rewrite F2, F1. now replace (pFrame st + 8 + 8) with (pFrame st + 16) by lia.
Qed.

Lemma spec_row_quiet n : forall pMap st log,
  Forall no_skip_byte pMap ->
  (forall k, 0 < k <= 2 * Z.of_nat n ->
             in_frame vBackBuf1 width height (pFrame st + 8 * k)) ->
  match spec_row data vBackBuf1 vBackBuf2 width height n pMap st log with
  | Some (_, _, log') => log' = log
  | None => True
  end.
Proof.
  induction n as [|n IH]; intros pMap st log Hok Hin; cbn [spec_row]; [reflexivity|].
  destruct pMap as [|m rest]; [exact I|].
  inversion Hok as [|? ? Hm Hrest]; subst.
  pose proof (spec_pair_effect m st log Hm) as Hpair.
  pose proof (spec_pair_quiet m st log Hm) as Hquiet.
  destruct (spec_pair data vBackBuf1 vBackBuf2 width height m st log) as [st1 log1].
  cbn [fst snd] in Hpair, Hquiet. destruct Hpair as (F1 & _).
  rewrite Hquiet.
  - apply IH; [exact Hrest|]. intros k Hk. destruct st1. fields. rewrite F1.
    replace (pFrame st + 16 + 8 * k) with (pFrame st + 8 * (k + 2)) by lia.
    apply Hin. lia.
  - replace (pFrame st + 8) with (pFrame st + 8 * 1) by lia. apply Hin. lia.
  - replace (pFrame st + 16) with (pFrame st + 8 * 2) by lia. apply Hin. lia.
Qed.

Lemma spec_rows_quiet n : forall pMap st log,
  Forall no_skip_byte pMap ->
  (forall j k, 0 <= j < Z.of_nat n ->
               0 < k <= 2 * Z.of_nat (Z.to_nat (width / 16)) ->
               in_frame vBackBuf1 width height (pFrame st + j * stride width + 8 * k)) ->
  match spec_rows data vBackBuf1 vBackBuf2 width height n pMap st log with
  | Some (_, _, log') => log' = log
  | None => True
  end.
Proof.
  induction n as [|n IH]; intros pMap st log Hok Hin; cbn [spec_rows]; [reflexivity|].
  pose proof (spec_row_effect (Z.to_nat (width / 16)) pMap (set_curXb st 0) log Hok)
    as Heff.
  pose proof (spec_row_quiet (Z.to_nat (width / 16)) pMap (set_curXb st 0) log Hok)
    as Hquiet.
  destruct (spec_row data vBackBuf1 vBackBuf2 width height (Z.to_nat (width / 16))
              pMap (set_curXb st 0) log) as [[[st1 rest1] log1]|]; [|exact I].
  destruct Heff as (_ & R1 & F1 & _). cbv zeta.
  rewrite Hquiet.
  - destruct st as [m0 pF0 pD0 rem0 xb0 yb0].
    destruct st1 as [m1 pF1 pD1 rem1 xb1 yb1]. fields.
    apply IH; [subst rest1; now apply Forall_skipn_keeps|].
    intros j k Hj Hk. fields.
    replace (pF1 + 7 * width + j * stride width + 8 * k)
      with (pF0 + (j + 1) * stride width + 8 * k) by (unfold stride; lia).
    apply Hin; lia.
  - intros k Hk. destruct st as [m0 pF0 pD0 rem0 xb0 yb0]. fields.
    specialize (Hin 0 k ltac:(lia) Hk). fields.
    now replace (pF0 + 0 * stride width + 8 * k) with (pF0 + 8 * k) in Hin by lia.
Qed.

Lemma block_cursor_in_frame base j k :
  0 <= width -> 0 <= height ->
  0 <= j < Z.of_nat (Z.to_nat (height / 8)) ->
  0 < k <= 2 * Z.of_nat (Z.to_nat (width / 16)) ->
  in_frame base width height (base + j * stride width + 8 * k).
Proof.
  intros Hw Hh Hj Hk. unfold stride, in_frame.
  rewrite Z2Nat.id in * by (apply Z.div_pos; lia).
  pose proof (Z.mul_div_le width 16 ltac:(lia)) as Hq.
  pose proof (Z.mul_div_le height 8 ltac:(lia)) as Hyb.
  assert (0 <= width / 16) by (apply Z.div_pos; lia).
  set (q := width / 16) in *. set (yb := height / 8) in *.
  assert (H1 : 0 <= j * (7 * width + 16 * q)) by nia.
  assert (H2 : j * (7 * width + 16 * q) <= j * (8 * width)) by nia.
  assert (H3 : 8 * (j + 1) * width <= height * width) by nia.
  assert (H4 : 0 < width) by lia.
  nia.
Qed.

(** *** Fuel *)

Lemma inner_loop_curYb pMap : forall st log st' rest log',
  inner_loop data vBackBuf1 vBackBuf2 width height pMap st log = Some (st', rest, log') ->
  curYb st <= curYb st'.
Proof.
  induction pMap as [|m pMap IH]; intros st log st' rest log'; cbn [inner_loop].
  - destruct (_ <? _); [discriminate|]. intros [= <- _ _]. lia.
  - destruct (_ <? _); [|intros [= <- _ _]; lia].
    unfold block_pair. intros H. apply IH in H.
    pose proof (dispatch_curYb data vBackBuf1 vBackBuf2 width height
                  (u8 (Z.land m 15)) st) as H1.
    pose proof (dispatch_curYb data vBackBuf1 vBackBuf2 width height
                  (u8 (Z.shiftr m 4)) (dispatch (u8 (Z.land m 15)) st)) as H2.
    destruct (dispatch (u8 (Z.shiftr m 4)) (dispatch (u8 (Z.land m 15)) st)).
    fields. lia.
Qed.

Lemma outer_loop_fuel fuel : forall pMap st log,
  (Z.to_nat (Z.shiftr height 3 - curYb st) <= fuel)%nat ->
  outer_loop data vBackBuf1 vBackBuf2 width height fuel pMap st log <> OutOfFuel.
Proof.
  induction fuel as [|fuel IH]; intros pMap st log Hfuel; cbn [outer_loop].
  - destruct (Z.ltb_spec (curYb st) (Z.shiftr height 3)); [lia | discriminate].
  - destruct (Z.ltb_spec (curYb st) (Z.shiftr height 3)); [|discriminate].
    destruct (inner_loop _ _ _ _ _ _ _ _) as [[[st1 rest1] log1]|] eqn:E; [|discriminate].
    apply inner_loop_curYb in E. apply IH.
    destruct st, st1; fields; lia.
Qed.

End WalkerFacts.

(** [decodeFrame8] never stops for want of fuel. *)
Lemma decodeFrame8_fuel vBackBuf2 width height pFrame pMap data pData dataRemain m :
  decodeFrame8 vBackBuf2 width height pFrame pMap data pData dataRemain m <> OutOfFuel.
Proof. unfold decodeFrame8. apply outer_loop_fuel. cbn. lia. Qed.

(** Without encoding 0x6 in the map, [decodeFrame8] is the walk of the
    specification. *)
Lemma decodeFrame8_decode_frame vBackBuf2 width height pFrame pMap data pData dataRemain m :
  Forall no_skip_byte pMap ->
  0 <= width ->
  decodeFrame8 vBackBuf2 width height pFrame pMap data pData dataRemain m
  = outcome_of (decode_frame width height pFrame vBackBuf2 pMap data pData dataRemain m).
Proof.
  intros Hok Hw. unfold decodeFrame8, decode_frame.
  rewrite outer_loop_spec_rows by (cbn; auto; lia).
  cbn [curYb]. rewrite Z.sub_0_r, Z.shiftr_div_pow2 by lia. reflexivity.
Qed.

(** X27. A stream without encoding 0x6 keeps the cursor inside the
    destination after every block, so that nothing is reported: the
    decode of such a stream ends with no message. *)
Lemma decodeFrame8_quiet vBackBuf2 width height pFrame pMap data pData dataRemain m :
  Forall no_skip_byte pMap ->
  0 <= width -> 0 <= height ->
  match decodeFrame8 vBackBuf2 width height pFrame pMap data pData dataRemain m with
  | Done _ _ log => log = []
  | MapExhausted => True
  | OutOfFuel => False
  end.
Proof.
  intros Hok Hw Hh. rewrite decodeFrame8_decode_frame by assumption.
  unfold decode_frame.
  pose proof (spec_rows_quiet data pFrame vBackBuf2 width height
                (Z.to_nat (height / 8)) pMap
                (mkD m pFrame pData dataRemain 0 0) [] Hok) as Hq.
  destruct (spec_rows data pFrame vBackBuf2 width height (Z.to_nat (height / 8))
              pMap (mkD m pFrame pData dataRemain 0 0) [])
    as [[[st rest] log]|]; cbn [outcome_of]; [|exact I].
  apply Hq. intros j k Hj Hk. fields.
  now apply block_cursor_in_frame.
Qed.

(** * What the fillers and copies write *)

Lemma upd_eq m a v x : x = a -> upd m a v x = v.
Proof. intros ->. apply upd_same. Qed.

(** The last store to an address decides. *)
Ltac last_store :=
  repeat (rewrite upd_other by lia); rewrite upd_eq by lia.

Lemma land_bit_test mask k x :
  0 <= k -> mask = 2 ^ k -> (Z.land mask x =? 0) = negb (Z.testbit x k).
Proof.
  intros Hk ->.
  assert (H2 : 0 < 2 ^ k) by (apply Z.pow_pos_nonneg; lia).
  destruct (Z.testbit x k) eqn:E; cbn [negb].
  - apply Z.eqb_neq. intros H0.
    assert (Z.testbit (Z.land (2 ^ k) x) k = true)
      by (rewrite Z.land_spec, Z.pow2_bits_true, E by lia; reflexivity).
    rewrite H0, Z.bits_0 in H. discriminate.
  - apply Z.eqb_eq. apply Z.bits_inj'. intros n Hn.
    rewrite Z.land_spec, Z.bits_0, Z.pow2_bits_eqb by lia.
    destruct (Z.eqb_spec k n) as [-> | Hne]; [now rewrite E | reflexivity].
Qed.

Lemma field2 mask s x :
  0 <= s -> mask = Z.shiftl 3 s ->
  Z.shiftr (Z.land mask x) s = Z.land (Z.shiftr x s) 3.
Proof.
  intros Hs ->. rewrite Z.shiftr_land, Z.shiftr_shiftl_l by lia.
  rewrite Z.sub_diag, Z.shiftl_0_r. apply Z.land_comm.
Qed.

Lemma nonzero_bit mask k x :
  0 <= k -> mask = 2 ^ k -> nonzero (Z.land mask x) = Z.testbit x k.
Proof.
  intros Hk Hm. unfold nonzero. rewrite (land_bit_test mask k x Hk Hm).
  apply negb_involutive.
Qed.

Ltac bit_fields :=
  repeat match goal with
         | |- context [nonzero (Z.land ?mask ?x)] =>
             match mask with
             | 1 => rewrite (nonzero_bit mask 0 x) by first [lia | reflexivity]
             | 2 => rewrite (nonzero_bit mask 1 x) by first [lia | reflexivity]
             | 4 => rewrite (nonzero_bit mask 2 x) by first [lia | reflexivity]
             | 8 => rewrite (nonzero_bit mask 3 x) by first [lia | reflexivity]
             | 16 => rewrite (nonzero_bit mask 4 x) by first [lia | reflexivity]
             | 32 => rewrite (nonzero_bit mask 5 x) by first [lia | reflexivity]
             | 64 => rewrite (nonzero_bit mask 6 x) by first [lia | reflexivity]
             | 128 => rewrite (nonzero_bit mask 7 x) by first [lia | reflexivity]
             end
         | |- context [Z.shiftr (Z.land ?mask ?x) ?s] =>
             rewrite (field2 mask s x) by first [lia | reflexivity]
         end.

Ltac cases8 c :=
  let H := fresh in
  assert (H : c = 0 \/ c = 1 \/ c = 2 \/ c = 3 \/ c = 4 \/ c = 5 \/ c = 6 \/ c = 7) by lia;
  repeat (destruct H as [-> | H]); [..| subst c].

Ltac cases2 r :=
  let H := fresh in
  assert (H : r = 0 \/ r = 1) by lia;
  destruct H as [-> | ->].

Lemma patternRow2Pixels_content pF pat p m c :
  0 <= c < 8 ->
  patternRow2Pixels pF pat p m (pF + c) = at4 p (if Z.testbit pat c then 1 else 0).
Proof.
  intros Hc. unfold patternRow2Pixels. unroll.
  cases8 c; last_store; bit_fields; reflexivity.
Qed.

Lemma patternRow2Pixels2_content w pF pat p m r c :
  8 <= w -> 0 <= r < 2 -> 0 <= c < 8 ->
  patternRow2Pixels2 w pF pat p m (pF + r * w + c)
  = at4 p (if Z.testbit pat (c / 2) then 1 else 0).
Proof.
  intros Hw Hr Hc. unfold patternRow2Pixels2. unroll.
  cases2 r; cases8 c; last_store; bit_fields; reflexivity.
Qed.

Lemma patternRow4Pixels_content pF pat0 pat1 p m c :
  0 <= c < 8 ->
  patternRow4Pixels pF pat0 pat1 p m (pF + c)
  = at4 p (Z.land (Z.shiftr (u16 (Z.lor (Z.shiftl pat1 8) pat0)) (2 * c)) 3).
Proof.
  intros Hc. cbv beta zeta delta [patternRow4Pixels]. hide_pattern. unroll.
  cases8 c; last_store; bit_fields; reflexivity.
Qed.

Lemma patternRow4Pixels2_content w pF pat0 p m r c :
  8 <= w -> 0 <= r < 2 -> 0 <= c < 8 ->
  patternRow4Pixels2 w pF pat0 p m (pF + r * w + c)
  = at4 p (Z.land (Z.shiftr pat0 (2 * (c / 2))) 3).
Proof.
  intros Hw Hr Hc. unfold patternRow4Pixels2. unroll.
  cases2 r; cases8 c; last_store; bit_fields; reflexivity.
Qed.

Lemma patternRow4Pixels2x1_content pF pat p m c :
  0 <= c < 8 ->
  patternRow4Pixels2x1 pF pat p m (pF + c)
  = at4 p (Z.land (Z.shiftr pat (2 * (c / 2))) 3).
Proof.
  intros Hc. unfold patternRow4Pixels2x1. unroll.
  cases8 c; last_store; bit_fields; reflexivity.
Qed.

Lemma copy_n_8_other src dst m a :
  ~ dst <= a < dst + 8 -> copy_n 8 src dst m a = m a.
Proof. intros Ha. apply (copy_n_frame 8 src dst m a). exact Ha. Qed.

Lemma copy_n_8_content src dst m c :
  0 <= c < 8 -> dst <= src \/ src + 8 <= dst ->
  copy_n 8 src dst m (dst + c) = m (src + c).
Proof. intros Hc Hsep. apply copy_n_content; [exact Hc | exact Hsep]. Qed.

(** A block copied from at least eight bytes further on (in address
    order) holds what the source held before the copy. *)
Lemma copyFrame_content w dst off m r c :
  8 <= w -> 8 <= off -> 0 <= r < 8 -> 0 <= c < 8 ->
  copyFrame w dst (dst + off) m (dst + r * w + c) = m (dst + off + r * w + c).
Proof.
  intros Hw Hoff Hr Hc. unfold copyFrame. exec.
  cases8 r;
    repeat (rewrite copy_n_8_other by lia);
    match goal with
    | |- copy_n 8 ?s ?d ?m0 ?a = _ =>
        replace a with (d + c) by lia; rewrite copy_n_8_content by lia
    end;
    repeat (rewrite copy_n_8_other by lia);
    f_equal; lia.
Qed.

(** * The pixels of the pattern encodings *)

(** Inside a block painted row by row, the pixel at [a] comes from the
    filler of its row: the fillers of later rows leave it alone. *)
Ltac skip_later_rows w :=
  repeat match goal with
         | |- patternRow2Pixels ?b ?x ?p ?m ?a = _ =>
             rewrite (patternRow2Pixels_frame w b x p m a) by (cbn [in_rows]; lia)
         | |- patternRow2Pixels2 _ ?b ?x ?p ?m ?a = _ =>
             rewrite (patternRow2Pixels2_frame w b x p m a) by (cbn [in_rows]; lia)
         | |- patternRow4Pixels ?b ?x0 ?x1 ?p ?m ?a = _ =>
             rewrite (patternRow4Pixels_frame w b x0 x1 p m a) by (cbn [in_rows]; lia)
         | |- patternRow4Pixels2 _ ?b ?x ?p ?m ?a = _ =>
             rewrite (patternRow4Pixels2_frame w b x p m a) by (cbn [in_rows]; lia)
         | |- patternRow4Pixels2x1 ?b ?x ?p ?m ?a = _ =>
             rewrite (patternRow4Pixels2x1_frame w b x p m a) by (cbn [in_rows]; lia)
         end.

Ltac hit_row w c :=
  match goal with
  | |- patternRow2Pixels ?b ?x ?p ?m ?a = _ =>
      replace a with (b + c) by lia; rewrite patternRow2Pixels_content by lia
  | |- patternRow2Pixels2 _ ?b ?x ?p ?m ?a = _ =>
      first [ replace a with (b + 0 * w + c) by lia
            | replace a with (b + 1 * w + c) by lia ];
      rewrite patternRow2Pixels2_content by lia
  | |- patternRow4Pixels ?b ?x0 ?x1 ?p ?m ?a = _ =>
      replace a with (b + c) by lia; rewrite patternRow4Pixels_content by lia
  | |- patternRow4Pixels2 _ ?b ?x ?p ?m ?a = _ =>
      first [ replace a with (b + 0 * w + c) by lia
            | replace a with (b + 1 * w + c) by lia ];
      rewrite patternRow4Pixels2_content by lia
  | |- patternRow4Pixels2x1 ?b ?x ?p ?m ?a = _ =>
      replace a with (b + c) by lia; rewrite patternRow4Pixels2x1_content by lia
  end.

(** Payload addresses in the form [pD + k]. *)
Ltac norm_data data pD :=
  repeat match goal with
         | |- context [data ?x] =>
             lazymatch x with
             | pD + ?k => let k' := eval vm_compute in k in
                          tryif constr_eq k k' then fail else idtac
             | _ => idtac
             end;
             let f := eval pattern pD in x in
             lazymatch f with
             | ?g _ => let k := eval vm_compute in (g 0) in
                       replace x with (pD + k)
                         by (Z.to_euclidean_division_equations; lia)
             end
         end.

Lemma testbit_low_nibble b k :
  0 <= k < 4 -> Z.testbit (u8 (Z.land b 15)) k = Z.testbit b k.
Proof.
  intros Hk. unfold u8. change 256 with (2 ^ 8).
  rewrite Z.mod_pow2_bits_low by lia. rewrite Z.land_spec.
  change 15 with (Z.ones 4). rewrite Z.ones_spec_low by lia. apply andb_true_r.
Qed.

Lemma testbit_high_nibble b k :
  0 <= k < 4 -> Z.testbit (u8 (Z.shiftr b 4)) k = Z.testbit b (4 + k).
Proof.
  intros Hk. unfold u8. change 256 with (2 ^ 8).
  rewrite Z.mod_pow2_bits_low by lia. rewrite Z.shiftr_spec by lia.
  f_equal. lia.
Qed.

Lemma at4_two P0 P1 x2 x3 (b : bool) :
  at4 (Arr4 P0 P1 x2 x3) (if b then 1 else 0) = if b then P1 else P0.
Proof. now destruct b. Qed.

Section Pixels.

Variable data : Z -> Z.
Variables vBackBuf1 vBackBuf2 width height : Z.

Lemma op7_rows m pF pD rem xb yb :
  8 <= width ->
  data pD <= data (pD + 1) ->
  forall r c, 0 <= r < 8 -> 0 <= c < 8 ->
  dmem (op7 data width (mkD m pF pD rem xb yb)) (pF + r * width + c)
  = if Z.testbit (data (pD + 2 + r)) c then data (pD + 1) else data pD.
Proof.
  intros Hw Hle r c Hr Hc. unfold op7. exec.
  apply Z.leb_le in Hle. rewrite Hle. exec.
  cases8 r; skip_later_rows width; hit_row width c;
    rewrite at4_two; norm_data data pD; reflexivity.
Qed.

Lemma op7_cells m pF pD rem xb yb :
  8 <= width ->
  data pD > data (pD + 1) ->
  forall r c, 0 <= r < 8 -> 0 <= c < 8 ->
  dmem (op7 data width (mkD m pF pD rem xb yb)) (pF + r * width + c)
  = if Z.testbit (data (pD + 2 + r / 4)) (4 * ((r / 2) mod 2) + c / 2)
    then data (pD + 1) else data pD.
Proof.
  intros Hw Hgt r c Hr Hc. unfold op7. exec.
  assert (E : (data pD <=? data (pD + 1)) = false) by (apply Z.leb_gt; lia).
  rewrite E. exec.
  assert (Hc2 : 0 <= c / 2 < 4)
    by (split; [apply Z.div_pos; lia | apply Z.div_lt_upper_bound; lia]).
  cases8 r; skip_later_rows width; hit_row width c;
    rewrite at4_two;
    rewrite ?testbit_low_nibble, ?testbit_high_nibble by exact Hc2;
    cbn; norm_data data pD; reflexivity.
Qed.

(** *** Encoding 0x9 *)

Lemma op9_1x1 m pF pD rem xb yb :
  8 <= width ->
  data pD <= data (pD + 1) -> data (pD + 2) <= data (pD + 3) ->
  forall r c, 0 <= r < 8 -> 0 <= c < 8 ->
  dmem (op9 data width (mkD m pF pD rem xb yb)) (pF + r * width + c)
  = at4 (Arr4 (data pD) (data (pD + 1)) (data (pD + 2)) (data (pD + 3)))
      (pick2 (word16 (data (pD + 4 + 2 * r)) (data (pD + 5 + 2 * r))) c).
Proof.
  intros Hw H01 H23 r c Hr Hc. unfold op9. cbn [peek].
  apply Z.leb_le in H01, H23. rewrite Z.add_0_r, H01, H23. exec.
  unfold pick2, word16.
  cases8 r; skip_later_rows width; hit_row width c;
    norm_data data pD; reflexivity.
Qed.

Lemma op9_2x2 m pF pD rem xb yb :
  8 <= width ->
  data pD <= data (pD + 1) -> data (pD + 2) > data (pD + 3) ->
  forall r c, 0 <= r < 8 -> 0 <= c < 8 ->
  dmem (op9 data width (mkD m pF pD rem xb yb)) (pF + r * width + c)
  = at4 (Arr4 (data pD) (data (pD + 1)) (data (pD + 2)) (data (pD + 3)))
      (pick2 (data (pD + 4 + r / 2)) (c / 2)).
Proof.
  intros Hw H01 H23 r c Hr Hc. unfold op9. cbn [peek].
  apply Z.leb_le in H01.
  assert (E : (data (pD + 2) <=? data (pD + 3)) = false) by (apply Z.leb_gt; lia).
  rewrite Z.add_0_r, H01, E. exec.
  unfold pick2.
  cases8 r; skip_later_rows width; hit_row width c;
    norm_data data pD; reflexivity.
Qed.

Lemma op9_2x1 m pF pD rem xb yb :
  8 <= width ->
  data pD > data (pD + 1) -> data (pD + 2) <= data (pD + 3) ->
  forall r c, 0 <= r < 8 -> 0 <= c < 8 ->
  dmem (op9 data width (mkD m pF pD rem xb yb)) (pF + r * width + c)
  = at4 (Arr4 (data pD) (data (pD + 1)) (data (pD + 2)) (data (pD + 3)))
      (pick2 (data (pD + 4 + r)) (c / 2)).
Proof.
  intros Hw H01 H23 r c Hr Hc. unfold op9. cbn [peek].
  apply Z.leb_le in H23.
  assert (E : (data pD <=? data (pD + 1)) = false) by (apply Z.leb_gt; lia).
  rewrite Z.add_0_r, E, H23. exec.
  unfold pick2.
  cases8 r; skip_later_rows width; hit_row width c;
    norm_data data pD; reflexivity.
Qed.

Lemma op9_1x2 m pF pD rem xb yb :
  8 <= width ->
  data pD > data (pD + 1) -> data (pD + 2) > data (pD + 3) ->
  forall r c, 0 <= r < 8 -> 0 <= c < 8 ->
  dmem (op9 data width (mkD m pF pD rem xb yb)) (pF + r * width + c)
  = at4 (Arr4 (data pD) (data (pD + 1)) (data (pD + 2)) (data (pD + 3)))
      (pick2 (word16 (data (pD + 4 + 2 * (r / 2))) (data (pD + 5 + 2 * (r / 2)))) c).
Proof.
  intros Hw H01 H23 r c Hr Hc. unfold op9. cbn [peek].
  assert (E1 : (data pD <=? data (pD + 1)) = false) by (apply Z.leb_gt; lia).
  assert (E2 : (data (pD + 2) <=? data (pD + 3)) = false) by (apply Z.leb_gt; lia).
  rewrite Z.add_0_r, E1, E2. exec.
  unfold pick2, word16.
  cases8 r; skip_later_rows width; hit_row width c;
    norm_data data pD; reflexivity.
Qed.

(** *** Encoding 0x2 *)

Lemma relFar_far_offset B : 0 <= B < 256 -> relFar B 1 = far_offset B.
Proof.
  intros HB. unfold relFar, far_offset.
  destruct (Z.ltb_spec B 56).
  - rewrite Z.rem_mod_nonneg, Z.quot_div_nonneg by lia. f_equal; lia.
  - rewrite Z.rem_mod_nonneg, Z.quot_div_nonneg by lia. f_equal; lia.
Qed.

Lemma far_offset_range B x y :
  0 <= B < 256 -> far_offset B = (x, y) ->
  (8 <= x <= 14 /\ 0 <= y <= 7) \/ (-14 <= x <= 14 /\ 8 <= y).
Proof.
  intros HB. unfold far_offset. destruct (Z.ltb_spec B 56); intros [= <- <-].
  - left. pose proof (Z.mod_pos_bound B 7).
    assert (0 <= B / 7) by (apply Z.div_pos; lia).
    assert (B / 7 < 8) by (apply Z.div_lt_upper_bound; lia). lia.
  - right. pose proof (Z.mod_pos_bound (B - 56) 29).
    assert (0 <= (B - 56) / 29) by (apply Z.div_pos; lia). lia.
Qed.

Lemma op2_copy m pF pD rem xb yb x y :
  8 <= width -> 0 <= data pD < 256 ->
  far_offset (data pD) = (x, y) ->
  forall r c, 0 <= r < 8 -> 0 <= c < 8 ->
  dmem (op2 data width (mkD m pF pD rem xb yb)) (pF + r * width + c)
  = m (pF + x + y * width + r * width + c).
Proof.
  intros Hw HB Hxy r c Hr Hc. unfold op2. exec.
  rewrite relFar_far_offset, Hxy by exact HB. exec.
  destruct (far_offset_range _ _ _ HB Hxy) as [[Hx Hy] | [Hx Hy]].
  - assert (0 <= y * width) by nia.
    replace (pF + x + y * width) with (pF + (x + y * width)) by lia.
    rewrite copyFrame_content by lia. f_equal; lia.
  - assert (64 <= y * width) by nia.
    replace (pF + x + y * width) with (pF + (x + y * width)) by lia.
    rewrite copyFrame_content by lia. f_equal; lia.
Qed.

End Pixels.

(** * The model on the examples of the source and of the specification *)

(** The scenario of the specification: 16 by 8 pixels, map byte 0xe1,
    payload 05. The left block keeps its content and the right block is
    filled with 5; one payload byte is consumed and counted. *)
Example scenario_e1 :
  match decodeFrame8 1000 16 8 0 [225] (store_of 0 [5] 0) 0 1 (fun _ => 9) with
  | Done st rest log =>
      bytes_at (dmem st) 0 16 = [9; 9; 9; 9; 9; 9; 9; 9; 5; 5; 5; 5; 5; 5; 5; 5] /\
      bytes_at (dmem st) 112 16 = [9; 9; 9; 9; 9; 9; 9; 9; 5; 5; 5; 5; 5; 5; 5; 5] /\
      pData st = 1 /\ pDataRemain st = 0 /\ rest = [] /\ log = []
  | _ => False
  end.
Proof. vm_compute. repeat split. Qed.

(** The first example in the source comment of encoding 0x7:
    [11 22 fe 83 83 83 83 83 83 fe]. *)
Example comment_0x7_rows :
  let data := store_of 0 [17; 34; 254; 131; 131; 131; 131; 131; 131; 254] 0 in
  let st := dispatchDecoder data 0 1000 8 8 7 (mkD (fun _ => 0) 0 0 10 0 0) in
  bytes_at (dmem st) 0 64
  = [17; 34; 34; 34; 34; 34; 34; 34;
     34; 34; 17; 17; 17; 17; 17; 34;
     34; 34; 17; 17; 17; 17; 17; 34;
     34; 34; 17; 17; 17; 17; 17; 34;
     34; 34; 17; 17; 17; 17; 17; 34;
     34; 34; 17; 17; 17; 17; 17; 34;
     34; 34; 17; 17; 17; 17; 17; 34;
     17; 34; 34; 34; 34; 34; 34; 34].
Proof. vm_compute. reflexivity. Qed.

(** The third example in the source comment of encoding 0x8 (two halves,
    one above the other): [22 00 cc 66 33 19 66 11 18 24 42 81]. *)
Example comment_0x8_halves :
  let data := store_of 0 [34; 0; 204; 102; 51; 25; 102; 17; 24; 36; 66; 129] 0 in
  let st := dispatchDecoder data 0 1000 8 8 8 (mkD (fun _ => 0) 0 0 12 0 0) in
  bytes_at (dmem st) 0 64
  = [34; 34; 0; 0; 34; 34; 0; 0;
     34; 0; 0; 34; 34; 0; 0; 34;
     0; 0; 34; 34; 0; 0; 34; 34;
     0; 34; 34; 0; 0; 34; 34; 34;
     102; 102; 102; 17; 17; 102; 102; 102;
     102; 102; 17; 102; 102; 17; 102; 102;
     102; 17; 102; 102; 102; 102; 17; 102;
     17; 102; 102; 102; 102; 102; 102; 17] /\
  pData st = 12.
Proof. vm_compute. split; reflexivity. Qed.

(** * The properties the specification states *)

(** ** Payload accounting *)

Lemma consumed_other data pD c : ~ 0 <= c <= 15 -> consumed data pD c = 0.
Proof.
  intros Hc. unfold consumed.
  destruct c as [|p|p]; [lia | | reflexivity].
  do 4 (destruct p as [p|p|]; try reflexivity; try lia).
Qed.

(** C1, as amended. Dispatching one block of encoding [c] moves the
    payload cursor on by exactly [consumed] bytes: none for 0x0, 0x1 and
    0x6; 1 for 0x2, 0x3, 0x4 and 0xe; 2 for 0x5 and 0xf; 10 or 4 for 0x7;
    16 or 12 for 0x8; 20, 8 or 12 for 0x9; 32 or 24 for 0xa; 64 for 0xb;
    16 for 0xc; 4 for 0xd. Every encoding other than 0x7 to 0xa lowers
    [pDataRemain] by that same number. *)
Theorem dispatch_payload_consumed data vBackBuf1 vBackBuf2 width height c st :
  let st' := dispatchDecoder data vBackBuf1 vBackBuf2 width height c st in
  pData st' = pData st + consumed data (pData st) c /\
  (keeps_count c = true ->
   pDataRemain st' = pDataRemain st - consumed data (pData st) c).
Proof.
  intros st'. subst st'.
  destruct (Z.eq_dec c 6) as [-> | H6].
  - destruct (op6_keeps width height st) as (_ & HD & HR).
    change (dispatchDecoder data vBackBuf1 vBackBuf2 width height 6 st)
      with (op6 width height st).
    rewrite HD, HR. cbn [consumed]. split; [lia | intros _; lia].
  - destruct (Z_le_dec 0 c) as [H0|H0]; [destruct (Z_le_dec c 15) as [H15|H15]|].
    + destruct (dispatch_step data vBackBuf1 vBackBuf2 width height c st
                  (conj H0 H15) H6) as (_ & HD & HR & _).
      split; [exact HD|]. intros Hk. rewrite HR. unfold accounted. now rewrite Hk.
    + rewrite dispatch_other, consumed_other by lia. split; [lia | intros _; lia].
    + rewrite dispatch_other, consumed_other by lia. split; [lia | intros _; lia].
Qed.

(** The raw-block encoding 0xb on a concrete state: 64 bytes consumed and
    taken off the remaining count. *)
Lemma dispatch_payload_consumed_witness :
  let st := mkD (fun _ => 0) 0 0 100 0 0 in
  let st' := dispatchDecoder (fun a => a mod 256) 0 1000 16 8 11 st in
  keeps_count 11 = true /\
  pData st' = 64 /\
  pDataRemain st' = 36.
Proof.
  split; [reflexivity|].
  exact (conj
           (proj1 (dispatch_payload_consumed (fun a => a mod 256) 0 1000 16 8 11
                     (mkD (fun _ => 0) 0 0 100 0 0)))
           (proj2 (dispatch_payload_consumed (fun a => a mod 256) 0 1000 16 8 11
                     (mkD (fun _ => 0) 0 0 100 0 0)) eq_refl)).
Defined.

(** C1 as the specification states it fails on encoding 0x8: with
    [P0 <= P1] it consumes 16 bytes, which is not within the 18 to 20 of
    the table, and the remaining count is not lowered at all. *)
Lemma table_payload_fails_0x8 :
  let data := fun _ : Z => 0 in
  let st := mkD (fun _ => 0) 0 0 100 0 0 in
  let st' := dispatchDecoder data 0 1000 16 8 8 st in
  ~ (table_payload 8 (pData st' - pData st) /\
     pDataRemain st' = pDataRemain st - (pData st' - pData st)).
Proof.
  intros data st st'.
  assert (HD : pData st' = 16) by (vm_compute; reflexivity).
  assert (HR : pDataRemain st' = 100) by (vm_compute; reflexivity).
  rewrite HD, HR. cbn [table_payload pData pDataRemain st]. lia.
Qed.

(** ** The write cursor *)

(** X28. Every encoding but 0x6 moves the write cursor on by exactly 8 bytes,
    one block to the right on the top row of the band, and leaves the
    block counters alone. Encoding 0x6 changes no pixel and reads no
    payload; it makes two skip passes, each moving the cursor on by 16
    bytes and raising the block-column counter by one. A pass that brings
    the column counter to [width/8] also adds the band jump of
    [7 * width], resets the column counter and raises the block-row
    counter, and leaves the dispatcher at once when that counter reaches
    [height/8]. *)
Lemma cursor_after_dispatch data vBackBuf1 vBackBuf2 width height st :
  (forall c, 0 <= c <= 15 -> c <> 6 ->
     let st' := dispatchDecoder data vBackBuf1 vBackBuf2 width height c st in
     pFrame st' = pFrame st + 8 /\ curXb st' = curXb st /\ curYb st' = curYb st) /\
  (let st' := dispatchDecoder data vBackBuf1 vBackBuf2 width height 6 st in
   let xb := width / 8 in
   let yb := height / 8 in
   dmem st' = dmem st /\
   pData st' = pData st /\
   (curXb st + 1 <> xb -> curXb st + 2 <> xb ->
    pFrame st' = pFrame st + 32 /\
    curXb st' = curXb st + 2 /\ curYb st' = curYb st) /\
   (curXb st + 1 <> xb -> curXb st + 2 = xb ->
    pFrame st' = pFrame st + 32 + 7 * width /\
    curXb st' = 0 /\ curYb st' = curYb st + 1) /\
   (curXb st + 1 = xb -> curYb st + 1 = yb ->
    pFrame st' = pFrame st + 16 + 7 * width /\
    curXb st' = 0 /\ curYb st' = curYb st + 1) /\
   (curXb st + 1 = xb -> curYb st + 1 <> yb -> xb <> 1 ->
    pFrame st' = pFrame st + 32 + 7 * width /\
    curXb st' = 1 /\ curYb st' = curYb st + 1) /\
   (curXb st + 1 = xb -> curYb st + 1 <> yb -> xb = 1 ->
    pFrame st' = pFrame st + 32 + 14 * width /\
    curXb st' = 0 /\ curYb st' = curYb st + 2)).
Proof.
  split.
  - intros c Hc H6 st'. subst st'.
    destruct (dispatch_step data vBackBuf1 vBackBuf2 width height c st Hc H6)
      as (HF & _ & _ & HX & HY).
    auto.
  - intros st' xb yb. subst st' xb yb.
    change (dispatchDecoder data vBackBuf1 vBackBuf2 width height 6 st)
      with (op6 width height st).
    destruct (op6_keeps width height st) as (HM & HD & _).
    split; [exact HM|]. split; [exact HD|].
    destruct st as [m pF pD rem xb yb]. unfold op6, op6_pass. fields.
    rewrite !Z.shiftr_div_pow2 by lia. change (2 ^ 3) with 8.
    repeat split; intros;
      repeat match goal with
             | |- context [?a =? ?b] => destruct (Z.eqb_spec a b); fields
             end;
      lia.
Qed.

(** The solid-fill encoding 0xe on a concrete state. *)
Example cursor_after_dispatch_fill :
  let st := mkD (fun _ => 0) 40 0 1 2 3 in
  let st' := dispatchDecoder (fun _ => 5) 0 1000 64 64 14 st in
  pFrame st' = 48 /\ curXb st' = 2 /\ curYb st' = 3.
Proof.
  exact (proj1 (cursor_after_dispatch (fun _ => 5) 0 1000 64 64
                  (mkD (fun _ => 0) 40 0 1 2 3)) 14 ltac:(lia) ltac:(lia)).
Defined.

(** C2. Encoding 0x6 is to skip two blocks, as the source comment says
    ("this skips the next two blocks"), but each of its two passes adds 16
    to the cursor: in a frame eight blocks wide, from block column 0, no
    row is wrapped, the column counter is raised by two, and the cursor
    moves on by 32 bytes, four blocks and not two. *)
Theorem skip_moves_four_blocks :
  let st := mkD (fun _ => 0) 0 0 0 0 0 in
  let st' := dispatchDecoder (fun _ => 0) 0 1000 64 8 6 st in
  curYb st' = curYb st /\
  curXb st' = curXb st + 2 /\
  pFrame st' - pFrame st = 4 * 8 /\
  ~ pFrame st' - pFrame st <= 2 * 8.
Proof. vm_compute. repeat split; discriminate || reflexivity || (intros H; now apply H). Qed.

(** ** Writes and the destination region *)

Lemma in_bands_in_frame base width height a :
  0 <= width -> 0 <= height ->
  in_bands width base (Z.to_nat (height / 8)) a -> in_frame base width height a.
Proof.
  intros Hw Hh (k & Hk & Hrows). apply in_rows_spec in Hrows as (r & Hr & Ha).
  unfold stride in Ha. rewrite Z2Nat.id in Ha by (apply Z.div_pos; lia).
  rewrite Z2Nat.id in Hk by (apply Z.div_pos; lia).
  change (Z.of_nat 8) with 8 in Hr.
  pose proof (Z.mul_div_le width 16 ltac:(lia)) as Hq.
  pose proof (Z.mul_div_le height 8 ltac:(lia)) as Hyb.
  assert (0 <= width / 16) by (apply Z.div_pos; lia).
  set (q := width / 16) in *. set (yb := height / 8) in *.
  assert (H1 : 0 <= k * (7 * width + 16 * q)) by nia.
  assert (H2 : k * (7 * width + 16 * q) <= k * (8 * width)) by nia.
  assert (H3 : 0 <= r * width <= 7 * width) by nia.
  assert (H4 : 8 * (k + 1) * width <= height * width) by nia.
  unfold in_frame. nia.
Qed.

(** C3, as amended. [decodeFrame8] does not stop an encoding from writing
    where the cursor stands; the test on the cursor comes after the
    dispatch and only reports. When no encoding of the map is 0x6, the
    decoder ends and no byte outside the [width * height] bytes of the
    destination is changed. *)
Theorem decode_without_skip_stays_in_frame
    vBackBuf2 width height pFrame pMap data pData dataRemain m :
  0 <= width -> 0 <= height ->
  Forall no_skip_byte pMap ->
  (Z.to_nat (height / 8) * Z.to_nat (width / 16) <= length pMap)%nat ->
  exists st rest log,
    decodeFrame8 vBackBuf2 width height pFrame pMap data pData dataRemain m
    = Done st rest log /\
    same_outside (in_frame pFrame width height) m (dmem st).
Proof.
  intros Hw Hh Hok Hlen.
  rewrite decodeFrame8_decode_frame by assumption. unfold decode_frame.
  pose proof (spec_rows_effect data pFrame vBackBuf2 width height
                (Z.to_nat (height / 8)) pMap (mkD m pFrame pData dataRemain 0 0) [] Hok)
    as Heff.
  destruct (spec_rows _ _ _ _ _ _ _ _ _) as [[[st rest] log]|]; [|lia].
  destruct Heff as (_ & _ & _ & _ & HM). fields.
  exists st, rest, log. split; [reflexivity|].
  eapply same_outside_weaken; [exact HM|].
  intros a. now apply in_bands_in_frame.
Qed.

(** A frame of 32 by 16 pixels filled by encoding 0xe throughout. *)
Lemma decode_without_skip_stays_in_frame_witness :
  exists st rest log,
    decodeFrame8 1000 32 16 0 [238; 238; 238; 238] (fun _ => 5) 0 8 (fun _ => 0)
    = Done st rest log /\
    same_outside (in_frame 0 32 16) (fun _ => 0) (dmem st).
Proof.
  apply (decode_without_skip_stays_in_frame 1000 32 16 0 [238; 238; 238; 238]
           (fun _ => 5) 0 8 (fun _ => 0)).
  - lia.
  - lia.
  - repeat constructor; vm_compute; intuition discriminate.
  - vm_compute. lia.
Defined.

(** C3 as the specification states it fails: in a frame of 16 by 8
    pixels the map byte 0xe6 first skips (the cursor leaves the 128 bytes
    of the frame, which is reported), then fills a block at the cursor, so
    that the byte at offset 144 is written. *)
Lemma skip_then_fill_writes_past_frame :
  match decodeFrame8 1000 16 8 0 [230] (store_of 0 [5] 0) 0 1 (fun _ => 0) with
  | Done st _ log =>
      dmem st 144 = 5 /\ (fun _ : Z => 0) 144 = 0 /\
      ~ in_frame 0 16 8 144 /\
      log = [mkDiag AboveBuf 0 1 1 6; mkDiag AboveBuf 0 1 2 14]
  | _ => False
  end.
Proof.
  vm_compute. repeat split. intros [_ H]. discriminate.
Qed.

(** ** Encoding 0x9 *)

(** C4, as amended. Encoding 0x9 reads four colours [P0] to [P3] and takes
    the unit of its 2-bit pattern from the two comparisons: [P0 <= P1] and
    [P2 <= P3] give single pixels and 16 pattern bytes; [P0 <= P1] and
    [P2 > P3] give cells of 2 by 2 pixels and 4 pattern bytes; [P0 > P1]
    and [P2 <= P3] give cells 2 wide and 1 high and 8 pattern bytes;
    [P0 > P1] and [P2 > P3] give cells 1 wide and 2 high and 8 pattern
    bytes. The payload consumed is 20, 8, 12 and 12 bytes. *)
Theorem op9_granularity data vBackBuf1 vBackBuf2 width height st :
  8 <= width ->
  let pD := pData st in
  let pF := pFrame st in
  let P := Arr4 (data pD) (data (pD + 1)) (data (pD + 2)) (data (pD + 3)) in
  let st' := dispatchDecoder data vBackBuf1 vBackBuf2 width height 9 st in
  (data pD <= data (pD + 1) -> data (pD + 2) <= data (pD + 3) ->
   pData st' = pD + 20 /\
   forall r c, 0 <= r < 8 -> 0 <= c < 8 ->
     dmem st' (pF + r * width + c)
     = at4 P (pick2 (word16 (data (pD + 4 + 2 * r)) (data (pD + 5 + 2 * r))) c)) /\
  (data pD <= data (pD + 1) -> data (pD + 2) > data (pD + 3) ->
   pData st' = pD + 8 /\
   forall r c, 0 <= r < 8 -> 0 <= c < 8 ->
     dmem st' (pF + r * width + c) = at4 P (pick2 (data (pD + 4 + r / 2)) (c / 2))) /\
  (data pD > data (pD + 1) -> data (pD + 2) <= data (pD + 3) ->
   pData st' = pD + 12 /\
   forall r c, 0 <= r < 8 -> 0 <= c < 8 ->
     dmem st' (pF + r * width + c) = at4 P (pick2 (data (pD + 4 + r)) (c / 2))) /\
  (data pD > data (pD + 1) -> data (pD + 2) > data (pD + 3) ->
   pData st' = pD + 12 /\
   forall r c, 0 <= r < 8 -> 0 <= c < 8 ->
     dmem st' (pF + r * width + c)
     = at4 P (pick2 (word16 (data (pD + 4 + 2 * (r / 2)))
                       (data (pD + 5 + 2 * (r / 2)))) c)).
Proof.
  intros Hw pD pF P st'. subst pD pF P st'.
  change (dispatchDecoder data vBackBuf1 vBackBuf2 width height 9 st)
    with (op9 data width st).
  destruct (op9_step data width st) as (_ & HD & _). unfold consumed in HD.
  destruct st as [m pF pD rem xb yb]. fields.
  split; [|split; [|split]]; intros H01 H23; (split; [rewrite HD|]).
  - apply Z.leb_le in H01, H23. rewrite H01, H23. reflexivity.
  - now apply op9_1x1.
  - apply Z.leb_le in H01. apply Z.gt_lt, Z.leb_gt in H23.
    rewrite H01, H23. reflexivity.
  - now apply op9_2x2.
  - apply Z.gt_lt, Z.leb_gt in H01. rewrite H01. reflexivity.
  - now apply op9_2x1.
  - apply Z.gt_lt, Z.leb_gt in H01. rewrite H01. reflexivity.
  - now apply op9_1x2.
Qed.

(** The colours 1, 2, 9, 4 ask for cells of 2 by 2 pixels. *)
Lemma op9_granularity_witness :
  let data := store_of 0 [1; 2; 9; 4; 27; 228; 27; 228] 0 in
  let st := mkD (fun _ => 0) 0 0 8 0 0 in
  let st' := dispatchDecoder data 0 1000 16 8 9 st in
  8 <= 16 /\
  pData st' = 0 + 8 /\
  dmem st' (0 + 3 * 16 + 5) = at4 (Arr4 1 2 9 4) (pick2 (data (0 + 4 + 3 / 2)) (5 / 2)).
Proof.
  split; [lia|].
  destruct (op9_granularity (store_of 0 [1; 2; 9; 4; 27; 228; 27; 228] 0) 0 1000 16 8
              (mkD (fun _ => 0) 0 0 8 0 0) ltac:(lia)) as (_ & H & _).
  destruct (H ltac:(vm_compute; discriminate) ltac:(reflexivity)) as (HD & HM).
  split; [exact HD|]. apply HM; lia.
Defined.

(** C4 as the specification states it fails on its second branch: the
    colours 1, 2, 9, 4 ([P0 <= P1], [P2 > P3]) make encoding 0x9 consume 8
    bytes, not 12. *)
Lemma op9_2x2_consumes_8 :
  let data := store_of 0 [1; 2; 9; 4; 27; 228; 27; 228] 0 in
  let st := mkD (fun _ => 0) 0 0 8 0 0 in
  let st' := dispatchDecoder data 0 1000 16 8 9 st in
  data 0 <= data 1 /\ data 2 > data 3 /\
  pData st' - pData st = 8 /\ ~ pData st' - pData st = 12.
Proof. vm_compute. repeat split; discriminate. Qed.

(** ** Encoding 0x7 *)

(** C5. Encoding 0x7 reads two colours [P0], [P1]. With [P0 <= P1] it
    reads 8 more bytes, one for each pixel row; bit [c] of the byte of a
    row, the least significant bit first, chooses [P1] (set) or [P0]
    (clear) for the pixel in column [c]. With [P0 > P1] it reads 2 more
    bytes; each holds two 4-bit patterns, the low nibble for the upper and
    the high nibble for the lower of the two row pairs of the byte, and
    each bit chooses the colour of a cell of 2 by 2 pixels, the least
    significant bit the leftmost cell. *)
Theorem op7_two_colour_pattern data vBackBuf1 vBackBuf2 width height st :
  8 <= width ->
  let pD := pData st in
  let pF := pFrame st in
  let P0 := data pD in
  let P1 := data (pD + 1) in
  let st' := dispatchDecoder data vBackBuf1 vBackBuf2 width height 7 st in
  (P0 <= P1 ->
   pData st' = pD + 2 + 8 /\
   forall r c, 0 <= r < 8 -> 0 <= c < 8 ->
     dmem st' (pF + r * width + c)
     = if Z.testbit (data (pD + 2 + r)) c then P1 else P0) /\
  (P0 > P1 ->
   pData st' = pD + 2 + 2 /\
   forall r c, 0 <= r < 8 -> 0 <= c < 8 ->
     dmem st' (pF + r * width + c)
     = if Z.testbit (data (pD + 2 + r / 4)) (4 * ((r / 2) mod 2) + c / 2)
       then P1 else P0).
Proof.
  intros Hw pD pF P0 P1 st'. subst pD pF P0 P1 st'.
  change (dispatchDecoder data vBackBuf1 vBackBuf2 width height 7 st)
    with (op7 data width st).
  destruct (op7_step data width st) as (_ & HD & _). unfold consumed in HD.
  destruct st as [m pF pD rem xb yb]. fields.
  split; intros H01; (split; [rewrite HD|]).
  - apply Z.leb_le in H01. rewrite H01. lia.
  - now apply op7_rows.
  - apply Z.gt_lt, Z.leb_gt in H01. rewrite H01. lia.
  - now apply op7_cells.
Qed.

(** The block drawn in the source comment of encoding 0x7:
    [11 22 fe 83 83 83 83 83 83 fe]. *)
Lemma op7_two_colour_pattern_witness :
  let data := store_of 0 [17; 34; 254; 131; 131; 131; 131; 131; 131; 254] 0 in
  let st := mkD (fun _ => 0) 0 0 10 0 0 in
  let st' := dispatchDecoder data 0 1000 16 8 7 st in
  8 <= 16 /\
  pData st' = 0 + 2 + 8 /\
  dmem st' (0 + 1 * 16 + 2)
  = if Z.testbit (data (0 + 2 + 1)) 2 then data (0 + 1) else data 0.
Proof.
  split; [lia|].
  destruct (op7_two_colour_pattern
              (store_of 0 [17; 34; 254; 131; 131; 131; 131; 131; 131; 254] 0)
              0 1000 16 8 (mkD (fun _ => 0) 0 0 10 0 0) ltac:(lia)) as (H & _).
  destruct (H ltac:(vm_compute; discriminate)) as (HD & HM).
  split; [exact HD|]. apply HM; lia.
Defined.

(** ** Encoding 0x2 *)

(** C7. Encoding 0x2 consumes one payload byte [B] and copies the block
    from the current buffer at the offset of the "far" mapping: [B < 56]
    gives [x = 8 + B mod 7] and [y = B / 7], otherwise
    [x = -14 + (B - 56) mod 29] and [y = 8 + (B - 56) / 29]. For [B = 10]
    the source block starts at the cursor plus [11 + 1 * width]. *)
Theorem op2_far_copy data vBackBuf1 vBackBuf2 width height st :
  8 <= width ->
  let B := data (pData st) in
  0 <= B < 256 ->
  let x := fst (far_offset B) in
  let y := snd (far_offset B) in
  let st' := dispatchDecoder data vBackBuf1 vBackBuf2 width height 2 st in
  pData st' = pData st + 1 /\
  pFrame st' = pFrame st + 8 /\
  (forall r c, 0 <= r < 8 -> 0 <= c < 8 ->
     dmem st' (pFrame st + r * width + c)
     = dmem st (pFrame st + x + y * width + r * width + c)) /\
  (B = 10 ->
   forall r c, 0 <= r < 8 -> 0 <= c < 8 ->
     dmem st' (pFrame st + r * width + c)
     = dmem st (pFrame st + 11 + 1 * width + r * width + c)).
Proof.
  intros Hw B HB x y st'. subst st'.
  change (dispatchDecoder data vBackBuf1 vBackBuf2 width height 2 st)
    with (op2 data width st).
  destruct (op2_step data width st) as (HF & HD & _).
  assert (Hcopy : forall r c, 0 <= r < 8 -> 0 <= c < 8 ->
            dmem (op2 data width st) (pFrame st + r * width + c)
            = dmem st (pFrame st + x + y * width + r * width + c)).
  { destruct st as [m pF pD rem xb yb]. fields. intros r c Hr Hc.
    apply op2_copy; try assumption. subst x y B. fields.
    now destruct (far_offset (data pD)). }
  repeat split; try assumption.
  intros H10 r c Hr Hc. rewrite Hcopy by assumption.
  subst x y. rewrite H10. reflexivity.
Qed.

(** The offset byte 10 of the scenario of the specification. *)
Lemma op2_far_copy_witness :
  let m := fun a : Z => a mod 251 in
  let st := mkD m 0 0 1 0 0 in
  let st' := dispatchDecoder (fun _ => 10) 0 1000 64 64 2 st in
  8 <= 64 /\ 0 <= 10 < 256 /\
  pData st' = 1 /\
  dmem st' (0 + 3 * 64 + 5) = m (0 + 11 + 1 * 64 + 3 * 64 + 5).
Proof.
  split; [lia|]. split; [lia|].
  destruct (op2_far_copy (fun _ => 10) 0 1000 64 64
              (mkD (fun a : Z => a mod 251) 0 0 1 0 0) ltac:(lia) ltac:(cbn; lia))
    as (HD & _ & _ & H10).
  split; [exact HD|]. apply (H10 eq_refl); lia.
Defined.

(** ** The grid walk *)

(** One pass of the outer loop of [decodeFrame8] over a map without
    encoding 0x6: the blocks of the row take [width/16] map bytes and move
    the cursor on by 16 bytes each, and the jump of [7 * width] follows. *)
Lemma outer_loop_one_row data vBackBuf1 vBackBuf2 width height fuel pMap st log :
  0 <= width ->
  Forall no_skip_byte pMap ->
  (Z.to_nat (width / 16) <= length pMap)%nat ->
  curYb st < Z.shiftr height 3 ->
  exists st' log',
    outer_loop data vBackBuf1 vBackBuf2 width height (S fuel) pMap st log
    = outer_loop data vBackBuf1 vBackBuf2 width height fuel
        (skipn (Z.to_nat (width / 16)) pMap) st' log' /\
    pFrame st' = pFrame st + 16 * Z.of_nat (Z.to_nat (width / 16)) + 7 * width /\
    curYb st' = curYb st + 1.
Proof.
  intros Hw Hok Hlen Hj. cbn [outer_loop].
  apply Z.ltb_lt in Hj. rewrite Hj.
  rewrite inner_loop_spec_row by exact Hok.
  replace (curXb (set_curXb st 0)) with 0 by now destruct st.
  rewrite Z.sub_0_r, quot_shift_width by exact Hw.
  pose proof (spec_row_effect data vBackBuf1 vBackBuf2 width height
                (Z.to_nat (width / 16)) pMap (set_curXb st 0) log Hok) as Hrow.
  destruct (spec_row data vBackBuf1 vBackBuf2 width height (Z.to_nat (width / 16))
              pMap (set_curXb st 0) log) as [[[st1 rest1] log1]|]; [|lia].
  destruct Hrow as (_ & -> & F1 & _ & Y1 & _).
  eexists. exists log1. split; [reflexivity|].
  destruct st, st1. fields. lia.
Qed.

Lemma stride_even width : 0 <= width -> width mod 16 = 0 -> stride width = 8 * width.
Proof.
  intros Hw Heven. unfold stride. rewrite Z2Nat.id by (apply Z.div_pos; lia).
  pose proof (Z.div_mod width 16 ltac:(lia)). lia.
Qed.

(** C6, as amended. When no encoding of the map is 0x6, [decodeFrame8]
    walks the frame as [height/8] block-rows; in each it takes [width/16]
    map bytes in order, dispatches the low nibble of a byte for the left
    block and then its high nibble for the right block, and after the
    blocks of the row it moves the write cursor on by exactly
    [7 * width]: every pass of the outer loop takes [width/16] bytes off
    the map and leaves the cursor [16 * (width/16) + 7 * width] bytes
    further on. When the width is a multiple of 16 that is [8 * width],
    the start of the next band of 8 pixel rows. With a map that is long
    enough the decode ends having read [height/8 * (width/16)] map bytes,
    the cursor that many passes from the start of the frame. *)
Theorem decodeFrame8_walks_grid
    vBackBuf2 width height base pMap data pData dataRemain m :
  0 <= width ->
  Forall no_skip_byte pMap ->
  decodeFrame8 vBackBuf2 width height base pMap data pData dataRemain m
  = outcome_of (decode_frame width height base vBackBuf2 pMap data pData dataRemain m) /\
  ((Z.to_nat (height / 8) * Z.to_nat (width / 16) <= length pMap)%nat ->
   exists st log,
     decodeFrame8 vBackBuf2 width height base pMap data pData dataRemain m
     = Done st (skipn (Z.to_nat (height / 8) * Z.to_nat (width / 16)) pMap) log /\
     pFrame st = base + Z.of_nat (Z.to_nat (height / 8)) * stride width /\
     (width mod 16 = 0 ->
      pFrame st = base + 8 * Z.of_nat (Z.to_nat (height / 8)) * width)) /\
  (forall fuel rows st log,
     Forall no_skip_byte rows ->
     (Z.to_nat (width / 16) <= length rows)%nat ->
     curYb st < Z.shiftr height 3 ->
     exists st' log',
       outer_loop data base vBackBuf2 width height (S fuel) rows st log
       = outer_loop data base vBackBuf2 width height fuel
           (skipn (Z.to_nat (width / 16)) rows) st' log' /\
       pFrame st' = pFrame st + 16 * Z.of_nat (Z.to_nat (width / 16)) + 7 * width /\
       curYb st' = curYb st + 1 /\
       (width mod 16 = 0 -> pFrame st' = pFrame st + 8 * width)).
Proof.
  intros Hw Hok. split; [now apply decodeFrame8_decode_frame|]. split.
  - intros Hlen. rewrite decodeFrame8_decode_frame by assumption. unfold decode_frame.
    pose proof (spec_rows_effect data base vBackBuf2 width height
                  (Z.to_nat (height / 8)) pMap (mkD m base pData dataRemain 0 0) [] Hok)
      as Heff.
    destruct (spec_rows _ _ _ _ _ _ _ _ _) as [[[st rest] log]|]; [|lia].
    destruct Heff as (_ & -> & HF & _). fields.
    exists st, log. split; [reflexivity|]. split; [exact HF|].
    intros Heven. rewrite HF, stride_even by assumption. ring.
  - intros fuel rows st log Hrows Hlen Hj.
    destruct (outer_loop_one_row data base vBackBuf2 width height fuel rows st log
                Hw Hrows Hlen Hj) as (st' & log' & Hrun & HF & HY).
    exists st', log'. split; [exact Hrun|]. split; [exact HF|]. split; [exact HY|].
    intros Heven. rewrite HF.
    pose proof (stride_even width Hw Heven) as Hs. unfold stride in Hs. lia.
Qed.

(** A frame of 16 by 16 pixels, map bytes 0xe1 and 0x1e: the decode ends
    with the cursor two bands from the start. *)
Lemma decodeFrame8_walks_grid_witness :
  0 <= 16 /\ Forall no_skip_byte [225; 30] /\
  decodeFrame8 1000 16 16 0 [225; 30] (fun _ => 5) 0 2 (fun _ => 9)
  = outcome_of (decode_frame 16 16 0 1000 [225; 30] (fun _ => 5) 0 2 (fun _ => 9)) /\
  exists st log,
    decodeFrame8 1000 16 16 0 [225; 30] (fun _ => 5) 0 2 (fun _ => 9) = Done st [] log /\
    pFrame st = 0 + 8 * 2 * 16.
Proof.
  assert (Hok : Forall no_skip_byte [225; 30])
    by (repeat constructor; vm_compute; intuition discriminate).
  split; [lia|]. split; [exact Hok|].
  destruct (decodeFrame8_walks_grid 1000 16 16 0 [225; 30] (fun _ => 5) 0 2 (fun _ => 9)
              ltac:(lia) Hok) as (Hwalk & Hend & _).
  split; [exact Hwalk|].
  destruct (Hend ltac:(vm_compute; lia)) as (st & log & Hrun & _ & Hband).
  exists st, log. split; [exact Hrun|]. exact (Hband eq_refl).
Defined.

(** In a frame 24 pixels wide the row takes one map byte, and the jump of
    [7 * width] leaves the cursor at byte 184, 8 bytes short of the next
    band of 8 pixel rows, which starts at byte 192. *)
Example row_jump_short_of_band :
  match decodeFrame8 1000 24 8 0 [17] (fun _ => 0) 0 0 (fun _ => 0) with
  | Done st rest _ => pFrame st = 184 /\ rest = [] /\ 0 + 8 * 24 = 192
  | _ => False
  end.
Proof. vm_compute. repeat split. Qed.

(** C6 as the specification states it fails when the map holds encoding
    0x6: in a frame of 16 by 16 pixels the map byte 0x16 raises the row
    counter inside the first block-row, so that [decodeFrame8] walks one
    block-row and never reads the second map byte, where the walk of
    [height/8] rows of [width/16] bytes reads both. *)
Lemma skip_cuts_the_walk_short :
  match decodeFrame8 1000 16 16 0 [22; 225] (fun _ => 5) 0 1 (fun _ => 0),
        decode_frame 16 16 0 1000 [22; 225] (fun _ => 5) 0 1 (fun _ => 0) with
  | Done _ rest _, Some (_, rest', _) => rest = [225] /\ rest' = []
  | _, _ => False
  end.
Proof. vm_compute. split; reflexivity. Qed.

(** ** A map of encoding 0x1 throughout *)

Lemma spec_row_unchanged data vBackBuf1 vBackBuf2 width height n :
  forall pMap st log,
  Forall (fun b => b = 17) pMap ->
  match spec_row data vBackBuf1 vBackBuf2 width height n pMap st log with
  | Some (st', _, _) => dmem st' = dmem st
  | None => True
  end.
Proof.
  induction n as [|n IH]; intros pMap st log Hall; cbn [spec_row]; [reflexivity|].
  destruct pMap as [|b rest]; [exact I|].
  inversion Hall as [|? ? Hb Hrest]; subst.
  unfold spec_pair. change (17 mod 16) with 1. change (17 / 16) with 1.
  cbn [dispatchDecoder].
  match goal with
  | |- context [spec_row _ _ _ _ _ n rest ?s ?l] =>
      specialize (IH rest s l Hrest);
      destruct (spec_row data vBackBuf1 vBackBuf2 width height n rest s l)
        as [[[st' rest'] log']|]; [|exact I]
  end.
  rewrite IH. now destruct st.
Qed.

Lemma spec_rows_unchanged data vBackBuf1 vBackBuf2 width height n :
  forall pMap st log,
  Forall (fun b => b = 17) pMap ->
  match spec_rows data vBackBuf1 vBackBuf2 width height n pMap st log with
  | Some (st', _, _) => dmem st' = dmem st
  | None => True
  end.
Proof.
  induction n as [|n IH]; intros pMap st log Hall; cbn [spec_rows]; [reflexivity|].
  pose proof (spec_row_unchanged data vBackBuf1 vBackBuf2 width height
                (Z.to_nat (width / 16)) pMap (set_curXb st 0) log Hall) as Hrow.
  assert (Hall' : Forall no_skip_byte pMap).
  { eapply Forall_impl; [|exact Hall]. intros b ->.
    vm_compute. intuition discriminate. }
  pose proof (spec_row_effect data vBackBuf1 vBackBuf2 width height
                (Z.to_nat (width / 16)) pMap (set_curXb st 0) log Hall') as Heff.
  destruct (spec_row _ _ _ _ _ _ _ _ _) as [[[st1 rest1] log1]|]; [|exact I].
  destruct Heff as (_ & -> & _). cbv zeta.
  match goal with
  | |- context [spec_rows _ _ _ _ _ n ?r ?s ?l] =>
      specialize (IH r s l (Forall_skipn_keeps _ _ _ Hall));
      destruct (spec_rows data vBackBuf1 vBackBuf2 width height n r s l)
        as [[[st' rest'] log']|]; [|exact I]
  end.
  rewrite IH. destruct st1, st. fields. exact Hrow.
Qed.

(** C8, as amended. Decoding a frame whose map is encoding 0x1 throughout
    ends and leaves the destination buffer, and all of the memory, as it
    was on entry; the destination equals the buffer passed as the frame
    of two cycles before only where it did on entry. *)
Theorem unchanged_map_keeps_destination
    vBackBuf2 width height pFrame pMap data pData dataRemain m :
  0 <= width ->
  Forall (fun b => b = 17) pMap ->
  (Z.to_nat (height / 8) * Z.to_nat (width / 16) <= length pMap)%nat ->
  exists st rest log,
    decodeFrame8 vBackBuf2 width height pFrame pMap data pData dataRemain m
    = Done st rest log /\
    dmem st = m.
Proof.
  intros Hw Hall Hlen.
  assert (Hok : Forall no_skip_byte pMap).
  { eapply Forall_impl; [|exact Hall]. intros b ->.
    vm_compute. intuition discriminate. }
  rewrite decodeFrame8_decode_frame by assumption. unfold decode_frame.
  pose proof (spec_rows_effect data pFrame vBackBuf2 width height
                (Z.to_nat (height / 8)) pMap (mkD m pFrame pData dataRemain 0 0) [] Hok)
    as Heff.
  pose proof (spec_rows_unchanged data pFrame vBackBuf2 width height
                (Z.to_nat (height / 8)) pMap (mkD m pFrame pData dataRemain 0 0) [] Hall)
    as Hkeep.
  destruct (spec_rows _ _ _ _ _ _ _ _ _) as [[[st rest] log]|]; [|lia].
  exists st, rest, log. split; [reflexivity | exact Hkeep].
Qed.

(** A frame of 32 by 16 pixels. *)
Lemma unchanged_map_keeps_destination_witness :
  exists st rest log,
    decodeFrame8 1000 32 16 0 [17; 17; 17; 17] (fun _ => 0) 0 0 (fun a => a mod 7)
    = Done st rest log /\
    dmem st = (fun a => a mod 7).
Proof.
  apply (unchanged_map_keeps_destination 1000 32 16 0 [17; 17; 17; 17]
           (fun _ => 0) 0 0 (fun a => a mod 7)).
  - lia.
  - repeat constructor.
  - vm_compute. lia.
Defined.

(** C8 as the specification states it fails: the destination holds 0
    and the historical buffer, at address 1000, holds 7; after the map
    byte 0x11 the destination still holds 0. *)
Lemma unchanged_map_is_not_a_copy :
  let m := fun a : Z => if a <? 1000 then 0 else 7 in
  match decodeFrame8 1000 16 8 0 [17] (fun _ => 0) 0 0 m with
  | Done st _ _ => dmem st (0 + 0) = 0 /\ m (1000 + 0) = 7 /\
                   dmem st (0 + 0) <> m (1000 + 0)
  | _ => False
  end.
Proof. vm_compute. repeat split. discriminate. Qed.

(** ** Diagnostics *)

Section Reports.

Variable data : Z -> Z.
Variables vBackBuf1 vBackBuf2 width height : Z.

Lemma report_diag which code st log :
  report vBackBuf1 width height which code st log
  = log ++ diag_if_out vBackBuf1 width height which code st.
Proof.
  rewrite report_spec_check. unfold spec_check, diag_if_out.
  destruct (_ && _); [now rewrite app_nil_r | reflexivity].
Qed.

Lemma block_pair_app m st l log :
  block_pair data vBackBuf1 vBackBuf2 width height m st (l ++ log)
  = (fst (block_pair data vBackBuf1 vBackBuf2 width height m st log),
     l ++ snd (block_pair data vBackBuf1 vBackBuf2 width height m st log)).
Proof.
  unfold block_pair. cbn [fst snd]. rewrite !report_diag, !app_assoc. reflexivity.
Qed.

Lemma inner_loop_app pMap : forall st l log,
  inner_loop data vBackBuf1 vBackBuf2 width height pMap st (l ++ log)
  = match inner_loop data vBackBuf1 vBackBuf2 width height pMap st log with
    | Some (st', rest, log') => Some (st', rest, l ++ log')
    | None => None
    end.
Proof.
  induction pMap as [|m pMap IH]; intros st l log; cbn [inner_loop].
  - now destruct (_ <? _).
  - destruct (_ <? _); [|reflexivity].
    rewrite block_pair_app.
    destruct (block_pair data vBackBuf1 vBackBuf2 width height m st log) as [st1 log1].
    cbn [fst snd]. apply IH.
Qed.

Lemma outer_loop_app fuel : forall pMap st l log,
  outer_loop data vBackBuf1 vBackBuf2 width height fuel pMap st (l ++ log)
  = prepend_log l (outer_loop data vBackBuf1 vBackBuf2 width height fuel pMap st log).
Proof.
  induction fuel as [|fuel IH]; intros pMap st l log; cbn [outer_loop].
  - now destruct (_ <? _).
  - destruct (_ <? _); [|reflexivity].
    rewrite inner_loop_app.
    destruct (inner_loop _ _ _ _ _ _ _ _) as [[[st1 rest1] log1]|]; [|reflexivity].
    apply IH.
Qed.

(** *** The walk and its bounds test *)

Lemma diags_of_app l1 l2 :
  diags_of vBackBuf1 width height (l1 ++ l2)
  = diags_of vBackBuf1 width height l1 ++ diags_of vBackBuf1 width height l2.
Proof. unfold diags_of. apply flat_map_app. Qed.

Lemma block_pair_unchecked m st blocks :
  block_pair data vBackBuf1 vBackBuf2 width height m st
    (diags_of vBackBuf1 width height blocks)
  = (fst (unchecked_pair data vBackBuf1 vBackBuf2 width height m st),
     diags_of vBackBuf1 width height
       (blocks ++ snd (unchecked_pair data vBackBuf1 vBackBuf2 width height m st))).
Proof.
  unfold block_pair, unchecked_pair. cbn [fst snd].
  rewrite !report_diag, diags_of_app. unfold diags_of at 3.
  cbn [flat_map dp_which dp_code dp_after]. now rewrite app_nil_r, app_assoc.
Qed.

Lemma inner_loop_unchecked pMap : forall st blocks,
  inner_loop data vBackBuf1 vBackBuf2 width height pMap st
    (diags_of vBackBuf1 width height blocks)
  = match unchecked_inner data vBackBuf1 vBackBuf2 width height pMap st blocks with
    | Some (st', rest, blocks') => Some (st', rest, diags_of vBackBuf1 width height blocks')
    | None => None
    end.
Proof.
  induction pMap as [|m pMap IH]; intros st blocks;
    cbn [inner_loop unchecked_inner].
  - now destruct (_ <? _).
  - destruct (_ <? _); [|reflexivity].
    rewrite block_pair_unchecked.
    destruct (unchecked_pair data vBackBuf1 vBackBuf2 width height m st) as [st2 two].
    cbn [fst snd]. apply IH.
Qed.

Lemma outer_loop_unchecked fuel : forall pMap st blocks,
  outer_loop data vBackBuf1 vBackBuf2 width height fuel pMap st
    (diags_of vBackBuf1 width height blocks)
  = with_diags vBackBuf1 width height
      (unchecked_outer data vBackBuf1 vBackBuf2 width height fuel pMap st blocks).
Proof.
  induction fuel as [|fuel IH]; intros pMap st blocks;
    cbn [outer_loop unchecked_outer].
  - now destruct (_ <? _).
  - destruct (_ <? _); [|reflexivity].
    rewrite inner_loop_unchecked.
    destruct (unchecked_inner _ _ _ _ _ _ _ _) as [[[st1 rest1] blocks1]|];
      [|reflexivity].
    apply IH.
Qed.

(** Two blocks are dispatched for every byte taken off the map. *)
Lemma unchecked_inner_blocks pMap : forall st blocks st' rest blocks',
  unchecked_inner data vBackBuf1 vBackBuf2 width height pMap st blocks
  = Some (st', rest, blocks') ->
  (length blocks' + 2 * length rest = length blocks + 2 * length pMap)%nat.
Proof.
  induction pMap as [|m pMap IH]; intros st blocks st' rest blocks';
    cbn [unchecked_inner].
  - destruct (_ <? _); [discriminate|]. intros [= _ <- <-]. reflexivity.
  - destruct (_ <? _); [|intros [= _ <- <-]; reflexivity].
    unfold unchecked_pair. intros H. apply IH in H.
    rewrite length_app in H. cbn [length] in H |- *. lia.
Qed.

Lemma unchecked_outer_blocks fuel : forall pMap st blocks st' rest blocks',
  unchecked_outer data vBackBuf1 vBackBuf2 width height fuel pMap st blocks
  = UDone st' rest blocks' ->
  (length blocks' + 2 * length rest = length blocks + 2 * length pMap)%nat.
Proof.
  induction fuel as [|fuel IH]; intros pMap st blocks st' rest blocks';
    cbn [unchecked_outer].
  - destruct (_ <? _); [discriminate|]. intros [= _ <- <-]. reflexivity.
  - destruct (_ <? _); [|intros [= _ <- <-]; reflexivity].
    destruct (unchecked_inner _ _ _ _ _ _ _ _) as [[[st1 rest1] blocks1]|] eqn:E;
      [|discriminate].
    apply unchecked_inner_blocks in E. intros H. apply IH in H. lia.
Qed.

(** The loops are left by their own conditions only. *)
Lemma inner_loop_exit pMap : forall st log st' rest log',
  inner_loop data vBackBuf1 vBackBuf2 width height pMap st log = Some (st', rest, log') ->
  Z.quot (Z.shiftr width 3) 2 <= curXb st'.
Proof.
  induction pMap as [|m pMap IH]; intros st log st' rest log'; cbn [inner_loop].
  - destruct (Z.ltb_spec (curXb st) (Z.quot (Z.shiftr width 3) 2)); [discriminate|].
    intros [= <- _ _]. lia.
  - destruct (Z.ltb_spec (curXb st) (Z.quot (Z.shiftr width 3) 2));
      [|intros [= <- _ _]; lia].
    destruct (block_pair _ _ _ _ _ _ _ _) as [st2 log2]. apply IH.
Qed.

Lemma outer_loop_exit fuel : forall pMap st log st' rest log',
  outer_loop data vBackBuf1 vBackBuf2 width height fuel pMap st log = Done st' rest log' ->
  Z.shiftr height 3 <= curYb st' /\
  (st' = st \/ Z.quot (Z.shiftr width 3) 2 <= curXb st').
Proof.
  induction fuel as [|fuel IH]; intros pMap st log st' rest log'; cbn [outer_loop].
  - destruct (Z.ltb_spec (curYb st) (Z.shiftr height 3)); [discriminate|].
    intros [= <- _ _]. split; [lia | now left].
  - destruct (Z.ltb_spec (curYb st) (Z.shiftr height 3));
      [|intros [= <- _ _]; split; [lia | now left]].
    destruct (inner_loop _ _ _ _ _ _ _ _) as [[[st1 rest1] log1]|] eqn:E;
      [|discriminate].
    apply inner_loop_exit in E. intros Hrun. apply IH in Hrun as (HY & [-> | HX]).
    + split; [exact HY|]. right. destruct st1. fields. exact E.
    + split; [exact HY | now right].
Qed.

End Reports.

(** C9. After each of the two dispatches of a map byte, [decodeFrame8]
    compares the write cursor with the destination
    [vBackBuf1, vBackBuf1 + width * height): inside, nothing is reported;
    outside, one critical message is added that carries the opcode and the
    block counters. The second block is dispatched from the state the
    first one left, reported or not, and the walk goes on the same
    whatever has been reported before. For every frame, map and payload
    the decode is the walk that never looks at the cursor
    ([decode_unchecked]) together with the messages of the blocks that
    walk dispatches, one for each block that left the cursor outside the
    destination: no report keeps a block from being dispatched. The walk
    dispatches two blocks for every byte it takes off the map, and a
    decode that ends, whatever it has reported, has left both loops by
    their own conditions, the block-row counter at [height >> 3] or
    beyond and, when a block-row has been walked, the counter of map
    bytes in the row at [(width >> 3) / 2] or beyond. *)
Theorem cursor_reported_not_enforced data vBackBuf1 vBackBuf2 width height :
  (forall m st log,
     let lo := Z.land m 15 in
     let hi := Z.shiftr m 4 in
     let st1 := dispatchDecoder data vBackBuf1 vBackBuf2 width height (u8 lo) st in
     let st2 := dispatchDecoder data vBackBuf1 vBackBuf2 width height (u8 hi) st1 in
     block_pair data vBackBuf1 vBackBuf2 width height m st log
     = (st2,
        (log ++ diag_if_out vBackBuf1 width height 1 lo st1)
        ++ diag_if_out vBackBuf1 width height 2 hi st2)) /\
  (forall fuel pMap st l,
     outer_loop data vBackBuf1 vBackBuf2 width height fuel pMap st l
     = prepend_log l (outer_loop data vBackBuf1 vBackBuf2 width height fuel pMap st [])) /\
  (forall pMap pD dataRemain m,
     decodeFrame8 vBackBuf2 width height vBackBuf1 pMap data pD dataRemain m
     = with_diags vBackBuf1 width height
         (decode_unchecked vBackBuf2 width height vBackBuf1 pMap data pD dataRemain m)) /\
  (forall pMap pD dataRemain m st rest blocks,
     decode_unchecked vBackBuf2 width height vBackBuf1 pMap data pD dataRemain m
     = UDone st rest blocks ->
     (length blocks + 2 * length rest = 2 * length pMap)%nat) /\
  (forall pMap pD dataRemain m st rest log,
     decodeFrame8 vBackBuf2 width height vBackBuf1 pMap data pD dataRemain m
     = Done st rest log ->
     Z.shiftr height 3 <= curYb st /\
     (0 < Z.shiftr height 3 -> Z.quot (Z.shiftr width 3) 2 <= curXb st)).
Proof.
  split; [|split; [|split; [|split]]].
  - intros m st log lo hi st1 st2. unfold block_pair.
    rewrite !report_diag. reflexivity.
  - intros fuel pMap st l. rewrite <- outer_loop_app. now rewrite app_nil_r.
  - intros pMap pD dataRemain m. unfold decodeFrame8, decode_unchecked.
    apply (outer_loop_unchecked data vBackBuf1 vBackBuf2 width height _ pMap _ []).
  - intros pMap pD dataRemain m st rest blocks H. unfold decode_unchecked in H.
    apply unchecked_outer_blocks in H. cbn [length] in H. lia.
  - intros pMap pD dataRemain m st rest log H. unfold decodeFrame8 in H.
    apply outer_loop_exit in H as (HY & [-> | HX]); fields.
    + split; [exact HY | lia].
    + split; [exact HY | intros _; exact HX].
Qed.

(** A frame of 32 by 8 pixels, map bytes 0x66 and 0xee: the second
    encoding 0x6 leaves the cursor at byte 288, past the 256 bytes of the
    frame, which is reported; the second map byte is taken all the same,
    both its blocks are filled past the frame and reported, and the
    decode ends with the whole map read. *)
Example decode_goes_on_after_report :
  match decodeFrame8 1000 32 8 0 [102; 238] (fun _ => 5) 0 2 (fun _ => 0) with
  | Done st rest log =>
      rest = [] /\
      log = [mkDiag AboveBuf 0 1 2 6; mkDiag AboveBuf 1 1 1 14; mkDiag AboveBuf 1 1 2 14] /\
      dmem st 288 = 5 /\ dmem st 296 = 5
  | _ => False
  end.
Proof. vm_compute. repeat split. Qed.

(** ** A frame with an odd number of block columns *)

Lemma outer_loop_width8 data vBackBuf1 vBackBuf2 height fuel :
  forall pMap st log,
  (Z.to_nat (Z.shiftr height 3 - curYb st) <= fuel)%nat ->
  exists st',
    outer_loop data vBackBuf1 vBackBuf2 8 height fuel pMap st log = Done st' pMap log /\
    dmem st' = dmem st.
Proof.
  induction fuel as [|fuel IH]; intros pMap st log Hfuel; cbn [outer_loop].
  - destruct (Z.ltb_spec (curYb st) (Z.shiftr height 3)); [lia|]. now exists st.
  - destruct (Z.ltb_spec (curYb st) (Z.shiftr height 3)); [|now exists st].
    assert (Hin : inner_loop data vBackBuf1 vBackBuf2 8 height pMap (set_curXb st 0) log
                  = Some (set_curXb st 0, pMap, log))
      by (destruct st, pMap; reflexivity).
    rewrite Hin.
    match goal with
    | |- context [outer_loop _ _ _ _ _ fuel pMap ?s log] =>
        destruct (IH pMap s log) as (st' & Hrun & Hmem)
    end.
    + destruct st. fields. lia.
    + exists st'. split; [exact Hrun|]. rewrite Hmem. now destruct st.
Qed.

Lemma stride_odd width : 0 <= width -> width mod 16 = 8 -> stride width = 8 * width - 8.
Proof.
  intros Hw Hodd. unfold stride. rewrite Z2Nat.id by (apply Z.div_pos; lia).
  pose proof (Z.div_mod width 16 ltac:(lia)). lia.
Qed.

Lemma last_column_outside_band base width a r c :
  0 <= width -> width mod 16 = 8 ->
  0 <= r < 8 -> width - 8 <= c < width ->
  a = base + r * width + c ->
  ~ in_bands width base 1 a.
Proof.
  intros Hw Hodd Hr Hc -> (k & Hk & Hrows).
  assert (k = 0) by lia. subst k.
  apply in_rows_spec in Hrows as (r' & Hr' & Ha).
  rewrite Z2Nat.id in Ha by (apply Z.div_pos; lia).
  pose proof (Z.div_mod width 16 ltac:(lia)) as Hdm.
  change (Z.of_nat 8) with 8 in Hr'.
  assert (Hcases : r' = r \/ r' + 1 <= r \/ r + 1 <= r') by lia.
  destruct Hcases as [-> | [Hlt | Hgt]].
  - lia.
  - assert ((r' + 1) * width <= r * width) by nia. lia.
  - assert ((r + 1) * width <= r' * width) by nia. lia.
Qed.

(** C10, as amended. When [width/8] is odd, [decodeFrame8] takes
    [(width/8)/2] map bytes in each block-row and starts each further
    block-row 8 bytes early (the cursor after [j] block-rows is
    [j * (8 * width - 8)] from the start); maps without encoding 0x6 are
    meant. In a frame of a single block-row the last block column, 8
    pixels wide, is never dispatched and keeps its bytes. For
    [width = 8] the inner loop never runs: whatever the map holds, no map
    byte is read, nothing is reported and the memory is returned as it
    was. *)
Theorem odd_block_count_walk
    vBackBuf2 width height base pMap data pData dataRemain m :
  (width = 8 ->
   exists st,
     decodeFrame8 vBackBuf2 width height base pMap data pData dataRemain m
     = Done st pMap [] /\
     dmem st = m) /\
  (0 <= width -> 0 <= height -> width mod 16 = 8 ->
   Forall no_skip_byte pMap ->
   (Z.to_nat (height / 8) * Z.to_nat (width / 16) <= length pMap)%nat ->
   exists st log,
     decodeFrame8 vBackBuf2 width height base pMap data pData dataRemain m
     = Done st (skipn (Z.to_nat (height / 8) * Z.to_nat (width / 16)) pMap) log /\
     pFrame st = base + height / 8 * (8 * width - 8) /\
     (height / 8 = 1 ->
      forall r c, 0 <= r < 8 -> width - 8 <= c < width ->
        dmem st (base + r * width + c) = m (base + r * width + c))).
Proof.
  split.
  - intros ->. unfold decodeFrame8.
    destruct (outer_loop_width8 data base vBackBuf2 height
                (Z.to_nat (Z.shiftr height 3)) pMap
                (mkD m base pData dataRemain 0 0) []) as (st & Hrun & Hmem).
    + cbn [curYb]. lia.
    + exists st. split; [exact Hrun | exact Hmem].
  - intros Hw Hh Hodd Hok Hlen.
    rewrite decodeFrame8_decode_frame by assumption. unfold decode_frame.
    pose proof (spec_rows_effect data base vBackBuf2 width height
                  (Z.to_nat (height / 8)) pMap (mkD m base pData dataRemain 0 0) [] Hok)
      as Heff.
    destruct (spec_rows _ _ _ _ _ _ _ _ _) as [[[st rest] log]|]; [|lia].
    destruct Heff as (_ & -> & HF & _ & HM). fields.
    exists st, log. split; [reflexivity|]. split.
    + rewrite HF, stride_odd, Z2Nat.id by (try apply Z.div_pos; lia). reflexivity.
    + intros H1 r c Hr Hc. rewrite H1 in HM. apply HM.
      now apply (last_column_outside_band base width _ r c).
Qed.

(** Frames 8 pixels wide and 24 pixels wide. *)
Lemma odd_block_count_walk_witness :
  (exists st,
     decodeFrame8 1000 8 16 0 [238; 102] (fun _ => 5) 0 2 (fun _ => 0)
     = Done st [238; 102] [] /\
     dmem st = (fun _ => 0)) /\
  (exists st log,
     decodeFrame8 1000 24 8 0 [238] (fun _ => 5) 0 2 (fun _ => 0)
     = Done st (skipn (Z.to_nat (8 / 8) * Z.to_nat (24 / 16)) [238]) log /\
     pFrame st = 0 + 8 / 8 * (8 * 24 - 8) /\
     (8 / 8 = 1 ->
      forall r c, 0 <= r < 8 -> 24 - 8 <= c < 24 ->
        dmem st (0 + r * 24 + c) = (fun _ : Z => 0) (0 + r * 24 + c))).
Proof.
  split.
  - exact (proj1 (odd_block_count_walk 1000 8 16 0 [238; 102] (fun _ => 5) 0 2
                    (fun _ => 0)) eq_refl).
  - apply (proj2 (odd_block_count_walk 1000 24 8 0 [238] (fun _ => 5) 0 2 (fun _ => 0))).
    + lia.
    + lia.
    + reflexivity.
    + repeat constructor; vm_compute; intuition discriminate.
    + vm_compute. lia.
Defined.

(** C10 as the code states it fails in a frame of two block-rows: with
    24 by 16 pixels the second block-row starts at offset 184, which is
    pixel row 7 and column 16, inside the last block column of the first
    block-row, and the fill of the map byte 0x1e writes there. *)
Lemma second_row_writes_last_column :
  match decodeFrame8 1000 24 16 0 [17; 30] (fun _ => 5) 0 1 (fun _ => 0) with
  | Done st _ _ =>
      184 = 0 + 7 * 24 + 16 /\ 24 - 8 <= 16 < 24 /\
      dmem st 184 = 5 /\ (fun _ : Z => 0) 184 = 0
  | _ => False
  end.
Proof. vm_compute. repeat split; discriminate. Qed.

(** * Further properties of the decoder *)

(** ** The offset mappings *)

(** X1. The "close" mapping of encoding 0x4 splits an offset byte into its
    two nibbles: both offsets lie between -8 and 7, and the byte is found
    again from them as [16 * (y + 8) + (x + 8)], so that the 256 bytes
    name the 256 offsets of that square once each. *)
Theorem relClose_covers_square b :
  0 <= b < 256 ->
  -8 <= fst (relClose b) <= 7 /\
  -8 <= snd (relClose b) <= 7 /\
  16 * (snd (relClose b) + 8) + (fst (relClose b) + 8) = b.
Proof.
  intros Hb. unfold relClose. cbn [fst snd].
  rewrite Z.shiftr_div_pow2 by lia. change 15 with (Z.ones 4).
  rewrite Z.land_ones by lia. change (2 ^ 4) with 16.
  pose proof (Z.mod_pos_bound b 16 ltac:(lia)).
  pose proof (Z.div_mod b 16 ltac:(lia)).
  assert (0 <= b / 16) by (apply Z.div_pos; lia).
  assert (b / 16 < 16) by (apply Z.div_lt_upper_bound; lia).
  lia.
Qed.

Lemma relClose_covers_square_witness :
  0 <= 58 < 256 /\
  -8 <= fst (relClose 58) <= 7 /\
  -8 <= snd (relClose 58) <= 7 /\
  16 * (snd (relClose 58) + 8) + (fst (relClose 58) + 8) = 58.
Proof. split; [lia|]. apply (relClose_covers_square 58). lia. Defined.

(** The division and remainder of C on the operands [relFar] gives them. *)
Lemma relFar_div B sign :
  0 <= B ->
  relFar B sign
  = if B <? 56 then (sign * (8 + B mod 7), sign * (B / 7))
    else (sign * (-14 + (B - 56) mod 29), sign * (8 + (B - 56) / 29)).
Proof.
  intros HB. unfold relFar. destruct (Z.ltb_spec B 56).
  - now rewrite Z.rem_mod_nonneg, Z.quot_div_nonneg by lia.
  - now rewrite Z.rem_mod_nonneg, Z.quot_div_nonneg by lia.
Qed.

(** X2. The "far" mapping of encodings 0x2 and 0x3 never names an offset
    of the square the "close" mapping covers: in the direction of the
    sign the block copied from lies at least 8 columns to the side in the
    same 8 rows, or at least 8 rows away and at most 14 columns to either
    side; encoding 0x3 mirrors the offsets of encoding 0x2. *)
Theorem relFar_outside_block B :
  0 <= B < 256 ->
  let x := fst (relFar B 1) in
  let y := snd (relFar B 1) in
  ((8 <= x <= 14 /\ 0 <= y <= 7) \/ (-14 <= x <= 14 /\ 8 <= y <= 14)) /\
  relFar B (-1) = (- x, - y).
Proof.
  intros HB x y. subst x y. rewrite !relFar_div by lia.
  destruct (Z.ltb_spec B 56); cbn [fst snd].
  - pose proof (Z.mod_pos_bound B 7 ltac:(lia)).
    assert (0 <= B / 7) by (apply Z.div_pos; lia).
    assert (B / 7 < 8) by (apply Z.div_lt_upper_bound; lia).
    split; [left; lia | f_equal; lia].
  - pose proof (Z.mod_pos_bound (B - 56) 29 ltac:(lia)).
    assert (0 <= (B - 56) / 29) by (apply Z.div_pos; lia).
    assert ((B - 56) / 29 < 7) by (apply Z.div_lt_upper_bound; lia).
    split; [right; lia | f_equal; lia].
Qed.

Lemma relFar_outside_block_witness :
  0 <= 200 < 256 /\
  ((8 <= fst (relFar 200 1) <= 14 /\ 0 <= snd (relFar 200 1) <= 7) \/
   (-14 <= fst (relFar 200 1) <= 14 /\ 8 <= snd (relFar 200 1) <= 14)) /\
  relFar 200 (-1) = (- fst (relFar 200 1), - snd (relFar 200 1)).
Proof. split; [lia|]. apply (relFar_outside_block 200). lia. Defined.

(** X3. Two different offset bytes never name the same far offset. *)
Theorem relFar_injective B B' sign :
  0 <= B < 256 -> 0 <= B' < 256 -> sign <> 0 ->
  relFar B sign = relFar B' sign -> B = B'.
Proof.
  intros HB HB' Hs. rewrite !relFar_div by lia.
  pose proof (Z.mod_pos_bound B 7 ltac:(lia)).
  pose proof (Z.mod_pos_bound B' 7 ltac:(lia)).
  pose proof (Z.mod_pos_bound (B - 56) 29 ltac:(lia)).
  pose proof (Z.mod_pos_bound (B' - 56) 29 ltac:(lia)).
  pose proof (Z.div_mod B 7 ltac:(lia)).
  pose proof (Z.div_mod B' 7 ltac:(lia)).
  pose proof (Z.div_mod (B - 56) 29 ltac:(lia)).
  pose proof (Z.div_mod (B' - 56) 29 ltac:(lia)).
  destruct (Z.ltb_spec B 56); destruct (Z.ltb_spec B' 56);
    intros [= Hx Hy]; apply Z.mul_reg_l in Hx, Hy; try exact Hs.
  - lia.
  - assert (B / 7 < 8) by (apply Z.div_lt_upper_bound; lia).
    assert (0 <= (B' - 56) / 29) by (apply Z.div_pos; lia). lia.
  - assert (B' / 7 < 8) by (apply Z.div_lt_upper_bound; lia).
    assert (0 <= (B - 56) / 29) by (apply Z.div_pos; lia). lia.
  - lia.
Qed.

Lemma relFar_injective_witness :
  0 <= 7 < 256 /\ 0 <= 7 < 256 /\ -1 <> 0 /\ relFar 7 (-1) = relFar 7 (-1) /\ 7 = 7.
Proof.
  split; [lia|]. split; [lia|]. split; [lia|]. split; [reflexivity|].
  apply (relFar_injective 7 7 (-1)); [lia | lia | lia | reflexivity].
Defined.

(** ** Block copies *)

(** Two blocks that share no byte: a row of the one does not start inside
    a row of the other. *)
Lemma blocks_apart_rows w dst src r r' c :
  (forall a, in_block w dst a -> ~ in_block w src a) ->
  0 <= r < 8 -> 0 <= r' < 8 -> 0 <= c < 8 ->
  ~ dst + r' * w <= src + r * w + c < dst + r' * w + 8.
Proof.
  intros Hapart Hr Hr' Hc Hin.
  apply (Hapart (src + r * w + c)).
  - exists r', (src + r * w + c - (dst + r' * w)). lia.
  - exists r, c. lia.
Qed.

Lemma blocks_apart_start w dst src :
  (forall a, in_block w dst a -> ~ in_block w src a) ->
  dst <= src \/ src + 8 <= dst.
Proof.
  intros Hapart.
  destruct (Z_le_dec dst src) as [|Hlt]; [now left|].
  destruct (Z_le_dec (src + 8) dst) as [|Hgt]; [now right|].
  exfalso. apply (Hapart dst).
  - exists 0, 0. lia.
  - exists 0, (dst - src). lia.
Qed.

(** A block copied from a block that shares no byte with it holds what
    the source held before the copy. *)
Lemma copyFrame_apart_content w dst src m r c :
  8 <= w ->
  (forall a, in_block w dst a -> ~ in_block w src a) ->
  0 <= r < 8 -> 0 <= c < 8 ->
  copyFrame w dst src m (dst + r * w + c) = m (src + r * w + c).
Proof.
  intros Hw Hapart Hr Hc.
  pose proof (blocks_apart_start w dst src Hapart) as Hstart.
  pose proof (fun r' Hr' => blocks_apart_rows w dst src r r' c Hapart Hr Hr' Hc) as Hrows.
  pose proof (Hrows 0 ltac:(lia)) as H0. pose proof (Hrows 1 ltac:(lia)) as H1.
  pose proof (Hrows 2 ltac:(lia)) as H2. pose proof (Hrows 3 ltac:(lia)) as H3.
  pose proof (Hrows 4 ltac:(lia)) as H4. pose proof (Hrows 5 ltac:(lia)) as H5.
  pose proof (Hrows 6 ltac:(lia)) as H6. pose proof (Hrows 7 ltac:(lia)) as H7.
  clear Hrows Hapart.
  unfold copyFrame. exec.
  cases8 r;
    repeat (rewrite copy_n_8_other by lia);
    match goal with
    | |- copy_n 8 ?s ?d ?m0 ?a = _ =>
        replace a with (d + c) by lia; rewrite copy_n_8_content by lia
    end;
    repeat (rewrite copy_n_8_other by lia);
    f_equal; lia.
Qed.

(** X4. [copyFrame] copies an 8x8 block: when the block read and the block
    written share no byte, every byte of the block written holds what the
    byte at the same place of the block read held before the call, and no
    byte outside the block written is changed. *)
Theorem copyFrame_copies_block w dst src m :
  8 <= w ->
  (forall a, in_block w dst a -> ~ in_block w src a) ->
  (forall r c, 0 <= r < 8 -> 0 <= c < 8 ->
     copyFrame w dst src m (dst + r * w + c) = m (src + r * w + c)) /\
  same_outside (in_block w dst) m (copyFrame w dst src m).
Proof.
  intros Hw Hapart. split.
  - intros r c Hr Hc. now apply copyFrame_apart_content.
  - eapply same_outside_weaken; [apply copyFrame_frame|].
    intros a. apply in_block_rows.
Qed.

Lemma copyFrame_copies_block_witness :
  let m := fun a : Z => a mod 251 in
  8 <= 16 /\
  copyFrame 16 0 1000 m (0 + 3 * 16 + 5) = m (1000 + 3 * 16 + 5).
Proof.
  split; [lia|].
  refine (proj1 (copyFrame_copies_block 16 0 1000 (fun a : Z => a mod 251) _ _)
            3 5 _ _); try lia.
  intros a (r & c & Hr & Hc & Ha) (r' & c' & Hr' & Hc' & Ha'). lia.
Defined.

Lemma i8_signed b : 0 <= b < 256 -> i8 b = if b <? 128 then b else b - 256.
Proof.
  intros Hb. unfold i8. destruct (Z.ltb_spec b 128).
  - rewrite Z.mod_small by lia. lia.
  - replace (b + 128) with (b - 128 + 1 * 256) by lia.
    rewrite Z.mod_add, Z.mod_small by lia. lia.
Qed.

Section Copies.

Variable data : Z -> Z.
Variables vBackBuf1 vBackBuf2 width height : Z.

(** X5. Encoding 0x0 copies the block at the same place of the other back
    buffer, [vBackBuf2 - vBackBuf1] bytes from the cursor, reads no
    payload and moves the cursor to the next block. *)
Theorem op0_copies_other_buffer st :
  8 <= width ->
  let src := pFrame st + (vBackBuf2 - vBackBuf1) in
  (forall a, in_block width (pFrame st) a -> ~ in_block width src a) ->
  let st' := dispatchDecoder data vBackBuf1 vBackBuf2 width height 0 st in
  pFrame st' = pFrame st + 8 /\
  pData st' = pData st /\
  forall r c, 0 <= r < 8 -> 0 <= c < 8 ->
    dmem st' (pFrame st + r * width + c) = dmem st (src + r * width + c).
Proof.
  intros Hw src Hapart st'. subst st'.
  destruct st as [m pF pD rem xb yb]. cbn [dispatchDecoder]. unfold op0. exec.
  repeat split; try lia. intros r c Hr Hc.
  now apply copyFrame_apart_content.
Qed.

(** X6. Encoding 0x3 reads one offset byte and copies the block the far
    mapping names in the negative direction, [x] columns to the left and
    [y] rows up in the buffer being written; in a frame at least 22 bytes
    wide that block shares no byte with the block written, which then
    holds what the source held before. *)
Theorem op3_far_copy_back st :
  22 <= width ->
  let B := data (pData st) in
  0 <= B < 256 ->
  let x := fst (far_offset B) in
  let y := snd (far_offset B) in
  let st' := dispatchDecoder data vBackBuf1 vBackBuf2 width height 3 st in
  pData st' = pData st + 1 /\
  pDataRemain st' = pDataRemain st - 1 /\
  pFrame st' = pFrame st + 8 /\
  forall r c, 0 <= r < 8 -> 0 <= c < 8 ->
    dmem st' (pFrame st + r * width + c)
    = dmem st (pFrame st - x - y * width + r * width + c).
Proof.
  intros Hw B HB x y st'. subst st'.
  destruct st as [m pF pD rem xb yb]. cbn [pData] in B.
  cbn [dispatchDecoder]. unfold op3. exec. fold B.
  rewrite relFar_div by lia.
  assert (Hxy : far_offset B = (x, y)) by (subst x y; now destruct (far_offset B)).
  pose proof (far_offset_range B x y HB Hxy) as Hrange.
  assert (Hy14 : y <= 14).
  { subst y. unfold far_offset. destruct (Z.ltb_spec B 56); cbn [snd].
    - assert (B / 7 < 8) by (apply Z.div_lt_upper_bound; lia). lia.
    - assert ((B - 56) / 29 < 7) by (apply Z.div_lt_upper_bound; lia). lia. }
  assert (Hfar : (if B <? 56 then (-1 * (8 + B mod 7), -1 * (B / 7))
                  else (-1 * (-14 + (B - 56) mod 29), -1 * (8 + (B - 56) / 29)))
                 = (- x, - y)).
  { subst x y. unfold far_offset. destruct (B <? 56); cbn [fst snd]; f_equal; lia. }
  rewrite Hfar. exec.
  repeat split; try lia. intros r c Hr Hc.
  replace (pF - x - y * width + r * width + c)
    with (pF + - x + - y * width + r * width + c) by lia.
  apply copyFrame_apart_content; [lia | | exact Hr | exact Hc].
  intros a (r1 & c1 & Hr1 & Hc1 & Ha) (r2 & c2 & Hr2 & Hc2 & Ha').
  assert (E : (r2 - r1 - y) * width = x + c1 - c2) by lia.
  destruct Hrange as [[Hx Hy] | [Hx Hy]].
  - destruct (Z_le_dec (r2 - r1 - y) 0) as [Hk|Hk]; nia.
  - nia.
Qed.

(** X7. Encoding 0x4 reads one offset byte and copies the block of the
    other back buffer that lies [x] columns and [y] rows from the place of
    the cursor there, both between -8 and 7, taken from the low and the
    high nibble of the byte. *)
Theorem op4_close_copy st :
  8 <= width ->
  let B := data (pData st) in
  let x := Z.land B 15 - 8 in
  let y := Z.shiftr B 4 - 8 in
  let src := pFrame st + (vBackBuf2 - vBackBuf1) + x + y * width in
  (forall a, in_block width (pFrame st) a -> ~ in_block width src a) ->
  let st' := dispatchDecoder data vBackBuf1 vBackBuf2 width height 4 st in
  pData st' = pData st + 1 /\
  pDataRemain st' = pDataRemain st - 1 /\
  pFrame st' = pFrame st + 8 /\
  forall r c, 0 <= r < 8 -> 0 <= c < 8 ->
    dmem st' (pFrame st + r * width + c) = dmem st (src + r * width + c).
Proof.
  intros Hw B x y src Hapart st'. subst st'.
  destruct st as [m pF pD rem xb yb]. cbn [pData pFrame] in *.
  cbn [dispatchDecoder]. unfold op4, relClose. exec. fold B x y.
  repeat split; try lia. intros r c Hr Hc.
  now apply copyFrame_apart_content.
Qed.

(** X8. Encoding 0x5 reads two offset bytes, each a signed 8-bit number
    (a byte of 128 or more stands for that byte less 256), and copies the
    block of the other back buffer that lies that many columns and rows
    from the place of the cursor there. *)
Theorem op5_signed_copy st :
  8 <= width ->
  let Bx := data (pData st) in
  let By := data (pData st + 1) in
  0 <= Bx < 256 -> 0 <= By < 256 ->
  let x := if Bx <? 128 then Bx else Bx - 256 in
  let y := if By <? 128 then By else By - 256 in
  let src := pFrame st + (vBackBuf2 - vBackBuf1) + x + y * width in
  (forall a, in_block width (pFrame st) a -> ~ in_block width src a) ->
  let st' := dispatchDecoder data vBackBuf1 vBackBuf2 width height 5 st in
  pData st' = pData st + 2 /\
  pDataRemain st' = pDataRemain st - 2 /\
  pFrame st' = pFrame st + 8 /\
  forall r c, 0 <= r < 8 -> 0 <= c < 8 ->
    dmem st' (pFrame st + r * width + c) = dmem st (src + r * width + c).
Proof.
  intros Hw Bx By HBx HBy x y src Hapart st'. subst st'.
  destruct st as [m pF pD rem xb yb]. cbn [pData pFrame] in *.
  cbn [dispatchDecoder]. unfold op5. exec. fold Bx By.
  rewrite !i8_signed by assumption. fold x y.
  repeat split; try lia. intros r c Hr Hc.
  now apply copyFrame_apart_content.
Qed.

End Copies.

Lemma op0_copies_other_buffer_witness :
  let m := fun a : Z => a mod 251 in
  let st' := dispatchDecoder (fun _ => 0) 0 1000 16 8 0 (mkD m 0 0 0 0 0) in
  8 <= 16 /\
  pFrame st' = 0 + 8 /\
  dmem st' (0 + 3 * 16 + 5) = m (0 + (1000 - 0) + 3 * 16 + 5).
Proof.
  split; [lia|].
  destruct (op0_copies_other_buffer (fun _ => 0) 0 1000 16 8
              (mkD (fun a : Z => a mod 251) 0 0 0 0 0) ltac:(lia)) as (HF & _ & HM).
  - intros a (r & c & Hr & Hc & Ha) (r' & c' & Hr' & Hc' & Ha').
    cbn [pFrame] in Ha, Ha'. lia.
  - split; [exact HF|]. apply HM; lia.
Defined.

Lemma op3_far_copy_back_witness :
  let m := fun a : Z => a mod 251 in
  let st' := dispatchDecoder (fun _ => 10) 0 1000 64 64 3 (mkD m 500 0 1 0 0) in
  22 <= 64 /\ 0 <= 10 < 256 /\
  pData st' = 0 + 1 /\
  dmem st' (500 + 3 * 64 + 5) = m (500 - 11 - 1 * 64 + 3 * 64 + 5).
Proof.
  split; [lia|]. split; [lia|].
  destruct (op3_far_copy_back (fun _ => 10) 0 1000 64 64
              (mkD (fun a : Z => a mod 251) 500 0 1 0 0) ltac:(lia) ltac:(cbn; lia))
    as (HD & _ & _ & HM).
  split; [exact HD|]. apply HM; lia.
Defined.

Lemma op4_close_copy_witness :
  let m := fun a : Z => a mod 251 in
  let st' := dispatchDecoder (fun _ => 58) 0 1000 16 8 4 (mkD m 0 0 1 0 0) in
  8 <= 16 /\
  pData st' = 0 + 1 /\
  dmem st' (0 + 3 * 16 + 5) = m (0 + (1000 - 0) + 2 + (-5) * 16 + 3 * 16 + 5).
Proof.
  split; [lia|].
  destruct (op4_close_copy (fun _ => 58) 0 1000 16 8
              (mkD (fun a : Z => a mod 251) 0 0 1 0 0) ltac:(lia)) as (HD & _ & _ & HM).
  - intros a (r & c & Hr & Hc & Ha) (r' & c' & Hr' & Hc' & Ha').
    cbn [pFrame pData] in Ha, Ha'. vm_compute Z.land in Ha'. vm_compute Z.shiftr in Ha'. lia.
  - split; [exact HD|]. apply HM; lia.
Defined.

Lemma op5_signed_copy_witness :
  let m := fun a : Z => a mod 251 in
  let data := store_of 0 [3; 254] 0 in
  let st' := dispatchDecoder data 0 1000 16 8 5 (mkD m 0 0 2 0 0) in
  8 <= 16 /\ 0 <= data 0 < 256 /\ 0 <= data 1 < 256 /\
  pData st' = 0 + 2 /\
  dmem st' (0 + 3 * 16 + 5) = m (0 + (1000 - 0) + 3 + (254 - 256) * 16 + 3 * 16 + 5).
Proof.
  assert (H0 : 0 <= store_of 0 [3; 254] 0 0 < 256) by (change (0 <= 3 < 256); lia).
  assert (H1 : 0 <= store_of 0 [3; 254] 0 (0 + 1) < 256) by (change (0 <= 254 < 256); lia).
  split; [lia|]. split; [exact H0|]. split; [exact H1|].
  destruct (op5_signed_copy (store_of 0 [3; 254] 0) 0 1000 16 8
              (mkD (fun a : Z => a mod 251) 0 0 2 0 0) ltac:(lia) H0 H1)
    as (HD & _ & _ & HM).
  - intros a (r & c & Hr & Hc & Ha) (r' & c' & Hr' & Hc' & Ha').
    change (a = 0 + (1000 - 0) + 3 + (254 - 256) * 16 + r' * 16 + c') in Ha'.
    cbn [pFrame] in Ha. lia.
  - split; [exact HD|]. apply HM; lia.
Defined.

(** ** The encodings of raw pixels *)

Lemma copy_data_n_content data n src dst m k :
  0 <= k < Z.of_nat n ->
  copy_data_n data n src dst m (dst + k) = data (src + k).
Proof.
  revert src dst m k. induction n as [|n IH]; intros src dst m k Hk; [lia|].
  cbn [copy_data_n].
  destruct (Z.eq_dec k 0) as [-> | Hk0].
  - rewrite copy_data_n_frame by lia. rewrite !Z.add_0_r. apply upd_same.
  - replace (dst + k) with (dst + 1 + (k - 1)) by ring.
    rewrite IH by lia. f_equal. ring.
Qed.

Lemma fill_n_content n dst v m k :
  0 <= k < Z.of_nat n -> fill_n n dst v m (dst + k) = v.
Proof.
  revert dst m k. induction n as [|n IH]; intros dst m k Hk; [lia|].
  cbn [fill_n].
  destruct (Z.eq_dec k 0) as [-> | Hk0].
  - rewrite fill_n_frame by lia. rewrite !Z.add_0_r. apply upd_same.
  - replace (dst + k) with (dst + 1 + (k - 1)) by ring. apply IH. lia.
Qed.

Lemma copy_data_n_8_other data src dst m a :
  ~ dst <= a < dst + 8 -> copy_data_n data 8 src dst m a = m a.
Proof. intros Ha. apply (copy_data_n_frame data 8 src dst m a). exact Ha. Qed.

Lemma fill_n_8_other dst v m a :
  ~ dst <= a < dst + 8 -> fill_n 8 dst v m a = m a.
Proof. intros Ha. apply (fill_n_frame 8 dst v m a). exact Ha. Qed.

Section Raw.

Variable data : Z -> Z.
Variables vBackBuf1 vBackBuf2 width height : Z.

(** X9. Encoding 0xb takes the 64 pixels of the block from the payload,
    row by row from the top and from left to right in each row. *)
Theorem opb_raw_pixels st :
  8 <= width ->
  let st' := dispatchDecoder data vBackBuf1 vBackBuf2 width height 11 st in
  pData st' = pData st + 64 /\
  pDataRemain st' = pDataRemain st - 64 /\
  pFrame st' = pFrame st + 8 /\
  forall r c, 0 <= r < 8 -> 0 <= c < 8 ->
    dmem st' (pFrame st + r * width + c) = data (pData st + 8 * r + c).
Proof.
  intros Hw st'. subst st'. destruct st as [m pF pD rem xb yb].
  cbn [dispatchDecoder]. unfold opb. exec.
  repeat split; try lia. intros r c Hr Hc.
  cases8 r;
    repeat (rewrite copy_data_n_8_other by lia);
    match goal with
    | |- copy_data_n _ 8 ?s ?d ?m0 ?a = _ =>
        replace a with (d + c) by lia; rewrite copy_data_n_content by lia
    end;
    f_equal; lia.
Qed.

(** X10. Encoding 0xe fills the block with the one payload byte it
    reads. *)
Theorem ope_solid_block st :
  8 <= width ->
  let st' := dispatchDecoder data vBackBuf1 vBackBuf2 width height 14 st in
  pData st' = pData st + 1 /\
  pDataRemain st' = pDataRemain st - 1 /\
  pFrame st' = pFrame st + 8 /\
  forall r c, 0 <= r < 8 -> 0 <= c < 8 ->
    dmem st' (pFrame st + r * width + c) = data (pData st).
Proof.
  intros Hw st'. subst st'. destruct st as [m pF pD rem xb yb].
  cbn [dispatchDecoder]. unfold ope. exec.
  repeat split; try lia. intros r c Hr Hc.
  cases8 r;
    repeat (rewrite fill_n_8_other by lia);
    match goal with
    | |- fill_n 8 ?d ?v ?m0 ?a = _ =>
        replace a with (d + c) by lia; rewrite fill_n_content by lia
    end;
    f_equal; lia.
Qed.

(** X11. Encoding 0xc reads 16 payload bytes, one for each cell of 2 by 2
    pixels, the cells of the block row by row from the top and from left
    to right. *)
Theorem opc_cells_2x2 st :
  8 <= width ->
  let st' := dispatchDecoder data vBackBuf1 vBackBuf2 width height 12 st in
  pData st' = pData st + 16 /\
  pDataRemain st' = pDataRemain st - 16 /\
  pFrame st' = pFrame st + 8 /\
  forall r c, 0 <= r < 8 -> 0 <= c < 8 ->
    dmem st' (pFrame st + r * width + c) = data (pData st + 4 * (r / 2) + c / 2).
Proof.
  intros Hw st'. subst st'. destruct st as [m pF pD rem xb yb].
  cbn [dispatchDecoder]. unfold opc. exec.
  repeat split; try lia. intros r c Hr Hc.
  cases8 r; cases8 c; last_store; norm_data data pD; reflexivity.
Qed.

(** X12. Encoding 0xd reads 4 payload bytes, one for each quarter of 4 by
    4 pixels: top left, top right, bottom left, bottom right. *)
Theorem opd_cells_4x4 st :
  8 <= width ->
  let st' := dispatchDecoder data vBackBuf1 vBackBuf2 width height 13 st in
  pData st' = pData st + 4 /\
  pDataRemain st' = pDataRemain st - 4 /\
  pFrame st' = pFrame st + 8 /\
  forall r c, 0 <= r < 8 -> 0 <= c < 8 ->
    dmem st' (pFrame st + r * width + c) = data (pData st + 2 * (r / 4) + c / 4).
Proof.
  intros Hw st'. subst st'. destruct st as [m pF pD rem xb yb].
  cbn [dispatchDecoder]. unfold opd. exec.
  repeat split; try lia. intros r c Hr Hc.
  cases8 r; cases8 c; last_store; norm_data data pD; reflexivity.
Qed.

(** X13. Encoding 0xf reads two payload bytes and lays them out as a
    checkerboard: the first where row and column add up to an even
    number, the second where they add up to an odd one. *)
Theorem opf_checkerboard st :
  8 <= width ->
  let st' := dispatchDecoder data vBackBuf1 vBackBuf2 width height 15 st in
  pData st' = pData st + 2 /\
  pDataRemain st' = pDataRemain st - 2 /\
  pFrame st' = pFrame st + 8 /\
  forall r c, 0 <= r < 8 -> 0 <= c < 8 ->
    dmem st' (pFrame st + r * width + c) = data (pData st + (r + c) mod 2).
Proof.
  intros Hw st'. subst st'. destruct st as [m pF pD rem xb yb].
  cbn [dispatchDecoder]. unfold opf. exec.
  repeat split; try lia. intros r c Hr Hc.
  cases8 r; cases8 c; last_store; norm_data data pD; reflexivity.
Qed.

End Raw.

(** ** The quadrant fillers *)

Lemma nonzero_bit_r mask k x :
  0 <= k -> mask = 2 ^ k -> nonzero (Z.land x mask) = Z.testbit x k.
Proof. intros Hk Hm. rewrite Z.land_comm. now apply nonzero_bit. Qed.

Lemma field2_r mask s x :
  0 <= s -> mask = Z.shiftl 3 s ->
  Z.shiftr (Z.land x mask) s = Z.land (Z.shiftr x s) 3.
Proof. intros Hs Hm. rewrite Z.land_comm. now apply field2. Qed.

(** The bit or the 2-bit field a closed mask selects from the pattern
    word [x]. *)
Ltac word_fields x :=
  repeat match goal with
         | |- context [nonzero (Z.land x ?mask)] =>
             let k := eval vm_compute in (Z.log2 mask) in
             rewrite (nonzero_bit_r mask k x) by first [lia | reflexivity]
         | |- context [Z.shiftr (Z.land x ?mask) ?s] =>
             rewrite (field2_r mask s x) by first [lia | reflexivity]
         end.

Ltac cases4 c :=
  let H := fresh in
  assert (H : c = 0 \/ c = 1 \/ c = 2 \/ c = 3) by lia;
  repeat (destruct H as [-> | H]); [..| subst c].

Lemma patternQuadrant2Pixels_content w pF pat0 pat1 p m r c :
  4 <= w -> 0 <= r < 4 -> 0 <= c < 4 ->
  patternQuadrant2Pixels w pF pat0 pat1 p m (pF + r * w + c)
  = at4 p (if Z.testbit (word16 pat0 pat1) (4 * r + c) then 1 else 0).
Proof.
  intros Hw Hr Hc. unfold word16.
  cbv beta zeta delta [patternQuadrant2Pixels].
  set (pat := u16 _). clearbody pat. unroll.
  cases4 r; cases4 c; last_store; word_fields pat; reflexivity.
Qed.

Lemma patternQuadrant4Pixels_content w pF pat0 pat1 pat2 pat3 p m r c :
  4 <= w -> 0 <= r < 4 -> 0 <= c < 4 ->
  patternQuadrant4Pixels w pF pat0 pat1 pat2 pat3 p m (pF + r * w + c)
  = at4 p (pick2 (u64 (i32 (Z.lor (Z.lor (Z.lor (Z.shiftl pat3 24) (Z.shiftl pat2 16))
                                     (Z.shiftl pat1 8)) pat0)))
             (4 * r + c)).
Proof.
  intros Hw Hr Hc. unfold pick2.
  cbv beta zeta delta [patternQuadrant4Pixels].
  set (pat := u64 _). clearbody pat. unroll.
  cases4 r; cases4 c; last_store; word_fields pat; reflexivity.
Qed.

(** *** Pattern words and the bytes they are made of *)

Lemma byte_bit_high b n : 0 <= b < 256 -> 8 <= n -> Z.testbit b n = false.
Proof.
  intros Hb Hn. rewrite <- (Z.mod_small b (2 ^ 8)) by (change (2 ^ 8) with 256; lia).
  apply Z.mod_pow2_bits_high. lia.
Qed.

(** Bit [k] of the 16-bit word lies in its low byte for [k < 8] and in
    its high byte from there on. *)
Lemma word16_bit lo hi k :
  0 <= lo < 256 -> 0 <= k < 16 ->
  Z.testbit (word16 lo hi) k = if k <? 8 then Z.testbit lo k else Z.testbit hi (k - 8).
Proof.
  intros Hlo Hk. unfold word16, u16. change 65536 with (2 ^ 16).
  rewrite Z.mod_pow2_bits_low, Z.lor_spec by lia.
  destruct (Z.ltb_spec k 8).
  - rewrite Z.shiftl_spec_low by lia. reflexivity.
  - rewrite Z.shiftl_spec, (byte_bit_high lo k) by lia. apply orb_false_r.
Qed.

Lemma i32_bit x n : 0 <= n < 32 -> Z.testbit (i32 x) n = Z.testbit x n.
Proof.
  intros Hn. unfold i32.
  rewrite <- (Z.mod_pow2_bits_low _ 32 n) by lia.
  rewrite <- (Z.mod_pow2_bits_low x 32 n) by lia.
  f_equal. change (2 ^ 32) with 4294967296.
  rewrite Zminus_mod_idemp_l. f_equal. lia.
Qed.

Lemma pick2_bit x k n :
  0 <= k -> 0 <= n ->
  Z.testbit (pick2 x k) n = Z.testbit x (n + 2 * k) && (n <? 2).
Proof.
  intros Hk Hn. unfold pick2. rewrite Z.land_spec, Z.shiftr_spec by lia.
  f_equal. change 3 with (Z.ones 2).
  destruct (Z.ltb_spec n 2).
  - apply Z.ones_spec_low. lia.
  - apply Z.ones_spec_high. lia.
Qed.

(** The four pattern bytes of a quadrant of 4 by 4 pixels as one word:
    the 2-bit field of pixel [c] of row [r] is field [c] of byte [r]. *)
Lemma quad32_pick2 b0 b1 b2 b3 r c :
  0 <= b0 < 256 -> 0 <= b1 < 256 -> 0 <= b2 < 256 -> 0 <= b3 < 256 ->
  0 <= r < 4 -> 0 <= c < 4 ->
  pick2 (u64 (i32 (Z.lor (Z.lor (Z.lor (Z.shiftl b3 24) (Z.shiftl b2 16))
                            (Z.shiftl b1 8)) b0)))
    (4 * r + c)
  = pick2 (match r with 0 => b0 | 1 => b1 | 2 => b2 | _ => b3 end) c.
Proof.
  intros H0 H1 H2 H3 Hr Hc. apply Z.bits_inj'. intros n Hn.
  rewrite !pick2_bit by lia.
  destruct (Z.ltb_spec n 2); [|now rewrite !andb_false_r].
  rewrite !andb_true_r. unfold u64. change 18446744073709551616 with (2 ^ 64).
  rewrite Z.mod_pow2_bits_low, i32_bit by lia.
  rewrite !Z.lor_spec.
  cases4 r.
  - rewrite !Z.shiftl_spec_low by lia. reflexivity.
  - rewrite (Z.shiftl_spec_low b3), (Z.shiftl_spec_low b2), Z.shiftl_spec by lia.
    rewrite (byte_bit_high b0) by lia. cbn [orb]. rewrite orb_false_r. f_equal; lia.
  - rewrite (Z.shiftl_spec_low b3), (Z.shiftl_spec b2), (Z.shiftl_spec b1) by lia.
    rewrite (byte_bit_high b0), (byte_bit_high b1) by lia.
    cbn [orb]. rewrite !orb_false_r. f_equal; lia.
  - rewrite (Z.shiftl_spec b3), (Z.shiftl_spec b2), (Z.shiftl_spec b1) by lia.
    rewrite (byte_bit_high b0), (byte_bit_high b1), (byte_bit_high b2) by lia.
    rewrite !orb_false_r. f_equal; lia.
Qed.

(** Two pattern bytes as one 16-bit word of 2-bit fields: field [c] for
    [c < 4] is field [c] of the first byte, and field [4 + c] is field
    [c] of the second. *)
Lemma word16_pick2 lo hi h c :
  0 <= lo < 256 -> 0 <= hi < 256 -> 0 <= h < 2 -> 0 <= c < 4 ->
  pick2 (word16 lo hi) (4 * h + c) = pick2 (if h =? 0 then lo else hi) c.
Proof.
  intros Hlo Hhi Hh Hc. apply Z.bits_inj'. intros n Hn.
  rewrite !pick2_bit by lia.
  destruct (Z.ltb_spec n 2); [|now rewrite !andb_false_r].
  rewrite !andb_true_r, word16_bit by lia.
  cases2 h; cbn [Z.eqb].
  - destruct (Z.ltb_spec (n + 2 * (4 * 0 + c)) 8); [|lia]. f_equal; lia.
  - destruct (Z.ltb_spec (n + 2 * (4 * 1 + c)) 8); [lia|]. f_equal; lia.
Qed.

(** ** Encodings 0x8 and 0xa *)

(** The pixel at [a] of a block painted quadrant by quadrant or row by
    row comes from the filler of its quadrant or row: the fillers that
    run later leave it alone. *)
Ltac skip_later_fills w :=
  repeat match goal with
         | |- patternQuadrant2Pixels _ ?b ?x0 ?x1 ?p ?m ?a = _ =>
             rewrite (patternQuadrant2Pixels_frame w b x0 x1 p m a) by (cbn [in_rows]; lia)
         | |- patternQuadrant4Pixels _ ?b ?x0 ?x1 ?x2 ?x3 ?p ?m ?a = _ =>
             rewrite (patternQuadrant4Pixels_frame w b x0 x1 x2 x3 p m a)
               by (cbn [in_rows]; lia)
         | |- patternRow2Pixels ?b ?x ?p ?m ?a = _ =>
             rewrite (patternRow2Pixels_frame w b x p m a) by (cbn [in_rows]; lia)
         | |- patternRow4Pixels ?b ?x0 ?x1 ?p ?m ?a = _ =>
             rewrite (patternRow4Pixels_frame w b x0 x1 p m a) by (cbn [in_rows]; lia)
         end.

Ltac hit_quadrant w r c :=
  match goal with
  | |- patternQuadrant2Pixels _ ?b _ _ _ _ ?a = _ =>
      replace a with (b + r * w + c) by lia;
      rewrite patternQuadrant2Pixels_content by lia
  | |- patternQuadrant4Pixels _ ?b _ _ _ _ _ _ ?a = _ =>
      replace a with (b + r * w + c) by lia;
      rewrite patternQuadrant4Pixels_content by lia
  end.

(** The place of a pixel inside its quadrant. *)
Ltac hit_fill w :=
  first [ hit_quadrant w 0 0 | hit_quadrant w 0 1 | hit_quadrant w 0 2 | hit_quadrant w 0 3
        | hit_quadrant w 1 0 | hit_quadrant w 1 1 | hit_quadrant w 1 2 | hit_quadrant w 1 3
        | hit_quadrant w 2 0 | hit_quadrant w 2 1 | hit_quadrant w 2 2 | hit_quadrant w 2 3
        | hit_quadrant w 3 0 | hit_quadrant w 3 1 | hit_quadrant w 3 2 | hit_quadrant w 3 3 ].

Section TwoColourQuadrants.

Variable data : Z -> Z.
Variables vBackBuf1 vBackBuf2 width height : Z.

(** The payload is a store of bytes. *)
Hypothesis data_bytes : forall a, 0 <= data a < 256.

(** X14. Encoding 0x8 with [P0 <= P1] at the payload cursor: the block is
    four quadrants of 4 by 4 pixels, in the payload in the order top
    left, bottom left, top right, bottom right, each with two colours and
    two pattern bytes of its own. In a quadrant the pixels are numbered
    row by row from the top left; the first pattern byte holds the bits
    of the upper two rows, the least significant bit first, and a set bit
    gives the second colour of the quadrant. *)
Theorem op8_four_quadrants st :
  8 <= width ->
  let pD := pData st in
  data pD <= data (pD + 1) ->
  let st' := dispatchDecoder data vBackBuf1 vBackBuf2 width height 8 st in
  pData st' = pD + 16 /\
  pFrame st' = pFrame st + 8 /\
  forall r c, 0 <= r < 8 -> 0 <= c < 8 ->
    let q := pD + 4 * (2 * (c / 4) + r / 4) in
    dmem st' (pFrame st + r * width + c)
    = if Z.testbit (data (q + 2 + (r mod 4) / 2)) (4 * (r mod 2) + c mod 4)
      then data (q + 1) else data q.
Proof.
  intros Hw pD Hle st'. subst st' pD.
  destruct st as [m pF pD rem xb yb]. cbn [pData pFrame] in *.
  cbn [dispatchDecoder]. unfold op8. cbn [peek].
  apply Z.leb_le in Hle. rewrite Z.add_0_r, Hle. exec.
  repeat split; try lia. intros r c Hr Hc.
  cases8 r; cases8 c; skip_later_fills width; hit_fill width;
    rewrite at4_two, word16_bit by (try apply data_bytes; lia);
    cbn; norm_data data pD; reflexivity.
Qed.

(** X15. Encoding 0x8 with [P0 > P1] and [P2 <= P3] (the bytes 6 and 7
    from the payload cursor): the block is a left and a right half, each
    with two colours and four pattern bytes, the six bytes of the left
    half first. In a half, one pattern byte holds the bits of two rows of
    4 pixels, the upper row in its low nibble. *)
Theorem op8_left_right st :
  8 <= width ->
  let pD := pData st in
  data pD > data (pD + 1) -> data (pD + 6) <= data (pD + 7) ->
  let st' := dispatchDecoder data vBackBuf1 vBackBuf2 width height 8 st in
  pData st' = pD + 12 /\
  pFrame st' = pFrame st + 8 /\
  forall r c, 0 <= r < 8 -> 0 <= c < 8 ->
    let h := pD + 6 * (c / 4) in
    dmem st' (pFrame st + r * width + c)
    = if Z.testbit (data (h + 2 + r / 2)) (4 * (r mod 2) + c mod 4)
      then data (h + 1) else data h.
Proof.
  intros Hw pD Hgt Hle st'. subst st' pD.
  destruct st as [m pF pD rem xb yb]. cbn [pData pFrame] in *.
  cbn [dispatchDecoder]. unfold op8. cbn [peek].
  assert (E : (data pD <=? data (pD + 1)) = false) by (apply Z.leb_gt; lia).
  apply Z.leb_le in Hle. rewrite Z.add_0_r, E, Hle. exec.
  repeat split; try lia. intros r c Hr Hc.
  cases8 r; cases8 c; skip_later_fills width; hit_fill width;
    rewrite at4_two, word16_bit by (try apply data_bytes; lia);
    cbn; norm_data data pD; reflexivity.
Qed.

End TwoColourQuadrants.

Section TwoColourHalves.

Variable data : Z -> Z.
Variables vBackBuf1 vBackBuf2 width height : Z.

(** X16. Encoding 0x8 with [P0 > P1] and [P2 > P3]: the block is an upper
    and a lower half, each with two colours and four pattern bytes, one
    byte for each row of 8 pixels, the least significant bit the leftmost
    pixel. *)
Theorem op8_top_bottom st :
  8 <= width ->
  let pD := pData st in
  data pD > data (pD + 1) -> data (pD + 6) > data (pD + 7) ->
  let st' := dispatchDecoder data vBackBuf1 vBackBuf2 width height 8 st in
  pData st' = pD + 12 /\
  pFrame st' = pFrame st + 8 /\
  forall r c, 0 <= r < 8 -> 0 <= c < 8 ->
    let h := pD + 6 * (r / 4) in
    dmem st' (pFrame st + r * width + c)
    = if Z.testbit (data (h + 2 + r mod 4)) c then data (h + 1) else data h.
Proof.
  intros Hw pD Hgt Hgt' st'. subst st' pD.
  destruct st as [m pF pD rem xb yb]. cbn [pData pFrame] in *.
  cbn [dispatchDecoder]. unfold op8. cbn [peek].
  assert (E : (data pD <=? data (pD + 1)) = false) by (apply Z.leb_gt; lia).
  assert (E' : (data (pD + 6) <=? data (pD + 7)) = false) by (apply Z.leb_gt; lia).
  rewrite Z.add_0_r, E, E'. exec.
  repeat split; try lia. intros r c Hr Hc.
  cases8 r; skip_later_rows width; hit_row width c;
    rewrite at4_two; cbn; norm_data data pD; reflexivity.
Qed.

End TwoColourHalves.

Lemma word16_pick2_byte lo hi c :
  0 <= lo < 256 -> 0 <= hi < 256 -> 0 <= c < 8 ->
  pick2 (word16 lo hi) c = pick2 (if c <? 4 then lo else hi) (c mod 4).
Proof.
  intros Hlo Hhi Hc. destruct (Z.ltb_spec c 4).
  - replace c with (4 * 0 + c) at 1 by lia.
    rewrite word16_pick2 by lia. now rewrite Z.mod_small by lia.
  - replace c with (4 * 1 + (c - 4)) at 1 by lia.
    rewrite word16_pick2 by lia. cbn [Z.eqb]. f_equal.
    replace c with (c - 4 + 1 * 4) at 2 by lia.
    rewrite Z.mod_add, Z.mod_small by lia. reflexivity.
Qed.

Section FourColourQuadrants.

Variable data : Z -> Z.
Variables vBackBuf1 vBackBuf2 width height : Z.

(** The payload is a store of bytes. *)
Hypothesis data_bytes : forall a, 0 <= data a < 256.

(** X17. Encoding 0xa with [P0 <= P1] at the payload cursor: the block is
    four quadrants of 4 by 4 pixels, in the payload in the order top
    left, bottom left, top right, bottom right, each with four colours
    and four pattern bytes of its own. A pattern byte holds one row of
    the quadrant, 2 bits for each pixel, the least significant bits the
    leftmost pixel; the 2 bits are the number of the colour. *)
Theorem opa_four_quadrants st :
  8 <= width ->
  let pD := pData st in
  data pD <= data (pD + 1) ->
  let st' := dispatchDecoder data vBackBuf1 vBackBuf2 width height 10 st in
  pData st' = pD + 32 /\
  pFrame st' = pFrame st + 8 /\
  forall r c, 0 <= r < 8 -> 0 <= c < 8 ->
    let q := pD + 8 * (2 * (c / 4) + r / 4) in
    dmem st' (pFrame st + r * width + c)
    = at4 (Arr4 (data q) (data (q + 1)) (data (q + 2)) (data (q + 3)))
        (pick2 (data (q + 4 + r mod 4)) (c mod 4)).
Proof.
  intros Hw pD Hle st'. subst st' pD.
  destruct st as [m pF pD rem xb yb]. cbn [pData pFrame] in *.
  cbn [dispatchDecoder]. unfold opa. cbn [peek].
  apply Z.leb_le in Hle. rewrite Z.add_0_r, Hle. exec.
  repeat split; try lia. intros r c Hr Hc.
  cases8 r; cases8 c; skip_later_fills width; hit_fill width;
    rewrite quad32_pick2 by (try apply data_bytes; lia);
    cbn; norm_data data pD; reflexivity.
Qed.

(** X18. Encoding 0xa with [P0 > P1] and [P4 <= P5] (the bytes 12 and 13
    from the payload cursor): the block is a left and a right half, each
    with four colours and eight pattern bytes, the twelve bytes of the
    left half first; a pattern byte holds one row of 4 pixels of the
    half. *)
Theorem opa_left_right st :
  8 <= width ->
  let pD := pData st in
  data pD > data (pD + 1) -> data (pD + 12) <= data (pD + 13) ->
  let st' := dispatchDecoder data vBackBuf1 vBackBuf2 width height 10 st in
  pData st' = pD + 24 /\
  pFrame st' = pFrame st + 8 /\
  forall r c, 0 <= r < 8 -> 0 <= c < 8 ->
    let h := pD + 12 * (c / 4) in
    dmem st' (pFrame st + r * width + c)
    = at4 (Arr4 (data h) (data (h + 1)) (data (h + 2)) (data (h + 3)))
        (pick2 (data (h + 4 + r)) (c mod 4)).
Proof.
  intros Hw pD Hgt Hle st'. subst st' pD.
  destruct st as [m pF pD rem xb yb]. cbn [pData pFrame] in *.
  cbn [dispatchDecoder]. unfold opa. cbn [peek].
  assert (E : (data pD <=? data (pD + 1)) = false) by (apply Z.leb_gt; lia).
  apply Z.leb_le in Hle. rewrite Z.add_0_r, E, Hle. exec.
  repeat split; try lia. intros r c Hr Hc.
  cases8 r; cases8 c; skip_later_fills width; hit_fill width;
    rewrite quad32_pick2 by (try apply data_bytes; lia);
    cbn; norm_data data pD; reflexivity.
Qed.

(** X19. Encoding 0xa with [P0 > P1] and [P4 > P5]: the block is an upper
    and a lower half, each with four colours and eight pattern bytes, two
    bytes for each row of 8 pixels, the first byte the left 4 pixels. *)
Theorem opa_top_bottom st :
  8 <= width ->
  let pD := pData st in
  data pD > data (pD + 1) -> data (pD + 12) > data (pD + 13) ->
  let st' := dispatchDecoder data vBackBuf1 vBackBuf2 width height 10 st in
  pData st' = pD + 24 /\
  pFrame st' = pFrame st + 8 /\
  forall r c, 0 <= r < 8 -> 0 <= c < 8 ->
    let h := pD + 12 * (r / 4) in
    dmem st' (pFrame st + r * width + c)
    = at4 (Arr4 (data h) (data (h + 1)) (data (h + 2)) (data (h + 3)))
        (pick2 (data (h + 4 + 2 * (r mod 4) + c / 4)) (c mod 4)).
Proof.
  intros Hw pD Hgt Hgt' st'. subst st' pD.
  destruct st as [m pF pD rem xb yb]. cbn [pData pFrame] in *.
  cbn [dispatchDecoder]. unfold opa. cbn [peek].
  assert (E : (data pD <=? data (pD + 1)) = false) by (apply Z.leb_gt; lia).
  assert (E' : (data (pD + 12) <=? data (pD + 13)) = false) by (apply Z.leb_gt; lia).
  rewrite Z.add_0_r, E, E'. exec.
  repeat split; try lia. intros r c Hr Hc.
  cases8 r; cases8 c; skip_later_rows width;
    match goal with
    | |- patternRow4Pixels ?b _ _ _ _ ?a = _ =>
        first [ replace a with (b + 0) by lia | replace a with (b + 1) by lia
              | replace a with (b + 2) by lia | replace a with (b + 3) by lia
              | replace a with (b + 4) by lia | replace a with (b + 5) by lia
              | replace a with (b + 6) by lia | replace a with (b + 7) by lia ];
        rewrite patternRow4Pixels_content by lia
    end;
    match goal with
    | |- context [Z.land (Z.shiftr (u16 (Z.lor (Z.shiftl ?hi 8) ?lo)) (2 * ?k)) 3] =>
        change (Z.land (Z.shiftr (u16 (Z.lor (Z.shiftl hi 8) lo)) (2 * k)) 3)
          with (pick2 (word16 lo hi) k)
    end;
    rewrite word16_pick2_byte by (try apply data_bytes; lia);
    cbn; norm_data data pD; reflexivity.
Qed.

End FourColourQuadrants.

(** ** What a dispatch never does *)

(** X20. Whatever the encoding and the payload, [dispatchDecoder] changes
    no byte of the frame memory outside the 8 rows of 8 bytes at the
    write cursor; a code type above 0xf changes nothing at all. *)
Theorem dispatchDecoder_writes_one_block data vBackBuf1 vBackBuf2 width height c st :
  let st' := dispatchDecoder data vBackBuf1 vBackBuf2 width height c st in
  same_outside (in_block width (pFrame st)) (dmem st) (dmem st') /\
  (~ 0 <= c <= 15 -> st' = st).
Proof.
  intros st'. subst st'. split; [|apply dispatch_other].
  destruct (Z.eq_dec c 6) as [-> | H6].
  - change (dispatchDecoder data vBackBuf1 vBackBuf2 width height 6 st)
      with (op6 width height st).
    destruct (op6_keeps width height st) as (HM & _). rewrite HM.
    apply same_outside_refl.
  - destruct (Z_le_dec 0 c) as [H0|H0]; [destruct (Z_le_dec c 15) as [H15|H15]|].
    + apply dispatch_writes_block; lia.
    + rewrite dispatch_other by lia. apply same_outside_refl.
    + rewrite dispatch_other by lia. apply same_outside_refl.
Qed.

(** ** The count of remaining payload bytes is never read *)

Section Remaining.

Variable data : Z -> Z.
Variables vBackBuf1 vBackBuf2 width height : Z.

#[local] Abbreviation dispatch :=
  (dispatchDecoder data vBackBuf1 vBackBuf2 width height).

Ltac same_but_count :=
  match goal with
  | st : dstate |- _ => destruct st as [m pF pD rem xb yb]
  end;
  cbn [set_remain]; exec;
  repeat match goal with
         | |- context [relFar ?b ?s] => destruct (relFar b s)
         | |- context [relClose ?b] => destruct (relClose b)
         | |- context [?a <=? ?b] => destruct (a <=? b)
         | |- context [?a =? ?b] => destruct (a =? b)
         end;
  exec; reflexivity.

Lemma dispatch_set_remain c st v :
  set_remain (dispatch c (set_remain st v)) 0 = set_remain (dispatch c st) 0.
Proof.
  destruct (Z_le_dec 0 c) as [H0|H0]; [destruct (Z_le_dec c 15) as [H15|H15]|];
    [|rewrite !dispatch_other by lia; now destruct st..].
  assert (c = 0 \/ c = 1 \/ c = 2 \/ c = 3 \/ c = 4 \/ c = 5 \/ c = 6 \/ c = 7 \/ c = 8 \/
          c = 9 \/ c = 10 \/ c = 11 \/ c = 12 \/ c = 13 \/ c = 14 \/ c = 15) as Hcases
    by lia.
  repeat (destruct Hcases as [-> | Hcases]); [..| subst c];
    cbv beta zeta delta [dispatchDecoder] iota.
  - unfold op0, op1. same_but_count.
  - unfold op1. same_but_count.
  - unfold op2. same_but_count.
  - unfold op3. same_but_count.
  - unfold op4. same_but_count.
  - unfold op5. same_but_count.
  - destruct st as [m pF pD rem xb yb]. unfold op6, op6_pass. cbn [set_remain]. fields.
    destruct (xb + 1 =? Z.shiftr width 3); [destruct (yb + 1 =? Z.shiftr height 3)|];
      fields; try reflexivity;
      repeat match goal with
             | |- context [if ?a =? ?b then _ else _] => destruct (a =? b); fields
             end;
      reflexivity.
  - unfold op7. same_but_count.
  - unfold op8. same_but_count.
  - unfold op9. same_but_count.
  - unfold opa. same_but_count.
  - unfold opb. same_but_count.
  - unfold opc. same_but_count.
  - unfold opd. same_but_count.
  - unfold ope. same_but_count.
  - unfold opf. same_but_count.
Qed.

Lemma dispatch_forget c st st' :
  set_remain st 0 = set_remain st' 0 ->
  set_remain (dispatch c st) 0 = set_remain (dispatch c st') 0.
Proof.
  intros H. rewrite <- (dispatch_set_remain c st 0), <- (dispatch_set_remain c st' 0).
  now rewrite H.
Qed.

Lemma forget_cursor st st' :
  set_remain st 0 = set_remain st' 0 ->
  pFrame st = pFrame st' /\ curXb st = curXb st' /\ curYb st = curYb st'.
Proof. destruct st, st'. cbn [set_remain]. intros [= -> -> -> -> ->]. now fields. Qed.

Lemma report_forget which code st st' log :
  set_remain st 0 = set_remain st' 0 ->
  report vBackBuf1 width height which code st log
  = report vBackBuf1 width height which code st' log.
Proof.
  intros H. apply forget_cursor in H as (HF & HX & HY).
  unfold report. now rewrite HF, HX, HY.
Qed.

Lemma block_pair_forget b st st' log :
  set_remain st 0 = set_remain st' 0 ->
  set_remain (fst (block_pair data vBackBuf1 vBackBuf2 width height b st log)) 0
  = set_remain (fst (block_pair data vBackBuf1 vBackBuf2 width height b st' log)) 0 /\
  snd (block_pair data vBackBuf1 vBackBuf2 width height b st log)
  = snd (block_pair data vBackBuf1 vBackBuf2 width height b st' log).
Proof.
  intros H. unfold block_pair. cbn [fst snd].
  pose proof (dispatch_forget (u8 (Z.land b 15)) st st' H) as H1.
  pose proof (dispatch_forget (u8 (Z.shiftr b 4)) _ _ H1) as H2.
  split; [exact H2|].
  rewrite (report_forget 1 _ _ _ log H1). now apply report_forget.
Qed.

Lemma inner_loop_forget pMap : forall st st' log,
  set_remain st 0 = set_remain st' 0 ->
  forget_rows (inner_loop data vBackBuf1 vBackBuf2 width height pMap st log)
  = forget_rows (inner_loop data vBackBuf1 vBackBuf2 width height pMap st' log).
Proof.
  induction pMap as [|b rest IH]; intros st st' log H; cbn [inner_loop];
    destruct (forget_cursor st st' H) as (_ & HX & _); rewrite <- HX.
  - destruct (_ <? _); [reflexivity|]. cbn [forget_rows]. now rewrite H.
  - destruct (_ <? _); [|cbn [forget_rows]; now rewrite H].
    destruct (block_pair_forget b st st' log H) as (Hs & Hl).
    destruct (block_pair data vBackBuf1 vBackBuf2 width height b st log) as [s1 l1].
    destruct (block_pair data vBackBuf1 vBackBuf2 width height b st' log) as [s1' l1'].
    cbn [fst snd] in Hs, Hl. subst l1'. apply IH.
    destruct s1, s1'. cbn [set_remain] in Hs. injection Hs as -> -> -> -> ->.
    reflexivity.
Qed.

Lemma outer_loop_forget fuel : forall pMap st st' log,
  set_remain st 0 = set_remain st' 0 ->
  forget_remain (outer_loop data vBackBuf1 vBackBuf2 width height fuel pMap st log)
  = forget_remain (outer_loop data vBackBuf1 vBackBuf2 width height fuel pMap st' log).
Proof.
  induction fuel as [|fuel IH]; intros pMap st st' log H; cbn [outer_loop];
    destruct (forget_cursor st st' H) as (_ & _ & HY); rewrite <- HY.
  - destruct (_ <? _); [reflexivity|]. cbn [forget_remain]. now rewrite H.
  - destruct (_ <? _); [|cbn [forget_remain]; now rewrite H].
    assert (H0 : set_remain (set_curXb st 0) 0 = set_remain (set_curXb st' 0) 0).
    { destruct st, st'. cbn [set_remain] in H. injection H as -> -> -> -> ->. reflexivity. }
    pose proof (inner_loop_forget pMap _ _ log H0) as Hin.
    destruct (inner_loop data vBackBuf1 vBackBuf2 width height pMap (set_curXb st 0) log)
      as [[[s1 r1] l1]|];
      destruct (inner_loop data vBackBuf1 vBackBuf2 width height pMap (set_curXb st' 0) log)
        as [[[s1' r1'] l1']|]; cbn [forget_rows] in Hin; try discriminate;
      [|reflexivity].
    injection Hin as Hs -> ->. apply IH.
    destruct s1, s1'. cbn [set_remain] in Hs. injection Hs as -> -> -> -> ->.
    reflexivity.
Qed.

End Remaining.

(** X21. [decodeFrame8] never reads the count [dataRemain] it is given:
    the frame memory, the cursors, the rest of the map and the messages
    at the end of a decode are the same for every value of the count, so
    that a payload shorter than the map asks for is read past its end. *)
Theorem decodeFrame8_ignores_dataRemain
    vBackBuf2 width height pFrame pMap data pData dataRemain dataRemain' m :
  forget_remain
    (decodeFrame8 vBackBuf2 width height pFrame pMap data pData dataRemain m)
  = forget_remain
      (decodeFrame8 vBackBuf2 width height pFrame pMap data pData dataRemain' m).
Proof. unfold decodeFrame8. now apply outer_loop_forget. Qed.

(** ** The count of remaining payload bytes at the end of a frame *)

Section Balance.

Variable data : Z -> Z.
Variables vBackBuf1 vBackBuf2 width height : Z.

#[local] Abbreviation dispatch :=
  (dispatchDecoder data vBackBuf1 vBackBuf2 width height).

Lemma dispatch_balance c st :
  keeps_count c = true ->
  pData (dispatch c st) + pDataRemain (dispatch c st) = pData st + pDataRemain st.
Proof.
  intros Hk. destruct (Z.eq_dec c 6) as [-> | H6].
  - change (dispatch 6 st) with (op6 width height st).
    destruct (op6_keeps width height st) as (_ & -> & ->). reflexivity.
  - destruct (Z_le_dec 0 c) as [H0|H0]; [destruct (Z_le_dec c 15) as [H15|H15]|];
      [|now rewrite dispatch_other by lia..].
    destruct (dispatch_step data vBackBuf1 vBackBuf2 width height c st
                ltac:(lia) H6) as (_ & HD & HR & _).
    unfold accounted in HR. rewrite Hk in HR. lia.
Qed.

Lemma inner_loop_balance pMap : forall st log st' rest log',
  Forall counted_byte pMap ->
  inner_loop data vBackBuf1 vBackBuf2 width height pMap st log = Some (st', rest, log') ->
  pData st' + pDataRemain st' = pData st + pDataRemain st /\
  Forall counted_byte rest.
Proof.
  induction pMap as [|b pMap IH]; intros st log st' rest log' Hok; cbn [inner_loop].
  - destruct (_ <? _); [discriminate|]. intros [= <- <- _]. now split.
  - destruct (_ <? _); [|intros [= <- <- _]; now split].
    inversion Hok as [|? ? (Hb & Hlo & Hhi) Hrest]; subst.
    unfold block_pair.
    destruct (low_nibble b Hb) as [-> _]. destruct (high_nibble b Hb) as [-> _].
    intros H. apply IH in H; [|exact Hrest]. destruct H as (H & Hok').
    split; [|exact Hok'].
    pose proof (dispatch_balance (b mod 16) st Hlo) as H1.
    pose proof (dispatch_balance (b / 16) (dispatch (b mod 16) st) Hhi) as H2.
    destruct (dispatch (b / 16) (dispatch (b mod 16) st)). fields. lia.
Qed.

Lemma outer_loop_balance fuel : forall pMap st log,
  Forall counted_byte pMap ->
  match outer_loop data vBackBuf1 vBackBuf2 width height fuel pMap st log with
  | Done st' _ _ => pData st' + pDataRemain st' = pData st + pDataRemain st
  | _ => True
  end.
Proof.
  induction fuel as [|fuel IH]; intros pMap st log Hok; cbn [outer_loop].
  - now destruct (_ <? _).
  - destruct (_ <? _); [|reflexivity].
    destruct (inner_loop _ _ _ _ _ _ _ _) as [[[s1 r1] l1]|] eqn:E; [|exact I].
    apply inner_loop_balance in E; [|exact Hok]. destruct E as (E & Hok1).
    match goal with
    | |- context [outer_loop _ _ _ _ _ fuel r1 ?s l1] =>
        specialize (IH r1 s l1 Hok1);
        destruct (outer_loop data vBackBuf1 vBackBuf2 width height fuel r1 s l1)
    end; try exact I.
    destruct s1, st. fields. lia.
Qed.

End Balance.

(** X22. When no encoding of the map is one of 0x7 to 0xa, the count of
    remaining payload bytes at the end of the decode has gone down by
    exactly the number of payload bytes the decode has read (encoding 0x6
    reads none and counts none). *)
Theorem decodeFrame8_counts_payload
    vBackBuf2 width height base pMap data pD dataRemain m :
  Forall counted_byte pMap ->
  match decodeFrame8 vBackBuf2 width height base pMap data pD dataRemain m with
  | Done st _ _ => dataRemain - pDataRemain st = pData st - pD
  | MapExhausted => True
  | OutOfFuel => False
  end.
Proof.
  intros Hok.
  pose proof (decodeFrame8_fuel vBackBuf2 width height base pMap data pD dataRemain m)
    as Hfuel.
  unfold decodeFrame8 in *.
  pose proof (outer_loop_balance data base vBackBuf2 width height
                (Z.to_nat (Z.shiftr height 3)) pMap
                (mkD m base pD dataRemain 0 0) [] Hok) as H.
  destruct (outer_loop _ _ _ _ _ _ _ _ _); [|exact I|now apply Hfuel].
  fields. lia.
Qed.

Lemma decodeFrame8_counts_payload_witness :
  Forall counted_byte [230; 27] /\
  match decodeFrame8 1000 32 8 0 [230; 27] (fun _ => 5) 0 100 (fun _ => 0) with
  | Done st _ _ => 100 - pDataRemain st = pData st - 0
  | MapExhausted => True
  | OutOfFuel => False
  end.
Proof.
  assert (Hok : Forall counted_byte [230; 27])
    by (repeat constructor; vm_compute; intuition discriminate).
  split; [exact Hok|].
  exact (decodeFrame8_counts_payload 1000 32 8 0 [230; 27] (fun _ => 5) 0 100
           (fun _ => 0) Hok).
Defined.

(** ** The payload bytes a dispatch reads *)

Lemma copy_data_n_ext data data' n src dst m :
  (forall k, 0 <= k < Z.of_nat n -> data' (src + k) = data (src + k)) ->
  copy_data_n data' n src dst m = copy_data_n data n src dst m.
Proof.
  revert src dst m. induction n as [|n IH]; intros src dst m H; cbn [copy_data_n];
    [reflexivity|].
  rewrite <- (Z.add_0_r src) at 2 4. rewrite H, Z.add_0_r by lia.
  apply IH. intros k Hk. replace (src + 1 + k) with (src + (1 + k)) by ring.
  apply H. lia.
Qed.

Section Reads.

Variables data data' : Z -> Z.
Variables vBackBuf1 vBackBuf2 width height : Z.

(** The payload store [data'] read as [data] where the two agree. *)
Ltac to_data pD H :=
  repeat match goal with
         | |- context [copy_data_n data' 8 ?s ?d ?m] =>
             rewrite (copy_data_n_ext data data' 8 s d m)
               by (let k := fresh "k" in let Hk := fresh "Hk" in
                   intros k Hk; replace (s + k) with (pD + (s + k - pD)) by lia;
                   apply H; lia)
         | |- context [data' ?x] =>
             replace (data' x) with (data x)
               by (replace x with (pD + (x - pD)) by lia; symmetry; apply H; lia)
         end.

(** X23. A dispatch reads no payload byte but the ones it consumes: two
    payloads that hold the same bytes from the payload cursor on, as many
    as the encoding consumes there, give the same frame memory, cursors
    and counters. *)
Theorem dispatchDecoder_reads_what_it_consumes c st :
  (forall k, 0 <= k < consumed data (pData st) c ->
             data' (pData st + k) = data (pData st + k)) ->
  dispatchDecoder data' vBackBuf1 vBackBuf2 width height c st
  = dispatchDecoder data vBackBuf1 vBackBuf2 width height c st.
Proof.
  intros H.
  destruct (Z_le_dec 0 c) as [H0|H0]; [destruct (Z_le_dec c 15) as [H15|H15]|];
    [|now rewrite !dispatch_other by lia..].
  destruct st as [m pF pD rem xb yb]. cbn [pData] in H.
  assert (c = 0 \/ c = 1 \/ c = 2 \/ c = 3 \/ c = 4 \/ c = 5 \/ c = 6 \/ c = 7 \/ c = 8 \/
          c = 9 \/ c = 10 \/ c = 11 \/ c = 12 \/ c = 13 \/ c = 14 \/ c = 15) as Hcases
    by lia.
  repeat (destruct Hcases as [-> | Hcases]); [..| subst c];
    cbv beta zeta delta [dispatchDecoder] iota; cbn [consumed] in H.
  - reflexivity.
  - reflexivity.
  - unfold op2. exec. to_data pD H. reflexivity.
  - unfold op3. exec. to_data pD H. reflexivity.
  - unfold op4. exec. to_data pD H. reflexivity.
  - unfold op5. exec. to_data pD H. reflexivity.
  - reflexivity.
  - unfold op7. cbn [fetch2 fetch set4 arr4_uninit at4 a0 a1].
    destruct (data pD <=? data (pD + 1)) eqn:E;
      to_data pD H; rewrite E; exec; to_data pD H; reflexivity.
  - unfold op8. cbn [peek]. rewrite !Z.add_0_r.
    destruct (data pD <=? data (pD + 1)) eqn:E;
      [|destruct (data (pD + 6) <=? data (pD + 7)) eqn:E'];
      to_data pD H; rewrite ?E, ?E'; exec; to_data pD H; reflexivity.
  - unfold op9. cbn [peek]. rewrite !Z.add_0_r.
    destruct (data pD <=? data (pD + 1)) eqn:E;
      destruct (data (pD + 2) <=? data (pD + 3)) eqn:E';
      to_data pD H; rewrite ?E, ?E'; exec; to_data pD H; reflexivity.
  - unfold opa. cbn [peek]. rewrite !Z.add_0_r.
    destruct (data pD <=? data (pD + 1)) eqn:E;
      [|destruct (data (pD + 12) <=? data (pD + 13)) eqn:E'];
      to_data pD H; rewrite ?E, ?E'; exec; to_data pD H; reflexivity.
  - unfold opb. exec. to_data pD H. reflexivity.
  - unfold opc. exec. to_data pD H. reflexivity.
  - unfold opd. exec. to_data pD H. reflexivity.
  - unfold ope. exec. to_data pD H. reflexivity.
  - unfold opf. exec. to_data pD H. reflexivity.
Qed.

End Reads.

Lemma dispatchDecoder_reads_what_it_consumes_witness :
  let data := fun _ : Z => 5 in
  let data' := store_of 0 [5] 9 in
  let st := mkD (fun _ => 0) 0 0 1 0 0 in
  (forall k, 0 <= k < consumed data (pData st) 14 ->
             data' (pData st + k) = data (pData st + k)) /\
  dispatchDecoder data' 0 1000 16 8 14 st = dispatchDecoder data 0 1000 16 8 14 st.
Proof.
  intros data data' st.
  assert (H : forall k, 0 <= k < consumed data (pData st) 14 ->
                        data' (pData st + k) = data (pData st + k)).
  { intros k Hk. change (0 <= k < 1) in Hk. assert (k = 0) as -> by lia. reflexivity. }
  split; [exact H|].
  exact (dispatchDecoder_reads_what_it_consumes data data' 0 1000 16 8 14 st H).
Defined.

(** ** Frames without a pair of blocks, maps that end early *)

Lemma outer_loop_no_pairs data vBackBuf1 vBackBuf2 width height fuel :
  Z.quot (Z.shiftr width 3) 2 <= 0 ->
  forall pMap st log,
  (Z.to_nat (Z.shiftr height 3 - curYb st) <= fuel)%nat ->
  exists st',
    outer_loop data vBackBuf1 vBackBuf2 width height fuel pMap st log = Done st' pMap log /\
    dmem st' = dmem st /\ pData st' = pData st /\ pDataRemain st' = pDataRemain st.
Proof.
  intros Hq. induction fuel as [|fuel IH]; intros pMap st log Hfuel; cbn [outer_loop].
  - destruct (Z.ltb_spec (curYb st) (Z.shiftr height 3)); [lia|]. now exists st.
  - destruct (Z.ltb_spec (curYb st) (Z.shiftr height 3)); [|now exists st].
    assert (Hin : inner_loop data vBackBuf1 vBackBuf2 width height pMap (set_curXb st 0) log
                  = Some (set_curXb st 0, pMap, log)).
    { destruct st, pMap; cbn [inner_loop set_curXb curXb];
        destruct (Z.ltb_spec 0 (Z.quot (Z.shiftr width 3) 2)); (lia || reflexivity). }
    rewrite Hin.
    match goal with
    | |- context [outer_loop _ _ _ _ _ fuel pMap ?s log] =>
        destruct (IH pMap s log) as (st' & Hrun & Hmem & HD & HR)
    end.
    + destruct st. fields. lia.
    + exists st'. split; [exact Hrun|]. rewrite Hmem, HD, HR. now destruct st.
Qed.

(** X24. A frame less than 16 pixels wide or less than 8 pixels high has
    no pair of blocks to decode: [decodeFrame8] returns with the frame
    memory as it was, having taken no byte off the map, read no payload
    and reported nothing. *)
Theorem decodeFrame8_small_frame
    vBackBuf2 width height base pMap data pD dataRemain m :
  0 <= width < 16 \/ height < 8 ->
  exists st,
    decodeFrame8 vBackBuf2 width height base pMap data pD dataRemain m = Done st pMap [] /\
    dmem st = m /\ pData st = pD /\ pDataRemain st = dataRemain.
Proof.
  intros [Hw | Hh]; unfold decodeFrame8.
  - destruct (outer_loop_no_pairs data base vBackBuf2 width height
                (Z.to_nat (Z.shiftr height 3))) with
      (pMap := pMap) (st := mkD m base pD dataRemain 0 0) (log := @nil diag)
      as (st' & Hrun & HM & HD & HR).
    + rewrite Z.shiftr_div_pow2 by lia. change (2 ^ 3) with 8.
      assert (0 <= width / 8) by (apply Z.div_pos; lia).
      assert (width / 8 < 2) by (apply Z.div_lt_upper_bound; lia).
      rewrite Z.quot_div_nonneg by lia.
      assert (width / 8 / 2 < 1) by (apply Z.div_lt_upper_bound; lia). lia.
    + fields. lia.
    + exists st'. auto.
  - assert (Hyb : Z.shiftr height 3 <= 0).
    { rewrite Z.shiftr_div_pow2 by lia. change (2 ^ 3) with 8.
      assert (height / 8 < 1) by (apply Z.div_lt_upper_bound; lia). lia. }
    replace (Z.to_nat (Z.shiftr height 3)) with 0%nat by lia.
    cbn [outer_loop curYb].
    destruct (Z.ltb_spec 0 (Z.shiftr height 3)); [lia|].
    eexists. split; [reflexivity|]. now fields.
Qed.

Lemma decodeFrame8_small_frame_witness :
  (0 <= 12 < 16 \/ 24 < 8) /\
  exists st,
    decodeFrame8 1000 12 24 0 [238] (fun _ => 5) 0 1 (fun a => a mod 7) = Done st [238] [] /\
    dmem st = (fun a => a mod 7) /\ pData st = 0 /\ pDataRemain st = 1.
Proof.
  split; [left; lia|].
  apply (decodeFrame8_small_frame 1000 12 24 0 [238] (fun _ => 5) 0 1 (fun a => a mod 7)).
  left. lia.
Defined.

(** X25. [decodeFrame8] takes the front of the map without asking whether
    a byte is left: with a map that holds no encoding 0x6 and fewer than
    [(height/8) * (width/16)] bytes, the walk comes to the front of an
    empty map. *)
Theorem decodeFrame8_map_too_short
    vBackBuf2 width height base pMap data pD dataRemain m :
  0 <= width ->
  Forall no_skip_byte pMap ->
  (length pMap < Z.to_nat (height / 8) * Z.to_nat (width / 16))%nat ->
  decodeFrame8 vBackBuf2 width height base pMap data pD dataRemain m = MapExhausted.
Proof.
  intros Hw Hok Hlen. rewrite decodeFrame8_decode_frame by assumption.
  unfold decode_frame.
  pose proof (spec_rows_effect data base vBackBuf2 width height
                (Z.to_nat (height / 8)) pMap (mkD m base pD dataRemain 0 0) [] Hok) as H.
  destruct (spec_rows _ _ _ _ _ _ _ _ _) as [[[st rest] log]|]; [|reflexivity].
  destruct H as (H & _). lia.
Qed.

Lemma decodeFrame8_map_too_short_witness :
  0 <= 32 /\ Forall no_skip_byte [225] /\
  (length [225] < Z.to_nat (8 / 8) * Z.to_nat (32 / 16))%nat /\
  decodeFrame8 1000 32 8 0 [225] (fun _ => 5) 0 1 (fun _ => 0) = MapExhausted.
Proof.
  assert (Hok : Forall no_skip_byte [225])
    by (repeat constructor; vm_compute; intuition discriminate).
  assert (Hlen : (length [225] < Z.to_nat (8 / 8) * Z.to_nat (32 / 16))%nat)
    by (vm_compute; lia).
  split; [lia|]. split; [exact Hok|]. split; [exact Hlen|].
  exact (decodeFrame8_map_too_short 1000 32 8 0 [225] (fun _ => 5) 0 1 (fun _ => 0)
           ltac:(lia) Hok Hlen).
Defined.

(** ** Block-rows that have been decoded stay as they are *)

Section Heights.

Variable data : Z -> Z.
Variables vBackBuf1 vBackBuf2 width : Z.

(** Only encoding 0x6 looks at the height of the frame. *)
Lemma dispatch_height h h' c st :
  c <> 6 ->
  dispatchDecoder data vBackBuf1 vBackBuf2 width h c st
  = dispatchDecoder data vBackBuf1 vBackBuf2 width h' c st.
Proof.
  intros H6. unfold dispatchDecoder.
  destruct c as [|p|p]; [reflexivity | | reflexivity].
  do 4 (try (destruct p as [p|p|]; try reflexivity)); lia.
Qed.

Lemma spec_pair_height h h' b st log log' :
  no_skip_byte b ->
  fst (spec_pair data vBackBuf1 vBackBuf2 width h b st log)
  = fst (spec_pair data vBackBuf1 vBackBuf2 width h' b st log').
Proof.
  intros (_ & Hlo & Hhi). unfold spec_pair. cbn [fst].
  rewrite (dispatch_height h h' (b mod 16)) by exact Hlo.
  now rewrite (dispatch_height h h' (b / 16)) by exact Hhi.
Qed.

Lemma spec_row_height h h' n : forall pMap st log log',
  Forall no_skip_byte pMap ->
  match spec_row data vBackBuf1 vBackBuf2 width h n pMap st log,
        spec_row data vBackBuf1 vBackBuf2 width h' n pMap st log' with
  | Some (s, r, _), Some (s', r', _) => s = s' /\ r = r'
  | None, None => True
  | _, _ => False
  end.
Proof.
  induction n as [|n IH]; intros pMap st log log' Hok; cbn [spec_row]; [now split|].
  destruct pMap as [|b rest]; [exact I|].
  inversion Hok as [|? ? Hb Hrest]; subst.
  pose proof (spec_pair_height h h' b st log log' Hb) as Hs.
  destruct (spec_pair data vBackBuf1 vBackBuf2 width h b st log) as [s1 l1].
  destruct (spec_pair data vBackBuf1 vBackBuf2 width h' b st log') as [s1' l1'].
  cbn [fst] in Hs. subst s1'. now apply IH.
Qed.

Lemma spec_rows_height h h' n : forall pMap st log log',
  Forall no_skip_byte pMap ->
  match spec_rows data vBackBuf1 vBackBuf2 width h n pMap st log,
        spec_rows data vBackBuf1 vBackBuf2 width h' n pMap st log' with
  | Some (s, r, _), Some (s', r', _) => s = s' /\ r = r'
  | None, None => True
  | _, _ => False
  end.
Proof.
  induction n as [|n IH]; intros pMap st log log' Hok; cbn [spec_rows]; [now split|].
  pose proof (spec_row_height h h' (Z.to_nat (width / 16)) pMap (set_curXb st 0)
                log log' Hok) as Hrow.
  pose proof (spec_row_effect data vBackBuf1 vBackBuf2 width h (Z.to_nat (width / 16))
                pMap (set_curXb st 0) log Hok) as Heff.
  destruct (spec_row data vBackBuf1 vBackBuf2 width h (Z.to_nat (width / 16))
              pMap (set_curXb st 0) log) as [[[s1 r1] l1]|];
    destruct (spec_row data vBackBuf1 vBackBuf2 width h' (Z.to_nat (width / 16))
                pMap (set_curXb st 0) log') as [[[s1' r1'] l1']|];
    try exact Hrow; try (exfalso; exact Hrow).
  destruct Hrow as [<- <-]. destruct Heff as (_ & -> & _).
  apply IH. now apply Forall_skipn_keeps.
Qed.

Lemma spec_rows_app h n1 n2 : forall pMap st log,
  spec_rows data vBackBuf1 vBackBuf2 width h (n1 + n2) pMap st log
  = match spec_rows data vBackBuf1 vBackBuf2 width h n1 pMap st log with
    | Some (s, r, l) => spec_rows data vBackBuf1 vBackBuf2 width h n2 r s l
    | None => None
    end.
Proof.
  induction n1 as [|n1 IH]; intros pMap st log; cbn [Nat.add spec_rows]; [reflexivity|].
  destruct (spec_row _ _ _ _ _ _ _ _ _) as [[[s1 r1] l1]|]; [|reflexivity].
  apply IH.
Qed.

End Heights.

Lemma in_bands_from width p n a :
  0 <= width -> in_bands width p n a -> p <= a.
Proof.
  intros Hw (k & Hk & Hrows). apply in_rows_spec in Hrows as (r & Hr & Ha).
  assert (0 <= k * stride width) by (unfold stride; nia).
  assert (0 <= r * width) by nia. lia.
Qed.

(** X26. The block-rows are decoded from the top, and a block-row that has
    been decoded is not written again: from the same map (without
    encoding 0x6) and payload, the decode of a frame of height [h2]
    leaves every byte before the end of the first [h1/8] block-rows as
    the decode of the frame of height [h1 <= h2] leaves it. *)
Theorem decodeFrame8_rows_are_final
    vBackBuf2 width h1 h2 base pMap data pD dataRemain m :
  0 <= width -> 0 <= h1 <= h2 ->
  Forall no_skip_byte pMap ->
  (Z.to_nat (h2 / 8) * Z.to_nat (width / 16) <= length pMap)%nat ->
  exists st1 rest1 log1 st2 rest2 log2,
    decodeFrame8 vBackBuf2 width h1 base pMap data pD dataRemain m = Done st1 rest1 log1 /\
    decodeFrame8 vBackBuf2 width h2 base pMap data pD dataRemain m = Done st2 rest2 log2 /\
    forall a, a < base + (h1 / 8) * stride width -> dmem st2 a = dmem st1 a.
Proof.
  intros Hw Hh Hok Hlen.
  rewrite !decodeFrame8_decode_frame by assumption. unfold decode_frame.
  assert (Hn : Z.to_nat (h2 / 8)
               = (Z.to_nat (h1 / 8) + (Z.to_nat (h2 / 8) - Z.to_nat (h1 / 8)))%nat).
  { assert (h1 / 8 <= h2 / 8) by (apply Z.div_le_mono; lia). lia. }
  set (n1 := Z.to_nat (h1 / 8)) in *. set (k := (Z.to_nat (h2 / 8) - n1)%nat) in *.
  rewrite Hn in Hlen |- *. rewrite spec_rows_app.
  set (st0 := mkD m base pD dataRemain 0 0).
  pose proof (spec_rows_height data base vBackBuf2 width h1 h2 n1 pMap st0 [] [] Hok)
    as Hsame.
  pose proof (spec_rows_effect data base vBackBuf2 width h1 n1 pMap st0 [] Hok) as Heff1.
  destruct (spec_rows data base vBackBuf2 width h1 n1 pMap st0 [])
    as [[[s1 r1] l1]|]; [|nia].
  destruct (spec_rows data base vBackBuf2 width h2 n1 pMap st0 [])
    as [[[s1' r1'] l1']|]; [|contradiction].
  destruct Hsame as [<- <-]. destruct Heff1 as (L1 & R1 & F1 & _).
  assert (Hok1 : Forall no_skip_byte r1) by (subst r1; now apply Forall_skipn_keeps).
  pose proof (spec_rows_effect data base vBackBuf2 width h2 k r1 s1 l1' Hok1) as Heff2.
  destruct (spec_rows data base vBackBuf2 width h2 k r1 s1 l1')
    as [[[s2 r2] l2]|].
  - exists s1, r1, l1, s2, r2, l2. split; [reflexivity|]. split; [reflexivity|].
    destruct Heff2 as (_ & _ & _ & _ & M2). intros a Ha. apply M2.
    intros Hin. apply in_bands_from in Hin; [|exact Hw].
    subst st0. fields. rewrite F1 in Hin. subst n1.
    rewrite Z2Nat.id in Hin by (apply Z.div_pos; lia). lia.
  - exfalso. assert (length r1 = (length pMap - n1 * Z.to_nat (width / 16))%nat)
      by (subst r1; apply length_skipn). nia.
Qed.

Lemma decodeFrame8_rows_are_final_witness :
  exists st1 rest1 log1 st2 rest2 log2,
    decodeFrame8 1000 16 8 0 [225; 30] (fun _ => 5) 0 2 (fun _ => 9) = Done st1 rest1 log1 /\
    decodeFrame8 1000 16 16 0 [225; 30] (fun _ => 5) 0 2 (fun _ => 9) = Done st2 rest2 log2 /\
    forall a, a < 0 + (8 / 8) * stride 16 -> dmem st2 a = dmem st1 a.
Proof.
  apply (decodeFrame8_rows_are_final 1000 16 8 16 0 [225; 30] (fun _ => 5) 0 2 (fun _ => 9)).
  - lia.
  - lia.
  - repeat constructor; vm_compute; intuition discriminate.
  - vm_compute. lia.
Defined.

(** ** The theorems above on concrete blocks *)

Lemma opb_raw_pixels_witness :
  let data := fun a : Z => a mod 256 in
  let st' := dispatchDecoder data 0 1000 16 8 11 (mkD (fun _ => 0) 0 0 64 0 0) in
  8 <= 16 /\
  pData st' = 0 + 64 /\
  dmem st' (0 + 3 * 16 + 5) = data (0 + 8 * 3 + 5).
Proof.
  split; [lia|].
  destruct (opb_raw_pixels (fun a : Z => a mod 256) 0 1000 16 8
              (mkD (fun _ => 0) 0 0 64 0 0) ltac:(lia)) as (HD & _ & _ & HM).
  split; [exact HD|]. apply HM; lia.
Defined.

Lemma ope_solid_block_witness :
  let data := fun _ : Z => 5 in
  let st' := dispatchDecoder data 0 1000 16 8 14 (mkD (fun _ => 0) 0 0 1 0 0) in
  8 <= 16 /\
  pData st' = 0 + 1 /\
  dmem st' (0 + 3 * 16 + 5) = 5.
Proof.
  split; [lia|].
  destruct (ope_solid_block (fun _ : Z => 5) 0 1000 16 8
              (mkD (fun _ => 0) 0 0 1 0 0) ltac:(lia)) as (HD & _ & _ & HM).
  split; [exact HD|]. apply HM; lia.
Defined.

Lemma opc_cells_2x2_witness :
  let data := fun a : Z => a mod 256 in
  let st' := dispatchDecoder data 0 1000 16 8 12 (mkD (fun _ => 0) 0 0 16 0 0) in
  8 <= 16 /\
  pData st' = 0 + 16 /\
  dmem st' (0 + 3 * 16 + 5) = data (0 + 4 * (3 / 2) + 5 / 2).
Proof.
  split; [lia|].
  destruct (opc_cells_2x2 (fun a : Z => a mod 256) 0 1000 16 8
              (mkD (fun _ => 0) 0 0 16 0 0) ltac:(lia)) as (HD & _ & _ & HM).
  split; [exact HD|]. apply HM; lia.
Defined.

Lemma opd_cells_4x4_witness :
  let data := fun a : Z => a mod 256 in
  let st' := dispatchDecoder data 0 1000 16 8 13 (mkD (fun _ => 0) 0 0 4 0 0) in
  8 <= 16 /\
  pData st' = 0 + 4 /\
  dmem st' (0 + 5 * 16 + 6) = data (0 + 2 * (5 / 4) + 6 / 4).
Proof.
  split; [lia|].
  destruct (opd_cells_4x4 (fun a : Z => a mod 256) 0 1000 16 8
              (mkD (fun _ => 0) 0 0 4 0 0) ltac:(lia)) as (HD & _ & _ & HM).
  split; [exact HD|]. apply HM; lia.
Defined.

Lemma opf_checkerboard_witness :
  let data := fun a : Z => a mod 256 in
  let st' := dispatchDecoder data 0 1000 16 8 15 (mkD (fun _ => 0) 0 0 2 0 0) in
  8 <= 16 /\
  pData st' = 0 + 2 /\
  dmem st' (0 + 3 * 16 + 4) = data (0 + (3 + 4) mod 2).
Proof.
  split; [lia|].
  destruct (opf_checkerboard (fun a : Z => a mod 256) 0 1000 16 8
              (mkD (fun _ => 0) 0 0 2 0 0) ltac:(lia)) as (HD & _ & _ & HM).
  split; [exact HD|]. apply HM; lia.
Defined.

Lemma op8_four_quadrants_witness :
  let data := fun a : Z => a mod 256 in
  let st' := dispatchDecoder data 0 1000 16 8 8 (mkD (fun _ => 0) 0 0 16 0 0) in
  8 <= 16 /\ data 0 <= data (0 + 1) /\
  pData st' = 0 + 16 /\
  dmem st' (0 + 5 * 16 + 6)
  = if Z.testbit (data (0 + 4 * (2 * (6 / 4) + 5 / 4) + 2 + (5 mod 4) / 2))
         (4 * (5 mod 2) + 6 mod 4)
    then data (0 + 4 * (2 * (6 / 4) + 5 / 4) + 1)
    else data (0 + 4 * (2 * (6 / 4) + 5 / 4)).
Proof.
  assert (Hle : (fun a : Z => a mod 256) 0 <= (fun a : Z => a mod 256) (0 + 1))
    by (vm_compute; discriminate).
  split; [lia|]. split; [exact Hle|].
  destruct (op8_four_quadrants (fun a : Z => a mod 256) 0 1000 16 8
              (fun a => Z.mod_pos_bound a 256 eq_refl)
              (mkD (fun _ => 0) 0 0 16 0 0) ltac:(lia) Hle) as (HD & _ & HM).
  split; [exact HD|]. apply HM; lia.
Defined.

Lemma op8_left_right_witness :
  let data := fun a : Z => (200 + 100 * a) mod 256 in
  let st' := dispatchDecoder data 0 1000 16 8 8 (mkD (fun _ => 0) 0 0 12 0 0) in
  8 <= 16 /\ data 0 > data (0 + 1) /\ data (0 + 6) <= data (0 + 7) /\
  pData st' = 0 + 12 /\
  dmem st' (0 + 5 * 16 + 6)
  = if Z.testbit (data (0 + 6 * (6 / 4) + 2 + 5 / 2)) (4 * (5 mod 2) + 6 mod 4)
    then data (0 + 6 * (6 / 4) + 1)
    else data (0 + 6 * (6 / 4)).
Proof.
  set (data := fun a : Z => (200 + 100 * a) mod 256).
  assert (Hgt : data 0 > data (0 + 1)) by reflexivity.
  assert (Hle : data (0 + 6) <= data (0 + 7)) by (vm_compute; discriminate).
  split; [lia|]. split; [exact Hgt|]. split; [exact Hle|].
  destruct (op8_left_right data 0 1000 16 8
              (fun a => Z.mod_pos_bound (200 + 100 * a) 256 eq_refl)
              (mkD (fun _ => 0) 0 0 12 0 0) ltac:(lia) Hgt Hle) as (HD & _ & HM).
  split; [exact HD|]. apply HM; lia.
Defined.

Lemma op8_top_bottom_witness :
  let data := fun a : Z => (255 - a) mod 256 in
  let st' := dispatchDecoder data 0 1000 16 8 8 (mkD (fun _ => 0) 0 0 12 0 0) in
  8 <= 16 /\ data 0 > data (0 + 1) /\ data (0 + 6) > data (0 + 7) /\
  pData st' = 0 + 12 /\
  dmem st' (0 + 5 * 16 + 6)
  = if Z.testbit (data (0 + 6 * (5 / 4) + 2 + 5 mod 4)) 6
    then data (0 + 6 * (5 / 4) + 1)
    else data (0 + 6 * (5 / 4)).
Proof.
  set (data := fun a : Z => (255 - a) mod 256).
  assert (Hgt : data 0 > data (0 + 1)) by reflexivity.
  assert (Hgt' : data (0 + 6) > data (0 + 7)) by reflexivity.
  split; [lia|]. split; [exact Hgt|]. split; [exact Hgt'|].
  destruct (op8_top_bottom data 0 1000 16 8
              (mkD (fun _ => 0) 0 0 12 0 0) ltac:(lia) Hgt Hgt') as (HD & _ & HM).
  split; [exact HD|]. apply HM; lia.
Defined.

Lemma opa_four_quadrants_witness :
  let data := fun a : Z => a mod 256 in
  let st' := dispatchDecoder data 0 1000 16 8 10 (mkD (fun _ => 0) 0 0 32 0 0) in
  8 <= 16 /\ data 0 <= data (0 + 1) /\
  pData st' = 0 + 32 /\
  dmem st' (0 + 5 * 16 + 6)
  = at4 (Arr4 (data (0 + 8 * (2 * (6 / 4) + 5 / 4)))
              (data (0 + 8 * (2 * (6 / 4) + 5 / 4) + 1))
              (data (0 + 8 * (2 * (6 / 4) + 5 / 4) + 2))
              (data (0 + 8 * (2 * (6 / 4) + 5 / 4) + 3)))
      (pick2 (data (0 + 8 * (2 * (6 / 4) + 5 / 4) + 4 + 5 mod 4)) (6 mod 4)).
Proof.
  assert (Hle : (fun a : Z => a mod 256) 0 <= (fun a : Z => a mod 256) (0 + 1))
    by (vm_compute; discriminate).
  split; [lia|]. split; [exact Hle|].
  destruct (opa_four_quadrants (fun a : Z => a mod 256) 0 1000 16 8
              (fun a => Z.mod_pos_bound a 256 eq_refl)
              (mkD (fun _ => 0) 0 0 32 0 0) ltac:(lia) Hle) as (HD & _ & HM).
  split; [exact HD|]. apply HM; lia.
Defined.

Lemma opa_left_right_witness :
  let data := fun a : Z => (200 + 100 * a) mod 256 in
  let st' := dispatchDecoder data 0 1000 16 8 10 (mkD (fun _ => 0) 0 0 24 0 0) in
  8 <= 16 /\ data 0 > data (0 + 1) /\ data (0 + 12) <= data (0 + 13) /\
  pData st' = 0 + 24 /\
  dmem st' (0 + 5 * 16 + 6)
  = at4 (Arr4 (data (0 + 12 * (6 / 4))) (data (0 + 12 * (6 / 4) + 1))
              (data (0 + 12 * (6 / 4) + 2)) (data (0 + 12 * (6 / 4) + 3)))
      (pick2 (data (0 + 12 * (6 / 4) + 4 + 5)) (6 mod 4)).
Proof.
  set (data := fun a : Z => (200 + 100 * a) mod 256).
  assert (Hgt : data 0 > data (0 + 1)) by reflexivity.
  assert (Hle : data (0 + 12) <= data (0 + 13)) by (vm_compute; discriminate).
  split; [lia|]. split; [exact Hgt|]. split; [exact Hle|].
  destruct (opa_left_right data 0 1000 16 8
              (fun a => Z.mod_pos_bound (200 + 100 * a) 256 eq_refl)
              (mkD (fun _ => 0) 0 0 24 0 0) ltac:(lia) Hgt Hle) as (HD & _ & HM).
  split; [exact HD|]. apply HM; lia.
Defined.

Lemma opa_top_bottom_witness :
  let data := fun a : Z => (255 - a) mod 256 in
  let st' := dispatchDecoder data 0 1000 16 8 10 (mkD (fun _ => 0) 0 0 24 0 0) in
  8 <= 16 /\ data 0 > data (0 + 1) /\ data (0 + 12) > data (0 + 13) /\
  pData st' = 0 + 24 /\
  dmem st' (0 + 5 * 16 + 6)
  = at4 (Arr4 (data (0 + 12 * (5 / 4))) (data (0 + 12 * (5 / 4) + 1))
              (data (0 + 12 * (5 / 4) + 2)) (data (0 + 12 * (5 / 4) + 3)))
      (pick2 (data (0 + 12 * (5 / 4) + 4 + 2 * (5 mod 4) + 6 / 4)) (6 mod 4)).
Proof.
  set (data := fun a : Z => (255 - a) mod 256).
  assert (Hgt : data 0 > data (0 + 1)) by reflexivity.
  assert (Hgt' : data (0 + 12) > data (0 + 13)) by reflexivity.
  split; [lia|]. split; [exact Hgt|]. split; [exact Hgt'|].
  destruct (opa_top_bottom data 0 1000 16 8
              (fun a => Z.mod_pos_bound (255 - a) 256 eq_refl)
              (mkD (fun _ => 0) 0 0 24 0 0) ltac:(lia) Hgt Hgt') as (HD & _ & HM).
  split; [exact HD|]. apply HM; lia.
Defined.

Lemma decodeFrame8_quiet_witness :
  Forall no_skip_byte [238; 238; 238; 238] /\ 0 <= 32 /\ 0 <= 16 /\
  match decodeFrame8 1000 32 16 0 [238; 238; 238; 238] (fun _ => 5) 0 8 (fun _ => 0) with
  | Done _ _ log => log = []
  | MapExhausted => True
  | OutOfFuel => False
  end.
Proof.
  assert (Hok : Forall no_skip_byte [238; 238; 238; 238])
    by (repeat constructor; vm_compute; intuition discriminate).
  split; [exact Hok|]. split; [lia|]. split; [lia|].
  exact (decodeFrame8_quiet 1000 32 16 0 [238; 238; 238; 238] (fun _ => 5) 0 8
           (fun _ => 0) Hok ltac:(lia) ltac:(lia)).
Defined.
